(** * cockpit-machines: the disk, boot-order and storage-pool dialogs

    A shallow embedding of three React components of the repository,

    - [AddDiskModalBody]  (src/components/vm/disks/diskAdd.jsx),
    - [BootOrderModal]    (src/components/vm/overview/bootOrder.jsx),
    - [StoragePoolDelete] (the storage pool deletion dialog),

    and the properties of their form state machines.

    Conventions of the embedding.
    - A component's [this.state] is a record; a [setState] call is a queued
      [Update]; the handlers read the state as it was when the event fired
      and the queue is folded over it afterwards (React's batching).
    - A JavaScript exception is the [Throw] outcome of the [result] monad.
      It ends the handler; what the handler queued or issued before it
      raised is not kept in the outcome.
    - A value that may be [undefined] is an [option].
    - Numbers are IEEE 754 doubles: Rocq's primitive floats.
    - The functions imported from helpers.js, cockpit and libvirtApi are not
      part of the sources at hand; they are the fields of [Externals]. *)

From Stdlib Require Import PrimFloat SpecFloat FloatOps ZArith Ascii Sorted.
From stdpp Require Import base strings pretty list gmap.

Set Default Proof Using "Type".

(** ** JavaScript preliminaries *)

Inductive JsError : Type :=
| TypeError (detail : string).

Inductive result (A : Type) : Type :=
| Ok (a : A)
| Throw (e : JsError).
Arguments Ok {A} a.
Arguments Throw {A} e.

#[global] Instance result_ret : MRet result := λ A a, Ok a.
#[global] Instance result_bind : MBind result :=
  λ A B k m, match m with Ok a => k a | Throw e => Throw e end.

Definition is_ok {A} (r : result A) : bool :=
  match r with Ok _ => true | Throw _ => false end.

(** [o.prop] where [o] may be [undefined]: reading a property of
    [undefined] raises a TypeError. *)
Definition deref {A} (prop : string) (o : option A) : result A :=
  match o with
  | Some a => Ok a
  | None => Throw (TypeError ("Cannot read properties of undefined (reading '" +:+ prop +:+ "')"))
  end.

(** Truthiness of a value that is a string or [undefined]. *)
Definition truthy (v : option string) : bool :=
  match v with
  | Some s => negb (bool_decide (s = ""))
  | None => false
  end.

(** [a || b] on such values. *)
Definition js_or (a b : option string) : option string :=
  if truthy a then a else b.

(** [s === v] and [s == v] for a string [s] and a string-or-undefined [v];
    the two agree on these types. *)
Definition str_eq (s : string) (v : option string) : bool :=
  bool_decide (Some s = v).

(** [Array.prototype.includes] on an array of such values. *)
Definition includes (l : list (option string)) (v : option string) : bool :=
  bool_decide (v ∈ l).

(** [String.prototype.endsWith]. *)
Definition endsWith (s suffix : string) : bool :=
  let n := String.length s in
  let k := String.length suffix in
  bool_decide (k ≤ n)%nat &&
  bool_decide (String.substring (n - k) k s = suffix).

(** [Array.prototype.sort] with a comparator: a stable sort. An element is
    put in front of the first later element it does not compare greater
    than. *)
Fixpoint sort_insert {A} (cmp : A → A → Z) (x : A) (l : list A) : list A :=
  match l with
  | [] => [x]
  | y :: l' => if (cmp x y <=? 0)%Z then x :: l else y :: sort_insert cmp x l'
  end.

Definition sort {A} (cmp : A → A → Z) (l : list A) : list A :=
  foldr (sort_insert cmp) [] l.

(** ** The data handed to the dialogs *)

Module Volume.
Record t : Type := mk {
  name : string;
  path : string;
  format : option string;
}.
End Volume.

Module Pool.
Record t : Type := mk {
  name : string;
  type : string;
  connectionName : string;
  id : string;
  capacity : float;
  active : bool;
  persistent : bool;
  volumes : option (list Volume.t);
}.
End Pool.

Module Source.
Record t : Type := mk {
  file : option string;
  volume : option string;
  pool : option string;
}.
End Source.

Module Disk.
Record t : Type := mk {
  device : string;
  bus : option string;
  source : option Source.t;
}.
End Disk.

(** [vm.disks] is an object keyed by the disk target; its own properties are
    kept in their enumeration order. *)
Module VM.
Record t : Type := mk {
  name : string;
  id : string;
  connectionName : string;
  state : string;
  persistent : bool;
  disks : list (string * Disk.t);
}.
End VM.

(** [Object.getOwnPropertyNames] and [Object.values] of [vm.disks]. *)
Definition getOwnPropertyNames (disks : list (string * Disk.t)) : list string :=
  fst <$> disks.

Definition values (disks : list (string * Disk.t)) : list Disk.t :=
  snd <$> disks.

(** ** What the components import *)

(** The three shapes in which diskAdd.jsx calls [getDefaultVolumeFormat]. *)
Inductive FormatArg : Type :=
| OfPool (pool : Pool.t)               (* a pool of [storagePools] *)
| OfNameType (name type : string)      (* the [{ name, type }] copy of [initialState] *)
| OfString (value : string).           (* a pool name, in [onValueChanged] *)

(** A unit is given to [convertToUnit] as an entry of the [units] table or
    by its name. *)
Inductive UnitArg : Type :=
| units_B
| UnitName (name : string).

Class Externals : Type := {
  (* cockpit *)
  gettext : string → string;
  cockpit_format : string → list string → string;
  (* built-ins whose result depends on the locale or on number printing *)
  localeCompare : string → string → Z;
  parseFloat : float → float;
  toFixed : float → nat → string;
  (* helpers.js *)
  units_GiB_name : string;
  convertToUnit : float → UnitArg → UnitArg → float;
  getDefaultVolumeFormat : FormatArg → option string;
  getNextAvailableTarget : list string → string → option string;
  getStorageVolumesUsage : list VM.t → Pool.t → gmap string (list string);
  getStorageVolumeDiskTarget : option VM.t → option Pool.t → option string → option string;
  (* libvirtApi/domain.js *)
  domainIsRunning : string → bool;
}.

(** * The "Add disk" dialog (diskAdd.jsx) *)

Module AddDisk.

(** [this.props] of [AddDiskModalBody], as far as the handlers read them. *)
Module Props.
Record t : Type := mk {
  storagePools : list Pool.t;
  vm : VM.t;
  vms : list VM.t;
}.
End Props.

(** [this.state] once [componentDidMount] has merged [initialState] into it.
    Before that the state is [{ validate: false, dialogLoading: true }], the
    dialog shows a spinner only and no handler below can be reached. *)
Module State.
Record t : Type := mk {
  storagePools : list Pool.t;
  vm : VM.t;
  vms : list VM.t;
  file : string;
  device : string;
  storagePoolName : option string;
  storagePoolType : option string;
  mode : string;
  volumeName : option string;
  existingVolumeName : option string;
  size : float;
  unit : string;
  format : option string;
  target : option string;
  permanent : bool;
  hotplug : bool;
  addDiskInProgress : bool;
  cacheMode : string;
  busType : string;
  updateDisks : bool;
  validate : bool;
  dialogLoading : bool;
  dialogError : option string;
  dialogErrorDetail : option string;
}.

(** The merge of the object [{ field: v }] into a state, for the fields the
    component sets on their own. *)

Definition set_file (v : string) (s : t) : t :=
  {| storagePools := storagePools s; vm := vm s; vms := vms s; file := v;
     device := device s; storagePoolName := storagePoolName s;
     storagePoolType := storagePoolType s; mode := mode s;
     volumeName := volumeName s; existingVolumeName := existingVolumeName s;
     size := size s; unit := unit s; format := format s; target := target s;
     permanent := permanent s; hotplug := hotplug s;
     addDiskInProgress := addDiskInProgress s; cacheMode := cacheMode s;
     busType := busType s; updateDisks := updateDisks s;
     validate := validate s; dialogLoading := dialogLoading s;
     dialogError := dialogError s;
     dialogErrorDetail := dialogErrorDetail s |}.

Definition set_device (v : string) (s : t) : t :=
  {| storagePools := storagePools s; vm := vm s; vms := vms s;
     file := file s; device := v; storagePoolName := storagePoolName s;
     storagePoolType := storagePoolType s; mode := mode s;
     volumeName := volumeName s; existingVolumeName := existingVolumeName s;
     size := size s; unit := unit s; format := format s; target := target s;
     permanent := permanent s; hotplug := hotplug s;
     addDiskInProgress := addDiskInProgress s; cacheMode := cacheMode s;
     busType := busType s; updateDisks := updateDisks s;
     validate := validate s; dialogLoading := dialogLoading s;
     dialogError := dialogError s;
     dialogErrorDetail := dialogErrorDetail s |}.

Definition set_storagePoolName (v : option string) (s : t) : t :=
  {| storagePools := storagePools s; vm := vm s; vms := vms s;
     file := file s; device := device s; storagePoolName := v;
     storagePoolType := storagePoolType s; mode := mode s;
     volumeName := volumeName s; existingVolumeName := existingVolumeName s;
     size := size s; unit := unit s; format := format s; target := target s;
     permanent := permanent s; hotplug := hotplug s;
     addDiskInProgress := addDiskInProgress s; cacheMode := cacheMode s;
     busType := busType s; updateDisks := updateDisks s;
     validate := validate s; dialogLoading := dialogLoading s;
     dialogError := dialogError s;
     dialogErrorDetail := dialogErrorDetail s |}.

Definition set_storagePoolType (v : option string) (s : t) : t :=
  {| storagePools := storagePools s; vm := vm s; vms := vms s;
     file := file s; device := device s;
     storagePoolName := storagePoolName s; storagePoolType := v;
     mode := mode s; volumeName := volumeName s;
     existingVolumeName := existingVolumeName s; size := size s;
     unit := unit s; format := format s; target := target s;
     permanent := permanent s; hotplug := hotplug s;
     addDiskInProgress := addDiskInProgress s; cacheMode := cacheMode s;
     busType := busType s; updateDisks := updateDisks s;
     validate := validate s; dialogLoading := dialogLoading s;
     dialogError := dialogError s;
     dialogErrorDetail := dialogErrorDetail s |}.

Definition set_mode (v : string) (s : t) : t :=
  {| storagePools := storagePools s; vm := vm s; vms := vms s;
     file := file s; device := device s;
     storagePoolName := storagePoolName s;
     storagePoolType := storagePoolType s; mode := v;
     volumeName := volumeName s; existingVolumeName := existingVolumeName s;
     size := size s; unit := unit s; format := format s; target := target s;
     permanent := permanent s; hotplug := hotplug s;
     addDiskInProgress := addDiskInProgress s; cacheMode := cacheMode s;
     busType := busType s; updateDisks := updateDisks s;
     validate := validate s; dialogLoading := dialogLoading s;
     dialogError := dialogError s;
     dialogErrorDetail := dialogErrorDetail s |}.

Definition set_volumeName (v : option string) (s : t) : t :=
  {| storagePools := storagePools s; vm := vm s; vms := vms s;
     file := file s; device := device s;
     storagePoolName := storagePoolName s;
     storagePoolType := storagePoolType s; mode := mode s; volumeName := v;
     existingVolumeName := existingVolumeName s; size := size s;
     unit := unit s; format := format s; target := target s;
     permanent := permanent s; hotplug := hotplug s;
     addDiskInProgress := addDiskInProgress s; cacheMode := cacheMode s;
     busType := busType s; updateDisks := updateDisks s;
     validate := validate s; dialogLoading := dialogLoading s;
     dialogError := dialogError s;
     dialogErrorDetail := dialogErrorDetail s |}.

Definition set_existingVolumeName (v : option string) (s : t) : t :=
  {| storagePools := storagePools s; vm := vm s; vms := vms s;
     file := file s; device := device s;
     storagePoolName := storagePoolName s;
     storagePoolType := storagePoolType s; mode := mode s;
     volumeName := volumeName s; existingVolumeName := v; size := size s;
     unit := unit s; format := format s; target := target s;
     permanent := permanent s; hotplug := hotplug s;
     addDiskInProgress := addDiskInProgress s; cacheMode := cacheMode s;
     busType := busType s; updateDisks := updateDisks s;
     validate := validate s; dialogLoading := dialogLoading s;
     dialogError := dialogError s;
     dialogErrorDetail := dialogErrorDetail s |}.

Definition set_size (v : float) (s : t) : t :=
  {| storagePools := storagePools s; vm := vm s; vms := vms s;
     file := file s; device := device s;
     storagePoolName := storagePoolName s;
     storagePoolType := storagePoolType s; mode := mode s;
     volumeName := volumeName s; existingVolumeName := existingVolumeName s;
     size := v; unit := unit s; format := format s; target := target s;
     permanent := permanent s; hotplug := hotplug s;
     addDiskInProgress := addDiskInProgress s; cacheMode := cacheMode s;
     busType := busType s; updateDisks := updateDisks s;
     validate := validate s; dialogLoading := dialogLoading s;
     dialogError := dialogError s;
     dialogErrorDetail := dialogErrorDetail s |}.

Definition set_unit (v : string) (s : t) : t :=
  {| storagePools := storagePools s; vm := vm s; vms := vms s;
     file := file s; device := device s;
     storagePoolName := storagePoolName s;
     storagePoolType := storagePoolType s; mode := mode s;
     volumeName := volumeName s; existingVolumeName := existingVolumeName s;
     size := size s; unit := v; format := format s; target := target s;
     permanent := permanent s; hotplug := hotplug s;
     addDiskInProgress := addDiskInProgress s; cacheMode := cacheMode s;
     busType := busType s; updateDisks := updateDisks s;
     validate := validate s; dialogLoading := dialogLoading s;
     dialogError := dialogError s;
     dialogErrorDetail := dialogErrorDetail s |}.

Definition set_format (v : option string) (s : t) : t :=
  {| storagePools := storagePools s; vm := vm s; vms := vms s;
     file := file s; device := device s;
     storagePoolName := storagePoolName s;
     storagePoolType := storagePoolType s; mode := mode s;
     volumeName := volumeName s; existingVolumeName := existingVolumeName s;
     size := size s; unit := unit s; format := v; target := target s;
     permanent := permanent s; hotplug := hotplug s;
     addDiskInProgress := addDiskInProgress s; cacheMode := cacheMode s;
     busType := busType s; updateDisks := updateDisks s;
     validate := validate s; dialogLoading := dialogLoading s;
     dialogError := dialogError s;
     dialogErrorDetail := dialogErrorDetail s |}.

Definition set_target (v : option string) (s : t) : t :=
  {| storagePools := storagePools s; vm := vm s; vms := vms s;
     file := file s; device := device s;
     storagePoolName := storagePoolName s;
     storagePoolType := storagePoolType s; mode := mode s;
     volumeName := volumeName s; existingVolumeName := existingVolumeName s;
     size := size s; unit := unit s; format := format s; target := v;
     permanent := permanent s; hotplug := hotplug s;
     addDiskInProgress := addDiskInProgress s; cacheMode := cacheMode s;
     busType := busType s; updateDisks := updateDisks s;
     validate := validate s; dialogLoading := dialogLoading s;
     dialogError := dialogError s;
     dialogErrorDetail := dialogErrorDetail s |}.

Definition set_permanent (v : bool) (s : t) : t :=
  {| storagePools := storagePools s; vm := vm s; vms := vms s;
     file := file s; device := device s;
     storagePoolName := storagePoolName s;
     storagePoolType := storagePoolType s; mode := mode s;
     volumeName := volumeName s; existingVolumeName := existingVolumeName s;
     size := size s; unit := unit s; format := format s; target := target s;
     permanent := v; hotplug := hotplug s;
     addDiskInProgress := addDiskInProgress s; cacheMode := cacheMode s;
     busType := busType s; updateDisks := updateDisks s;
     validate := validate s; dialogLoading := dialogLoading s;
     dialogError := dialogError s;
     dialogErrorDetail := dialogErrorDetail s |}.

Definition set_addDiskInProgress (v : bool) (s : t) : t :=
  {| storagePools := storagePools s; vm := vm s; vms := vms s;
     file := file s; device := device s;
     storagePoolName := storagePoolName s;
     storagePoolType := storagePoolType s; mode := mode s;
     volumeName := volumeName s; existingVolumeName := existingVolumeName s;
     size := size s; unit := unit s; format := format s; target := target s;
     permanent := permanent s; hotplug := hotplug s; addDiskInProgress := v;
     cacheMode := cacheMode s; busType := busType s;
     updateDisks := updateDisks s; validate := validate s;
     dialogLoading := dialogLoading s; dialogError := dialogError s;
     dialogErrorDetail := dialogErrorDetail s |}.

Definition set_cacheMode (v : string) (s : t) : t :=
  {| storagePools := storagePools s; vm := vm s; vms := vms s;
     file := file s; device := device s;
     storagePoolName := storagePoolName s;
     storagePoolType := storagePoolType s; mode := mode s;
     volumeName := volumeName s; existingVolumeName := existingVolumeName s;
     size := size s; unit := unit s; format := format s; target := target s;
     permanent := permanent s; hotplug := hotplug s;
     addDiskInProgress := addDiskInProgress s; cacheMode := v;
     busType := busType s; updateDisks := updateDisks s;
     validate := validate s; dialogLoading := dialogLoading s;
     dialogError := dialogError s;
     dialogErrorDetail := dialogErrorDetail s |}.

Definition set_busType (v : string) (s : t) : t :=
  {| storagePools := storagePools s; vm := vm s; vms := vms s;
     file := file s; device := device s;
     storagePoolName := storagePoolName s;
     storagePoolType := storagePoolType s; mode := mode s;
     volumeName := volumeName s; existingVolumeName := existingVolumeName s;
     size := size s; unit := unit s; format := format s; target := target s;
     permanent := permanent s; hotplug := hotplug s;
     addDiskInProgress := addDiskInProgress s; cacheMode := cacheMode s;
     busType := v; updateDisks := updateDisks s; validate := validate s;
     dialogLoading := dialogLoading s; dialogError := dialogError s;
     dialogErrorDetail := dialogErrorDetail s |}.

Definition set_validate (v : bool) (s : t) : t :=
  {| storagePools := storagePools s; vm := vm s; vms := vms s;
     file := file s; device := device s;
     storagePoolName := storagePoolName s;
     storagePoolType := storagePoolType s; mode := mode s;
     volumeName := volumeName s; existingVolumeName := existingVolumeName s;
     size := size s; unit := unit s; format := format s; target := target s;
     permanent := permanent s; hotplug := hotplug s;
     addDiskInProgress := addDiskInProgress s; cacheMode := cacheMode s;
     busType := busType s; updateDisks := updateDisks s; validate := v;
     dialogLoading := dialogLoading s; dialogError := dialogError s;
     dialogErrorDetail := dialogErrorDetail s |}.

Definition set_dialogLoading (v : bool) (s : t) : t :=
  {| storagePools := storagePools s; vm := vm s; vms := vms s;
     file := file s; device := device s;
     storagePoolName := storagePoolName s;
     storagePoolType := storagePoolType s; mode := mode s;
     volumeName := volumeName s; existingVolumeName := existingVolumeName s;
     size := size s; unit := unit s; format := format s; target := target s;
     permanent := permanent s; hotplug := hotplug s;
     addDiskInProgress := addDiskInProgress s; cacheMode := cacheMode s;
     busType := busType s; updateDisks := updateDisks s;
     validate := validate s; dialogLoading := v;
     dialogError := dialogError s;
     dialogErrorDetail := dialogErrorDetail s |}.

Definition set_dialogError (v : option string) (s : t) : t :=
  {| storagePools := storagePools s; vm := vm s; vms := vms s;
     file := file s; device := device s;
     storagePoolName := storagePoolName s;
     storagePoolType := storagePoolType s; mode := mode s;
     volumeName := volumeName s; existingVolumeName := existingVolumeName s;
     size := size s; unit := unit s; format := format s; target := target s;
     permanent := permanent s; hotplug := hotplug s;
     addDiskInProgress := addDiskInProgress s; cacheMode := cacheMode s;
     busType := busType s; updateDisks := updateDisks s;
     validate := validate s; dialogLoading := dialogLoading s;
     dialogError := v; dialogErrorDetail := dialogErrorDetail s |}.

Definition set_dialogErrorDetail (v : option string) (s : t) : t :=
  {| storagePools := storagePools s; vm := vm s; vms := vms s;
     file := file s; device := device s;
     storagePoolName := storagePoolName s;
     storagePoolType := storagePoolType s; mode := mode s;
     volumeName := volumeName s; existingVolumeName := existingVolumeName s;
     size := size s; unit := unit s; format := format s; target := target s;
     permanent := permanent s; hotplug := hotplug s;
     addDiskInProgress := addDiskInProgress s; cacheMode := cacheMode s;
     busType := busType s; updateDisks := updateDisks s;
     validate := validate s; dialogLoading := dialogLoading s;
     dialogError := dialogError s; dialogErrorDetail := v |}.
End State.

Definition CREATE_NEW : string := "create-new".
Definition USE_EXISTING : string := "use-existing".
Definition CUSTOM_PATH : string := "custom-path".

Definition poolTypesNotSupportingVolumeCreation : list string :=
  ["iscsi"; "iscsi-direct"; "gluster"; "mpath"].

(** A partial state object, given by what merging it into a state does. *)
Definition Delta : Type := State.t → State.t.

(** A queued [setState]: applied to the state the earlier updates of the
    batch produced. An updater function may raise. *)
Definition Update : Type := State.t → result State.t.

(** [setState(object)]. *)
Definition patch (d : Delta) : Update := λ prevState, Ok (d prevState).

(** React applies the queue in order. *)
Fixpoint flush (queue : list Update) (s : State.t) : result State.t :=
  match queue with
  | [] => Ok s
  | u :: queue' => s' ← u s; flush queue' s'
  end.

(** The calls into libvirtApi, with the argument objects as they are built. *)
Module CreateArgs.
Record t : Type := mk {
  connectionName : string;
  poolName : option string;
  volumeName : option string;
  size : float;
  format : option string;
  target : option string;
  permanent : bool;
  hotplug : bool;
  vmName : string;
  vmId : string;
  cacheMode : string;
  busType : string;
}.
End CreateArgs.

(** [shareable] is kept by its truthiness. *)
Module AttachArgs.
Record t : Type := mk {
  connectionName : string;
  type : string;
  file : string;
  device : string;
  poolName : option string;
  volumeName : option string;
  format : option string;
  target : option string;
  permanent : bool;
  hotplug : bool;
  vmName : string;
  vmId : string;
  cacheMode : string;
  shareable : bool;
  busType : string;
}.
End AttachArgs.

Inductive ExtCall : Type :=
| storageVolumeCreateAndAttach (args : CreateArgs.t)
| domainAttachDisk (args : AttachArgs.t)
| domainGet (connectionName name id : string)
| domainUpdateDiskAttributes (connectionName objPath : string)
    (readonly shareable : bool) (target : option string).

(** The attach/create calls among them. *)
Definition isAttachOrCreate (c : ExtCall) : bool :=
  match c with
  | storageVolumeCreateAndAttach _ | domainAttachDisk _ => true
  | _ => false
  end.

(** The [(key, value)] pairs the form controls send to [onValueChanged]. *)
Module Key.
Inductive t : Type :=
| storagePoolName (value : string)
| existingVolumeName (value : option string)
| mode (value : string)
| busType (value : string)
| file (value : string)
| device (value : string)
(* the keys of the [default] branch *)
| format (value : option string)
| volumeName (value : option string)
| size (value : float)
| unit (value : string)
| permanent (value : bool)
| cacheMode (value : string).
End Key.

Section AddDiskModalBody.
Context `{ext : Externals}.

(** [disks[target].source && (source.file || source.volume)] *)
Definition usedDiskPath (disk : Disk.t) : option string :=
  match Disk.source disk with
  | Some source => js_or (Source.file source) (Source.volume source)
  | None => None
  end.

Definition getFilteredVolumes (vmStoragePool : option Pool.t)
    (disks : list (string * Disk.t)) : result (list Volume.t) :=
  let usedDiskPaths :=
    usedDiskPath <$> List.filter (λ disk, truthy (usedDiskPath disk)) (values disks) in
  vmStoragePool ← deref "volumes" vmStoragePool;
  volumes ← deref "filter" (Pool.volumes vmStoragePool);
  let filteredVolumes :=
    List.filter (λ volume,
      negb (includes usedDiskPaths (Some (Volume.path volume))) &&
      negb (includes usedDiskPaths (Some (Volume.name volume)))) volumes in
  let filteredVolumesSorted :=
    sort (λ a b, localeCompare (Volume.name a) (Volume.name b)) filteredVolumes in
  Ok filteredVolumesSorted.

(** *** [get initialState] *)

Definition defaultBus : string := "virtio".

Definition availableTarget (P : Props.t) : option string :=
  getNextAvailableTarget (getOwnPropertyNames (VM.disks (Props.vm P))) defaultBus.

(** The [{ name, type }] copy of the pool that sorts first by name. *)
Definition defaultPool (P : Props.t) : option (string * string) :=
  if bool_decide (0 < length (Props.storagePools P))%nat then
    head (sort (λ poolA poolB, localeCompare poolA.1 poolB.1)
            ((λ pool, (Pool.name pool, Pool.type pool)) <$> Props.storagePools P))
  else None.

Definition initialFormat (P : Props.t) : option string :=
  match defaultPool P with
  | Some (name, type) => getDefaultVolumeFormat (OfNameType name type)
  | None => None
  end.

(** The object has every field of the state but [validate],
    [dialogLoading], [dialogError] and [dialogErrorDetail]. *)
Definition initialState (P : Props.t) : Delta := λ s,
  {| State.storagePools := Props.storagePools P;
     State.vm := Props.vm P;
     State.vms := Props.vms P;
     State.file := "";
     State.device := "disk";
     State.storagePoolName := fst <$> defaultPool P;
     State.storagePoolType := snd <$> defaultPool P;
     State.mode := CREATE_NEW;
     State.volumeName := None;
     State.existingVolumeName := None;
     State.size := 1%float;
     State.unit := units_GiB_name;
     State.format := initialFormat P;
     State.target := availableTarget P;
     State.permanent := negb (domainIsRunning (VM.state (Props.vm P)));
     State.hotplug := domainIsRunning (VM.state (Props.vm P));
     State.addDiskInProgress := false;
     State.cacheMode := "default";
     State.busType := defaultBus;
     State.updateDisks := false;
     State.validate := State.validate s;
     State.dialogLoading := State.dialogLoading s;
     State.dialogError := State.dialogError s;
     State.dialogErrorDetail := State.dialogErrorDetail s |}.

Definition dialogErrorSet (text : string) (detail : string) : Update :=
  patch (State.set_dialogError (Some text) ∘ State.set_dialogErrorDetail (Some detail)).

(** [componentDidMount], when [storagePoolGetAll] is fulfilled and when it
    is rejected with [exc]. *)
Definition componentDidMount_then (P : Props.t) : Update :=
  patch (initialState P ∘ State.set_dialogLoading false).

Definition componentDidMount_catch (exc_message : string) : Update :=
  dialogErrorSet (gettext "Storage pools could not be fetched") exc_message.

(** *** [validateParams] *)

(** [parseFloat(convertToUnit(pool.capacity, units.B, unit))] *)
Definition poolCapacity (pool : Pool.t) (unit : string) : float :=
  parseFloat (convertToUnit (Pool.capacity pool) units_B (UnitName unit)).

Definition validateParams (P : Props.t) (s : State.t) : result (gmap string string) :=
  let validationFailed : gmap string string := ∅ in
  let validationFailed :=
    if bool_decide (State.mode s ≠ CUSTOM_PATH) && negb (truthy (State.storagePoolName s))
    then <["storagePool" := gettext "Please choose a storage pool"]> validationFailed
    else validationFailed in
  if bool_decide (State.mode s = CREATE_NEW) then
    let validationFailed :=
      if negb (truthy (State.volumeName s))
      then <["volumeName" := gettext "Please enter new volume name"]> validationFailed
      else validationFailed in
    let validationFailed :=
      if includes (Some <$> poolTypesNotSupportingVolumeCreation) (State.storagePoolType s)
      then <["storagePool" :=
               cockpit_format (gettext "Pool type $0 does not support volume creation")
                 [default "undefined" (State.storagePoolType s)]]> validationFailed
      else validationFailed in
    pool ← deref "capacity"
             (List.find (λ pool, str_eq (Pool.name pool) (State.storagePoolName s))
                (Props.storagePools P));
    let poolCapacity := poolCapacity pool (State.unit s) in
    let validationFailed :=
      if PrimFloat.ltb poolCapacity (State.size s)
      then <["size" :=
               cockpit_format
                 (gettext "Storage volume size must not exceed the storage pool's capacity ($0 $1)")
                 [toFixed poolCapacity 2; State.unit s]]> validationFailed
      else validationFailed in
    Ok validationFailed
  else if bool_decide (State.mode s = USE_EXISTING) then
    let validationFailed :=
      if bool_decide (State.mode s ≠ CUSTOM_PATH) && negb (truthy (State.existingVolumeName s))
      then <["existingVolumeName" := gettext "Please choose a volume"]> validationFailed
      else validationFailed in
    Ok validationFailed
  else Ok validationFailed.

(** *** [existingVolumeNameDelta] and [getDefaultVolumeName]

    Both read [this.state]: the argument [s]. The two lookups of a pool
    in [this.state.storagePools]:
    [storagePools.find(pool => pool.name === name)] and
    [storagePools.find(pool => pool.name === name &&
                               pool.connectionName === vm.connectionName)]. *)
Definition poolNamed (s : State.t) (name : option string) : option Pool.t :=
  List.find (λ pool, str_eq (Pool.name pool) name) (State.storagePools s).

Definition poolOfVm (s : State.t) (name : option string) : option Pool.t :=
  List.find (λ pool,
    str_eq (Pool.name pool) name &&
    bool_decide (Pool.connectionName pool = VM.connectionName (State.vm s)))
    (State.storagePools s).

Definition fileBasedTypes : list string := ["dir"; "fs"; "netfs"; "gluster"; "vstorage"].

Definition existingVolumeNameDelta (s : State.t)
    (value : option string) (poolName : option string) : result Delta :=
  let stateDelta : Delta := State.set_existingVolumeName value in
  let pool := poolOfVm s poolName in
  match pool with
  | None => Ok stateDelta
  | Some pool =>
      let stateDelta : Delta :=
        State.set_format (getDefaultVolumeFormat (OfPool pool)) ∘ stateDelta in
      if includes (Some <$> fileBasedTypes) (Some (Pool.type pool))
      then
        volumes ← deref "find" (Pool.volumes pool);
        match List.find (λ vol, str_eq (Volume.name vol) value) volumes with
        | Some volume =>
            if truthy (Volume.format volume)
            then Ok (State.set_format (Volume.format volume) ∘ stateDelta)
            else Ok stateDelta
        | None => Ok stateDelta
        end
      else Ok stateDelta
  end.

Definition getDefaultVolumeName (s : State.t) (poolName : string) : result (option string) :=
  let vmStoragePool := poolNamed s (Some poolName) in
  filteredVolumes ← getFilteredVolumes vmStoragePool (VM.disks (State.vm s));
  Ok (Volume.name <$> head filteredVolumes).

(** The format [existingVolumeNameDelta] gives for the volume [name] of a
    pool: the one recorded for the volume if the pool is file based and
    the volume has one, the default format of the pool otherwise. *)
Definition derivedFormat (pool : Pool.t) (name : option string) : option string :=
  let recorded :=
    if includes (Some <$> fileBasedTypes) (Some (Pool.type pool)) then
      match List.find (λ vol, str_eq (Volume.name vol) name)
              (default [] (Pool.volumes pool)) with
      | Some volume => if truthy (Volume.format volume) then Volume.format volume else None
      | None => None
      end
    else None in
  match recorded with
  | Some format => Some format
  | None => getDefaultVolumeFormat (OfPool pool)
  end.

(** *** [onValueChanged] *)

(** [default: this.setState({ [key]: value })] *)
Definition onDefault (key : Key.t) : list Update :=
  match key with
  | Key.format value => [patch (State.set_format value)]
  | Key.volumeName value => [patch (State.set_volumeName value)]
  | Key.size value => [patch (State.set_size value)]
  | Key.unit value => [patch (State.set_unit value)]
  | Key.permanent value => [patch (State.set_permanent value)]
  | Key.cacheMode value => [patch (State.set_cacheMode value)]
  | _ => []
  end.

(** [case 'busType'] *)
Definition onBusType (P : Props.t) (value : string) : list Update :=
  let existingTargets := getOwnPropertyNames (VM.disks (Props.vm P)) in
  let availableTarget := getNextAvailableTarget existingTargets value in
  [patch (State.set_busType value ∘ State.set_target availableTarget)].

(** The loop of [case 'device']: the bus of the first disk with that
    device. *)
Definition busOfDevice (P : Props.t) (value : string) : option string :=
  match List.find (λ disk, bool_decide (Disk.device disk = value))
          (values (VM.disks (Props.vm P))) with
  | Some disk => Disk.bus disk
  | None => None
  end.

(** [case 'device']; the nested [this.onValueChanged("busType", _)] is
    [onBusType]. *)
Definition onDevice (P : Props.t) (s : State.t) (value : string) : list Update :=
  let newBus := busOfDevice P value in
  let otherwise :=
    if bool_decide (value = "cdrom") && bool_decide (State.busType s = "virtio")
    then onBusType P "scsi" else [] in
  patch (State.set_device value) ::
  match newBus with
  | Some bus => if truthy newBus then onBusType P bus else otherwise
  | None => otherwise
  end.

(** [case 'file'] *)
Definition onFile (P : Props.t) (s : State.t) (value : string) : list Update :=
  (if endsWith value ".iso" then onDevice P s "cdrom" else []) ++
  [patch (State.set_file value)].

(** [case 'existingVolumeName'] *)
Definition onExistingVolumeName (s : State.t) (value : option string) : list Update :=
  [λ prevState,
     stateDelta ← existingVolumeNameDelta s value (State.storagePoolName prevState);
     Ok (stateDelta prevState)].

Definition isDisk (pool : Pool.t) : bool := bool_decide (Pool.type pool = "disk").

(** [case 'storagePoolName'] *)
Definition onStoragePoolName (s : State.t) (value : string) : result (list Update) :=
  let currentPool := poolOfVm s (Some value) in
  let prevPool := poolOfVm s (State.storagePoolName s) in
  current ← deref "type" currentPool;
  let q1 :=
    [patch (State.set_storagePoolName (Some value) ∘
            State.set_storagePoolType (Some (Pool.type current)))] in
  let q2 :=
    match currentPool, prevPool with
    | Some currentPool, Some prevPool =>
        if (isDisk currentPool && negb (isDisk prevPool)) ||
           (negb (isDisk currentPool) && isDisk prevPool)
        then onDefault (Key.format (getDefaultVolumeFormat (OfString value)))
        else []
    | _, _ => []
    end in
  if bool_decide (State.mode s = USE_EXISTING) then
    name ← getDefaultVolumeName s value;
    Ok (q1 ++ q2 ++ onExistingVolumeName s name)
  else Ok (q1 ++ q2).

(** [case 'mode'] *)
Definition onMode (P : Props.t) (s : State.t) (value : string) : list Update :=
  [λ prevState,
     let stateDelta : Delta := State.set_mode value ∘ initialState P in
     if bool_decide (value = USE_EXISTING) then
       let poolName := State.storagePoolName (stateDelta prevState) in
       match poolName with
       | Some name =>
           if truthy poolName then
             volume ← getDefaultVolumeName s name;
             delta ← existingVolumeNameDelta s volume (State.storagePoolName prevState);
             Ok (delta (stateDelta prevState))
           else Ok (stateDelta prevState)
       | None => Ok (stateDelta prevState)
       end
     else Ok (stateDelta prevState)].

(** The handler: the [setState] calls it queues, in order. *)
Definition onValueChanged (P : Props.t) (s : State.t) (key : Key.t) : result (list Update) :=
  match key with
  | Key.storagePoolName value => onStoragePoolName s value
  | Key.existingVolumeName value => Ok (onExistingVolumeName s value)
  | Key.mode value => Ok (onMode P s value)
  | Key.busType value => Ok (onBusType P value)
  | Key.file value => Ok (onFile P s value)
  | Key.device value => Ok (onDevice P s value)
  | _ => Ok (onDefault key)
  end.

(** The state after the event: the queue of the handler, flushed. *)
Definition valueChanged (P : Props.t) (s : State.t) (key : Key.t) : result State.t :=
  queue ← onValueChanged P s key;
  flush queue s.

(** *** [onAddClicked]

    What the promise chain of a submission keeps in its closure. *)
Inductive Pending : Type :=
| createPending (vm : VM.t)
| attachPending (vm : VM.t) (vms : list VM.t)
    (storagePool : option Pool.t) (volume : option Volume.t)
    (isVolumeUsed : option (gmap string (list string))).

(** One invocation: the [setState] calls queued, the external calls issued
    before it returns, and the promise chain left behind. *)
Record Clicked : Type := mkClicked {
  queued : list Update;
  issued : list ExtCall;
  pending : option Pending;
}.

(** [isVolumeUsed[name]]: an array, or [undefined]. *)
Definition usage (isVolumeUsed : gmap string (list string)) (name : option string)
    : option (list string) :=
  isVolumeUsed !! default "undefined" name.

Definition onAddClicked (P : Props.t) (s : State.t) : result Clicked :=
  let vm := State.vm s in
  let vms := State.vms s in
  validation ← validateParams P s;
  if bool_decide (0 < size validation)%nat then
    Ok {| queued := [patch (State.set_addDiskInProgress false ∘ State.set_validate true)];
          issued := [];
          pending := None |}
  else if bool_decide (State.mode s = CREATE_NEW) then
    Ok {| queued := [patch (State.set_addDiskInProgress true ∘ State.set_validate false)];
          issued :=
            [storageVolumeCreateAndAttach
               {| CreateArgs.connectionName := VM.connectionName vm;
                  CreateArgs.poolName := State.storagePoolName s;
                  CreateArgs.volumeName := State.volumeName s;
                  CreateArgs.size :=
                    convertToUnit (State.size s) (UnitName (State.unit s)) (UnitName "MiB");
                  CreateArgs.format := State.format s;
                  CreateArgs.target := State.target s;
                  CreateArgs.permanent := State.permanent s;
                  CreateArgs.hotplug := State.hotplug s;
                  CreateArgs.vmName := VM.name vm;
                  CreateArgs.vmId := VM.id vm;
                  CreateArgs.cacheMode := State.cacheMode s;
                  CreateArgs.busType := State.busType s |}];
          pending := Some (createPending vm) |}
  else
    '(storagePool, volume, isVolumeUsed) ←
      (if bool_decide (State.mode s = USE_EXISTING) then
         let storagePool := poolNamed s (State.storagePoolName s) in
         pool ← deref "volumes" storagePool;
         volumes ← deref "find" (Pool.volumes pool);
         let volume :=
           List.find (λ vol, str_eq (Volume.name vol) (State.existingVolumeName s))
             volumes in
         Ok (storagePool, volume, Some (getStorageVolumesUsage vms pool))
       else Ok (None, None, None));
    let shareable :=
      match volume, isVolumeUsed with
      | Some volume, Some isVolumeUsed =>
          bool_decide (Volume.format volume = Some "raw") &&
          bool_decide (is_Some (usage isVolumeUsed (State.existingVolumeName s)))
      | _, _ => false
      end in
    Ok {| queued := [];
          issued :=
            [domainAttachDisk
               {| AttachArgs.connectionName := VM.connectionName vm;
                  AttachArgs.type :=
                    if bool_decide (State.mode s = CUSTOM_PATH) then "file" else "volume";
                  AttachArgs.file := State.file s;
                  AttachArgs.device := State.device s;
                  AttachArgs.poolName := State.storagePoolName s;
                  AttachArgs.volumeName := State.existingVolumeName s;
                  AttachArgs.format :=
                    if bool_decide (State.mode s ≠ CUSTOM_PATH) then State.format s
                    else Some "raw";
                  AttachArgs.target := State.target s;
                  AttachArgs.permanent := State.permanent s;
                  AttachArgs.hotplug := State.hotplug s;
                  AttachArgs.vmName := VM.name vm;
                  AttachArgs.vmId := VM.id vm;
                  AttachArgs.cacheMode := State.cacheMode s;
                  AttachArgs.shareable := shareable;
                  AttachArgs.busType := State.busType s |}];
          pending := Some (attachPending vm vms storagePool volume isVolumeUsed) |}.

(** What a settled promise chain does besides [setState]. *)
Inductive Effect : Type :=
| call (c : ExtCall)
| close
| closeWhenSettled.     (* [Promise.all(promises).then(() => close())] *)

Definition closes (effects : list Effect) : bool :=
  existsb (λ e, match e with close => true | _ => false end) effects.

(** The [.then] callbacks; [now] is [this.state] when the promise is
    fulfilled. *)
Definition onFulfilled (p : Pending) (now : State.t) : result (list Effect) :=
  match p with
  | createPending vm =>
      Ok [close; call (domainGet (VM.connectionName vm) (VM.name vm) (VM.id vm))]
  | attachPending vm vms storagePool volume isVolumeUsed =>
      let reload := call (domainGet (VM.connectionName vm) (VM.name vm) (VM.id vm)) in
      if bool_decide (State.mode now ≠ CUSTOM_PATH) then
        volume ← deref "format" volume;
        if bool_decide (Volume.format volume = Some "raw") then
          isVolumeUsed ← deref (default "undefined" (State.existingVolumeName now)) isVolumeUsed;
          match usage isVolumeUsed (State.existingVolumeName now) with
          | Some vmNames =>
              promises ← mapM (λ vmName,
                let vm := List.find (λ vm, bool_decide (VM.name vm = vmName)) vms in
                let diskTarget :=
                  getStorageVolumeDiskTarget vm storagePool (State.existingVolumeName now) in
                vm ← deref "connectionName" vm;
                Ok (call (domainUpdateDiskAttributes (VM.connectionName vm) (VM.id vm)
                            false true diskTarget))) vmNames;
              Ok (promises ++ [closeWhenSettled; reload])
          | None => Ok [close; reload]
          end
        else Ok [close; reload]
      else Ok [close; reload]
  end.

(** The [.catch] callbacks, for a rejection with message [exc_message]:
    the [setState] calls queued and what else is done. *)
Definition onRejected (p : Pending) (exc_message : string) : list Update * list Effect :=
  match p with
  | createPending _ =>
      ([patch (State.set_addDiskInProgress false);
        dialogErrorSet (gettext "Disk failed to be created") exc_message], [])
  | attachPending _ _ _ _ _ =>
      ([patch (State.set_addDiskInProgress false);
        dialogErrorSet (gettext "Disk failed to be attached") exc_message], [])
  end.

(** *** [render]

    What [render] computes of the state: the validation shown, and the
    "Add" button. The rows of the use-existing tab read the selected pool
    and its volumes, and raise where these are missing. The in-place
    [sort] of [PoolRow] is stable and by name, so it leaves every [find] by
    name as it was; [VolumeCreateBody] and the [diskBusTypes] table of
    [AdditionalOptions] are not among the sources and are left out. *)
Record View : Type := mkView {
  validationFailed : gmap string string;
  selectedVolume : option string;     (* the value of the volume select *)
  usageWarning : option string;       (* the alert of [ChangeShareable] *)
  addIsLoading : bool;
  addIsDisabled : bool;
}.

Definition SelectExistingVolume (s : State.t) : result (option string) :=
  let vmStoragePool := poolNamed s (State.storagePoolName s) in
  filteredVolumes ← getFilteredVolumes vmStoragePool (VM.disks (State.vm s));
  Ok (if bool_decide (0 < length filteredVolumes)%nat
      then State.existingVolumeName s else Some "empty").

Definition joinNames (names : list string) : string :=
  match names with
  | [] => ""
  | n :: rest => foldl (λ acc x, acc +:+ ", " +:+ x) n rest
  end.

Definition ChangeShareable (s : State.t) : result (option string) :=
  let volumeName := State.existingVolumeName s in
  storagePool ← deref "volumes" (poolNamed s (State.storagePoolName s));
  let isVolumeUsed := getStorageVolumesUsage (State.vms s) storagePool in
  volumes ← deref "find" (Pool.volumes storagePool);
  let volume := List.find (λ vol, str_eq (Volume.name vol) volumeName) volumes in
  match usage isVolumeUsed volumeName with
  | None | Some [] => Ok None
  | Some names =>
      let vmsUsing := joinNames names +:+ "." in
      let text := gettext "This volume is already used by: " +:+ vmsUsing in
      volume ← deref "format" volume;
      Ok (Some (if bool_decide (Volume.format volume = Some "raw")
                then text +:+ gettext "Attaching it will make this disk shareable for every VM using it."
                else text))
  end.

(** [isDisabled] of the "Add" button. *)
Definition addDisabled (s : State.t) : bool :=
  State.addDiskInProgress s || State.dialogLoading s ||
  (bool_decide (length (State.storagePools s) = 0%nat) &&
   bool_decide (State.mode s ≠ CUSTOM_PATH)).

Definition render (P : Props.t) (s : State.t) : result View :=
  validationFailed ← (if State.validate s then validateParams P s else Ok ∅);
  '(selected, warning) ←
    (if State.dialogLoading s then Ok (None, None)
     else if bool_decide (State.mode s = USE_EXISTING) &&
             bool_decide (0 < length (State.storagePools s))%nat
     then
       selected ← SelectExistingVolume s;
       warning ← ChangeShareable s;
       Ok (selected, warning)
     else Ok (None, None));
  Ok {| validationFailed := validationFailed;
        selectedVolume := selected;
        usageWarning := warning;
        addIsLoading := State.addDiskInProgress s;
        addIsDisabled := addDisabled s |}.

(** The fields the form controls edit, and the data they are derived
    from: all of the state but the flags [validate], [addDiskInProgress],
    [dialogLoading] and the error shown. *)
Definition formFields (s : State.t) :=
  (State.storagePools s, State.vm s, State.vms s, State.file s, State.device s,
   State.storagePoolName s, State.storagePoolType s, State.mode s,
   State.volumeName s, State.existingVolumeName s, State.size s, State.unit s,
   State.format s, State.target s, State.permanent s, State.hotplug s,
   State.cacheMode s, State.busType s, State.updateDisks s).

(** *** The dialog over time

    The state, the promise chains of the submissions not yet settled, and
    whether the dialog is still shown. A step is an event whose handler
    runs to its end: a form control changes a value other than the mode, a
    click on "Add" when the button is rendered and enabled, or the
    rejection or fulfilment of a pending submission. A fulfilled
    submission calls [close] and the dialog is gone. *)
Record Dialog : Type := mkDialog {
  state : State.t;
  inFlight : list Pending;
  shown : bool;
}.

Inductive step : Dialog → Dialog → Prop :=
| step_change P d key s' :
    shown d = true →
    (∀ value, key ≠ Key.mode value) →
    valueChanged P (state d) key = Ok s' →
    step d (mkDialog s' (inFlight d) true)
| step_add P d view c s' :
    shown d = true →
    render P (state d) = Ok view →
    addIsDisabled view = false →
    onAddClicked P (state d) = Ok c →
    flush (queued c) (state d) = Ok s' →
    step d (mkDialog s' (inFlight d ++ option_list (pending c)) true)
| step_rejected d before p after exc_message s' :
    inFlight d = before ++ p :: after →
    flush (onRejected p exc_message).1 (state d) = Ok s' →
    step d (mkDialog s' (before ++ after) (shown d))
| step_fulfilled d before p after effects :
    inFlight d = before ++ p :: after →
    onFulfilled p (state d) = Ok effects →
    step d (mkDialog (state d) (before ++ after) (shown d && negb (closes effects))).

End AddDiskModalBody.
End AddDisk.

(** * The "Change boot order" dialog (bootOrder.jsx) *)

Module BootOrder.

(** A device of the list is a JavaScript object: a location of the heap.
    [indexOf] compares locations. *)
Abbreviation loc := positive.

Module Device.
Record t : Type := mk {
  type : string;
  bootOrder : option string;
  checked : bool;
}.
Definition set_checked (v : bool) (d : t) : t := mk (type d) (bootOrder d) v.
End Device.

(** An array of devices; [None] is an [undefined] element. *)
Abbreviation DeviceArray := (list (option loc)).

Module State.
Record t : Type := mk {
  devices : DeviceArray;
  dialogError : option string;
  dialogErrorDetail : option string;
}.
Definition set_devices (v : DeviceArray) (s : t) : t :=
  mk v (dialogError s) (dialogErrorDetail s).
Definition set_error (text detail : option string) (s : t) : t :=
  mk (devices s) text detail.
End State.

(** [devices.indexOf(device)], -1 when there is none. *)
Definition indexOf (devices : DeviceArray) (device : loc) : Z :=
  match list_find (λ x, x = Some device) devices with
  | Some (i, _) => Z.of_nat i
  | None => (-1)%Z
  end.

(** [devices[i]] *)
Definition get (devices : DeviceArray) (i : Z) : option loc :=
  if (i <? 0)%Z then None else mjoin (devices !! Z.to_nat i).

(** [devices[i] = v]. A negative [i] names a property that is no element:
    [[...this.state.devices]] does not copy it and nothing reads it. An
    index from the length on extends the array. *)
Definition set (devices : DeviceArray) (i : Z) (v : option loc) : DeviceArray :=
  if (i <? 0)%Z then devices
  else if (i <? Z.of_nat (length devices))%Z then <[Z.to_nat i := v]> devices
  else devices ++ replicate (Z.to_nat i - length devices) None ++ [v].

(** [moveUp] and [moveDown]: the array they hand to [setState]. *)
Definition move (direction : Z) (devices : DeviceArray) (device : loc) : DeviceArray :=
  let index := indexOf devices device in
  let tmp := get devices (index + direction) in
  let devices := set devices (index + direction) (get devices index) in
  let devices := set devices index tmp in
  devices.

Definition moveUp (s : State.t) (device : loc) : State.t :=
  let direction := (-1)%Z in
  State.set_devices (move direction (State.devices s) device) s.

Definition moveDown (s : State.t) (device : loc) : State.t :=
  let direction := 1%Z in
  State.set_devices (move direction (State.devices s) device) s.

(** [onToggleDevice] writes [checked] into the object itself. *)
Definition onToggleDevice (heap : gmap loc Device.t) (s : State.t) (device : loc)
    : result (gmap loc Device.t * State.t) :=
  let devices := State.devices s in
  l ← deref "checked" (get devices (indexOf devices device));
  d ← deref "checked" (heap !! l);
  Ok (<[l := Device.set_checked (negb (Device.checked d)) d]> heap,
      State.set_devices devices s).

(** [render]: the two arrow buttons of the row at [index]. *)
Definition upDisabled (heap : gmap loc Device.t) (s : State.t) (index : nat) : result bool :=
  if bool_decide (index = 0%nat) then Ok true
  else
    l ← deref "checked" (get (State.devices s) (Z.of_nat index));
    d ← deref "checked" (heap !! l);
    Ok (negb (Device.checked d)).

Definition downDisabled (heap : gmap loc Device.t) (s : State.t) (index : nat) : result bool :=
  let nextDevice := get (State.devices s) (Z.of_nat index + 1) in
  if bool_decide (index + 1 = length (State.devices s))%nat then Ok true
  else
    l ← deref "checked" nextDevice;
    d ← deref "checked" (heap !! l);
    Ok (negb (Device.checked d)).

(** [save]: the call it issues. The "Save" button carries no [isDisabled]
    and [save] sets no state. *)
Inductive ExtCall : Type :=
| domainChangeBootOrder (id connectionName : string) (devices : list loc)
| domainGet (connectionName id : string).

Definition save (vm : VM.t) (heap : gmap loc Device.t) (s : State.t)
    : result (State.t * list ExtCall) :=
  checked ← mapM (λ device,
      l ← deref "checked" device;
      d ← deref "checked" (heap !! l);
      Ok (l, Device.checked d)) (State.devices s);
  let devices := fst <$> List.filter snd checked in
  Ok (s, [domainChangeBootOrder (VM.id vm) (VM.connectionName vm) devices]).

(** Its [.then] callback reloads the machine and closes the dialog; its
    [.catch] callback shows the error. *)
Definition save_then (vm : VM.t) : list ExtCall :=
  [domainGet (VM.connectionName vm) (VM.id vm)].

Definition save_catch (text exc_message : string) (s : State.t) : State.t :=
  State.set_error (Some text) (Some exc_message) s.

End BootOrder.

(** * The "Delete storage pool" dialog *)

Module StoragePoolDelete.

Module Props.
Record t : Type := mk {
  storagePool : Pool.t;
  vms : list VM.t;
}.
End Props.

Module State.
Record t : Type := mk {
  dialogError : option string;
  dialogErrorDetail : option string;
  deleteVolumes : bool;
}.
End State.

Inductive ExtCall : Type :=
| storagePoolDeactivate (connectionName objPath : string)
| storagePoolUndefine (connectionName objPath : string)
| storageVolumeDelete (connectionName poolName volName : string).

(** The first call of [storagePoolDeactivateAndUndefine]. *)
Definition storagePoolDeactivateAndUndefine (storagePool : Pool.t) : ExtCall :=
  if Pool.active storagePool
  then storagePoolDeactivate (Pool.connectionName storagePool) (Pool.id storagePool)
  else storagePoolUndefine (Pool.connectionName storagePool) (Pool.id storagePool).

(** [delete]: the calls issued before it returns. It sets no state. *)
Definition delete (P : Props.t) (s : State.t) : result (list ExtCall) :=
  let storagePool := Props.storagePool P in
  let volumes := default [] (Pool.volumes storagePool) in
  if State.deleteVolumes s then
    vols ← deref "length" (Pool.volumes storagePool);
    if bool_decide (0 < length vols)%nat then
      Ok ((λ volume,
             storageVolumeDelete (Pool.connectionName storagePool)
               (Pool.name storagePool) (Volume.name volume)) <$> volumes)
    else Ok [storagePoolDeactivateAndUndefine storagePool]
  else Ok [storagePoolDeactivateAndUndefine storagePool].

Section Render.
Context `{ext : Externals}.

(** [disks.some(disk => disk.source.pool === pool.name)] *)
Fixpoint someUsesPool (pool : Pool.t) (disks : list Disk.t) : result bool :=
  match disks with
  | [] => Ok false
  | disk :: disks' =>
      match deref "pool" (Disk.source disk) with
      | Ok source =>
          if str_eq (Pool.name pool) (Source.pool source) then Ok true
          else someUsesPool pool disks'
      | Throw e => Throw e
      end
  end.

Fixpoint canDelete (pool : Pool.t) (vms : list VM.t) : result bool :=
  match vms with
  | [] => Ok true
  | vm :: vms' =>
      match someUsesPool pool (values (VM.disks vm)) with
      | Ok used => if used then Ok false else canDelete pool vms'
      | Throw e => Throw e
      end
  end.

Definition canDeleteOnlyWithoutVolumes (pool : Pool.t) (vms : list VM.t) : result bool :=
  ok ← canDelete pool vms;
  if negb ok then Ok false
  else
    let isVolumeUsed := getStorageVolumesUsage vms pool in
    Ok (existsb (λ kv, bool_decide (0 < length kv.2)%nat) (map_to_list isVolumeUsed)).

(** [isDisabled] of the "Delete" button. *)
Definition deleteDisabled (P : Props.t) (s : State.t) : result bool :=
  only ← canDeleteOnlyWithoutVolumes (Props.storagePool P) (Props.vms P);
  Ok (only && State.deleteVolumes s).
End Render.

End StoragePoolDelete.

(** * A concrete environment

    The imported helpers are not among the sources; the theorems below hold
    for every [Externals]. To run the handlers on concrete dialogs the
    instance [Sample.ext] fixes one implementation of each helper: pools of
    type [disk] default to the format [none], the file based ones
    ([dir], [fs], [netfs], [gluster], [vstorage]) to [qcow2]; targets are
    [vda], [vdb], ... on the virtio bus and [sda], [sdb], ... elsewhere; units
    are powers of 1024; strings compare by their characters. *)

Module Sample.

Definition gettext (msgid : string) : string := msgid.

(** [$0] stands for the first argument, [$1] for the second. *)
Fixpoint cockpit_format (fmt : string) (args : list string) : string :=
  match fmt with
  | String "$"%char (String "0"%char rest) => nth 0 args "" +:+ cockpit_format rest args
  | String "$"%char (String "1"%char rest) => nth 1 args "" +:+ cockpit_format rest args
  | String c rest => String c (cockpit_format rest args)
  | EmptyString => EmptyString
  end.

Definition localeCompare (a b : string) : Z :=
  match String.compare a b with
  | Lt => (-1)%Z
  | Eq => 0%Z
  | Gt => 1%Z
  end.

Definition parseFloat (x : float) : float := x.

Definition base1024Exponent (u : UnitArg) : nat :=
  match u with
  | units_B => 0
  | UnitName "KiB" => 1
  | UnitName "MiB" => 2
  | UnitName "GiB" => 3
  | UnitName "TiB" => 4
  | UnitName _ => 0
  end.

Fixpoint pow1024 (n : nat) : float :=
  match n with
  | O => 1%float
  | S n => (1024 * pow1024 n)%float
  end.

Definition convertToUnit (input : float) (inputUnit outputUnit : UnitArg) : float :=
  let i := base1024Exponent inputUnit in
  let o := base1024Exponent outputUnit in
  if bool_decide (i < o)%nat then (input / pow1024 (o - i))%float
  else (input * pow1024 (i - o))%float.

(** [Math.floor] of a finite number that is not negative. *)
Definition floor (x : float) : Z :=
  match Prim2SF x with
  | S754_finite false m e =>
      if (0 <=? e)%Z then (Z.pos m * 2 ^ e)%Z else (Z.pos m / 2 ^ (- e))%Z
  | _ => 0%Z
  end.

Fixpoint pow10 (n : nat) : float :=
  match n with
  | O => 1%float
  | S n => (10 * pow10 n)%float
  end.

(** [x.toFixed(digits)] for such a number: the scaled number rounded to the
    nearest integer, printed with the point [digits] places from the right. *)
Definition toFixed (x : float) (digits : nat) : string :=
  let n := floor (x * pow10 digits + 0.5)%float in
  let scale := (10 ^ Z.of_nat digits)%Z in
  let fraction := pretty (n mod scale)%Z in
  if bool_decide (digits = 0%nat) then pretty n
  else pretty (n / scale)%Z +:+ "." +:+
       String.concat "" (replicate (digits - String.length fraction) "0") +:+ fraction.

Definition fileBased : list string := ["dir"; "fs"; "netfs"; "gluster"; "vstorage"].

Definition getDefaultVolumeFormat (a : FormatArg) : option string :=
  let type :=
    match a with
    | OfPool pool => Some (Pool.type pool)
    | OfNameType _ type => Some type
    | OfString _ => None          (* a string has no [type] *)
    end in
  match type with
  | Some t =>
      if bool_decide (t = "disk") then Some "none"
      else if bool_decide (t ∈ fileBased) then Some "qcow2"
      else None
  | None => None
  end.

Definition letters : list string :=
  ["a"; "b"; "c"; "d"; "e"; "f"; "g"; "h"; "i"; "j"; "k"; "l"; "m";
   "n"; "o"; "p"; "q"; "r"; "s"; "t"; "u"; "v"; "w"; "x"; "y"; "z"].

Definition getNextAvailableTarget (existingTargets : list string) (busType : string)
    : option string :=
  let prefix := if bool_decide (busType = "virtio") then "vd" else "sd" in
  List.find (λ target, negb (bool_decide (target ∈ existingTargets)))
    ((λ l, prefix +:+ l) <$> letters).

Definition usesVolume (pool : Pool.t) (volume : string) (disk : Disk.t) : bool :=
  match Disk.source disk with
  | Some source =>
      str_eq volume (Source.volume source) && str_eq (Pool.name pool) (Source.pool source)
  | None => false
  end.

Definition getStorageVolumesUsage (vms : list VM.t) (pool : Pool.t)
    : gmap string (list string) :=
  list_to_map
    ((λ volume,
        (Volume.name volume,
         VM.name <$>
           List.filter (λ vm,
             bool_decide (VM.connectionName vm = Pool.connectionName pool) &&
             existsb (usesVolume pool (Volume.name volume)) (values (VM.disks vm))) vms))
       <$> default [] (Pool.volumes pool)).

Definition getStorageVolumeDiskTarget (vm : option VM.t) (pool : option Pool.t)
    (volume : option string) : option string :=
  match vm, pool, volume with
  | Some vm, Some pool, Some volume =>
      fst <$> List.find (λ kv, usesVolume pool volume kv.2) (VM.disks vm)
  | _, _, _ => None
  end.

Definition domainIsRunning (state : string) : bool :=
  bool_decide (state = "running").

Definition ext : Externals :=
  Build_Externals gettext cockpit_format localeCompare parseFloat toFixed "GiB"
    convertToUnit getDefaultVolumeFormat getNextAvailableTarget
    getStorageVolumesUsage getStorageVolumeDiskTarget domainIsRunning.

End Sample.

(** * Concrete dialogs

    A virtual machine with a CD drive on the SATA bus, two storage pools of
    type [dir] on its connection, and the dialogs opened on them. *)

Module Scenario.
Import AddDisk.
#[local] Existing Instance Sample.ext.

Definition a_img : Volume.t := Volume.mk "a.img" "/var/lib/libvirt/images/a.img" (Some "raw").
Definition b_img : Volume.t := Volume.mk "b.img" "/var/lib/libvirt/images/b.img" (Some "qcow2").

(** 10 GiB each. *)
Definition default_pool : Pool.t :=
  Pool.mk "default" "dir" "system" "/org/libvirt/pool/default" 10737418240%float
    true true (Some [b_img; a_img]).
Definition images_pool : Pool.t :=
  Pool.mk "images" "dir" "system" "/org/libvirt/pool/images" 10737418240%float
    true true (Some []).

Definition cdrom : Disk.t :=
  Disk.mk "cdrom" (Some "sata") (Some (Source.mk (Some "/srv/install.iso") None None)).

Definition vm1 : VM.t :=
  VM.mk "vm1" "/org/libvirt/domain/vm1" "system" "shut off" true [("sda", cdrom)].

Definition props : Props.t := Props.mk [images_pool; default_pool] vm1 [vm1].

(** The same machine when no storage pool is active. *)
Definition props_no_pool : Props.t := Props.mk [] vm1 [vm1].

(** The state of the constructor; [initialState] overwrites all of it but
    the flags and the error. *)
Definition constructed : State.t :=
  State.mk [] vm1 [] "" "" None None "" None None 0%float "" None None
    false false false "" "" false false true None None.

(** The dialog as it opens. *)
Definition opened : State.t :=
  initialState props (State.set_dialogLoading false constructed).

Definition opened_no_pool : State.t :=
  initialState props_no_pool (State.set_dialogLoading false constructed).

(** The user has typed a name for the new volume. *)
Definition named : State.t := State.set_volumeName (Some "data") opened.


(** ... and asks for 11 GiB. *)
Definition too_large : State.t := State.set_size 11%float named.

(** The user has picked the format [raw] for the new volume. *)
Definition raw_chosen : State.t := State.set_format (Some "raw") named.

(** The use-existing tab, as the switch of the mode leaves it. *)
Definition existing : State.t :=
  State.set_format (Some "raw")
    (State.set_existingVolumeName (Some "a.img") (State.set_mode USE_EXISTING opened)).

(** The custom-path tab, with a path typed in. *)
Definition custom : State.t :=
  State.set_file "/srv/data.img" (State.set_mode CUSTOM_PATH opened).

(** A machine without any disk, and its dialog. *)
Definition vm0 : VM.t :=
  VM.mk "vm0" "/org/libvirt/domain/vm0" "system" "shut off" true [].
Definition props0 : Props.t := Props.mk [images_pool; default_pool] vm0 [vm0; vm1].
Definition opened0 : State.t :=
  initialState props0 (State.set_dialogLoading false constructed).

(** What a click on "Add" returns, where it does not raise. *)
Definition clicked (P : Props.t) (s : State.t) : Clicked :=
  match onAddClicked P s with
  | Ok c => c
  | Throw _ => mkClicked [] [] None
  end.

(** The create-new dialog before and after the click on "Add". *)
Definition ready : Dialog := mkDialog named [] true.
Definition submitted : Dialog :=
  mkDialog (State.set_addDiskInProgress true (State.set_validate false named))
    [createPending vm1] true.

(** The custom-path dialog before the click on "Add", after it, and after
    a second click. *)
Definition custom_ready : Dialog := mkDialog custom [] true.
Definition custom_once : Dialog :=
  mkDialog custom [attachPending vm1 [vm1] None None None] true.
Definition custom_twice : Dialog :=
  mkDialog custom
    [attachPending vm1 [vm1] None None None; attachPending vm1 [vm1] None None None] true.

(** The deletion dialog of the pool [default], "Delete the volumes inside
    this pool" ticked. *)
Definition delete_props : StoragePoolDelete.Props.t :=
  StoragePoolDelete.Props.mk default_pool [vm1].
Definition delete_with_volumes : StoragePoolDelete.State.t :=
  StoragePoolDelete.State.mk None None true.

(** The boot-order dialog of a machine with three bootable devices. *)
Definition boot_heap : gmap BootOrder.loc BootOrder.Device.t :=
  list_to_map
    [(1%positive, BootOrder.Device.mk "disk" (Some "1") true);
     (2%positive, BootOrder.Device.mk "network" (Some "2") true);
     (3%positive, BootOrder.Device.mk "disk" None false)].
Definition boot_devices : list BootOrder.loc := [1%positive; 2%positive; 3%positive].
Definition boot_order : BootOrder.State.t :=
  BootOrder.State.mk (Some <$> boot_devices) None None.

End Scenario.

(** * The rows and selects of the "Add disk" dialog (diskAdd.jsx)

    What the function components of diskAdd.jsx compute from their props:
    the values and options they hand to the form controls. *)

Module AddDiskRows.
Import AddDisk.

(** The [FormSelect] of [PoolRow]. An option is its value and its
    [isDisabled] (an [undefined] one stands for [false]). *)
Record PoolSelect : Type := mkPoolSelect {
  validated : string;
  isDisabled : bool;
  value : string;
  options : list (string * bool);
}.

(** The [FormSelect] of [SelectExistingVolume]. *)
Record VolumeSelect : Type := mkVolumeSelect {
  volumeValue : option string;
  volumeIsDisabled : bool;
  volumeOptions : list string;
}.

(** [AdditionalOptions.render]: the options of the bus select. The table
    [diskBusTypes] of helpers.js is an argument; a device it does not list
    gives [undefined]. *)
Definition displayBusTypes (diskBusTypes : string → option (list string))
    (supportedDiskBusTypes : list string) (device busType : string)
    : result (list (string * bool)) :=
  types ← deref "filter" (diskBusTypes device);
  let displayBusTypes :=
    (λ type, (type, false)) <$>
      List.filter (λ bus, bool_decide (bus ∈ supportedDiskBusTypes)) types in
  Ok (match List.find (λ busType', bool_decide (busType'.1 = busType)) displayBusTypes with
      | Some _ => displayBusTypes
      | None => displayBusTypes ++ [(busType, true)]
      end).

Section Rows.
Context `{ext : Externals}.

(** [PoolRow], given the pools with their [disabled] mark. *)
Definition PoolRow (storagePoolName : option string)
    (validationFailed : gmap string string)
    (vmStoragePools : list (Pool.t * bool)) : PoolSelect :=
  let validationStatePool :=
    if truthy (validationFailed !! "storagePool") then "error" else "default" in
  {| validated := validationStatePool;
     isDisabled :=
       bool_decide (length vmStoragePools = 0%nat) ||
       negb (forallb (λ pool, bool_decide (is_Some (Pool.volumes pool.1))) vmStoragePools);
     value := default "no-resource" (js_or storagePoolName (Some "no-resource"));
     options :=
       if bool_decide (0 < length vmStoragePools)%nat then
         (λ pool, (Pool.name pool.1, pool.2)) <$>
           sort (λ a b, localeCompare (Pool.name a.1) (Pool.name b.1)) vmStoragePools
       else [("no-resource", false)] |}.

(** The pools [CreateNewDisk] and [UseExistingDisk] hand to [PoolRow]. *)
Definition createNewPools (vmStoragePools : list Pool.t) : list (Pool.t * bool) :=
  (λ pool, (pool, includes (Some <$> poolTypesNotSupportingVolumeCreation)
                    (Some (Pool.type pool)))) <$> vmStoragePools.

Definition useExistingPools (vmStoragePools : list Pool.t) : list (Pool.t * bool) :=
  (λ pool, (pool, false)) <$> vmStoragePools.

(** [SelectExistingVolume], given the pools and disks of the state. *)
Definition selectExistingVolume (storagePoolName existingVolumeName : option string)
    (vmStoragePools : list Pool.t) (vmDisks : list (string * Disk.t)) : result VolumeSelect :=
  let vmStoragePool :=
    List.find (λ pool, str_eq (Pool.name pool) storagePoolName) vmStoragePools in
  filteredVolumes ← getFilteredVolumes vmStoragePool vmDisks;
  Ok (if bool_decide (0 < length filteredVolumes)%nat
      then {| volumeValue := existingVolumeName;
              volumeIsDisabled := false;
              volumeOptions := Volume.name <$> filteredVolumes |}
      else {| volumeValue := Some "empty";
              volumeIsDisabled := true;
              volumeOptions := ["empty"] |}).

End Rows.
End AddDiskRows.

(** * The promise chain of the "Delete storage pool" dialog

    [delete] leaves a chain of promises behind: the deletions of the
    volumes under [Promise.all], then [storagePoolDeactivate] for an active
    pool, then [storagePoolUndefine]. A rejection anywhere ends the chain in
    [dialogErrorSet]; the fulfilment of the last call ends it in a callback
    that returns [this.props.close] without calling it. *)

Module StoragePoolDeleteRun.
Import StoragePoolDelete.

(** Where the chain stands: so many volume deletions are still awaited, or
    the deactivation, or the undefinition. *)
Inductive Pending : Type :=
| volumeDeletions (awaited : nat)
| deactivation
| undefinition.

Inductive Outcome : Type :=
| fulfilled
| rejected (exc_message : string).

(** The dialog while it runs: its state, the chain, the calls issued so
    far in their order, and whether [close] has been called. *)
Record Run : Type := mkRun {
  state : State.t;
  pending : option Pending;
  issued : list ExtCall;
  closed : bool;
}.

Definition dialogErrorSet (text detail : string) (s : State.t) : State.t :=
  State.mk (Some text) (Some detail) (State.deleteVolumes s).

(** What is awaited after the first call of
    [storagePoolDeactivateAndUndefine]. *)
Definition afterFirstCall (storagePool : Pool.t) : Pending :=
  if Pool.active storagePool then deactivation else undefinition.

Section Chain.
Context `{ext : Externals}.

(** The click on "Delete". *)
Definition start (P : Props.t) (s : State.t) : result Run :=
  calls ← delete P s;
  let storagePool := Props.storagePool P in
  let ticked :=
    State.deleteVolumes s &&
    bool_decide (0 < length (default [] (Pool.volumes storagePool)))%nat in
  Ok {| state := s;
        pending :=
          Some (if ticked
                then volumeDeletions (length (default [] (Pool.volumes storagePool)))
                else afterFirstCall storagePool);
        issued := calls;
        closed := false |}.

(** One of the calls in flight settles. *)
Definition settle (P : Props.t) (r : Run) (outcome : Outcome) : Run :=
  let storagePool := Props.storagePool P in
  match pending r, outcome with
  | None, _ => r
  | Some _, rejected exc_message =>
      {| state := dialogErrorSet (gettext "The storage pool could not be deleted")
                    exc_message (state r);
         pending := None;
         issued := issued r;
         closed := closed r |}
  | Some (volumeDeletions awaited), fulfilled =>
      if bool_decide (awaited ≤ 1)%nat then
        {| state := state r;
           pending := Some (afterFirstCall storagePool);
           issued := issued r ++ [storagePoolDeactivateAndUndefine storagePool];
           closed := closed r |}
      else
        {| state := state r;
           pending := Some (volumeDeletions (awaited - 1));
           issued := issued r;
           closed := closed r |}
  | Some deactivation, fulfilled =>
      {| state := state r;
         pending := Some undefinition;
         issued := issued r ++
                   [storagePoolUndefine (Pool.connectionName storagePool) (Pool.id storagePool)];
         closed := closed r |}
  | Some undefinition, fulfilled =>
      {| state := state r; pending := None; issued := issued r; closed := closed r |}
  end.

Definition settleAll (P : Props.t) (r : Run) (outcomes : list Outcome) : Run :=
  foldl (settle P) r outcomes.

End Chain.
End StoragePoolDeleteRun.

(** * The "Change boot order" dialog over time

    The objects of the devices and the state of the dialog, and the events
    the rendered dialog offers: a click on the row at [index], which
    toggles its device, and a click on one of its two arrows where
    [render] has not disabled it. *)

Module BootOrderRun.
Import BootOrder.

Record Dialog : Type := mkDialog {
  heap : gmap loc Device.t;
  state : State.t;
}.

Inductive step : Dialog → Dialog → Prop :=
| step_toggle d index device heap' s' :
    get (State.devices (state d)) (Z.of_nat index) = Some device →
    onToggleDevice (heap d) (state d) device = Ok (heap', s') →
    step d (mkDialog heap' s')
| step_up d index device :
    get (State.devices (state d)) (Z.of_nat index) = Some device →
    upDisabled (heap d) (state d) index = Ok false →
    step d (mkDialog (heap d) (moveUp (state d) device))
| step_down d index device :
    get (State.devices (state d)) (Z.of_nat index) = Some device →
    downDisabled (heap d) (state d) index = Ok false →
    step d (mkDialog (heap d) (moveDown (state d) device)).

End BootOrderRun.

(** * The "Delete" action of a storage pool

    [StoragePoolDeleteAction]: whether the menu item is offered, that is,
    rendered with [onClick] and without [isAriaDisabled]. The text of the
    tooltip of a disabled item lists the machines in the enumeration order
    of the usage table and is left out. *)

Module StoragePoolDeleteMenu.
Import StoragePoolDelete.

Section Action.
Context `{ext : Externals}.

Definition StoragePoolDeleteAction (storagePool : Pool.t) (vms : list VM.t) : result bool :=
  deletable ← canDelete storagePool vms;
  deletable' ← canDelete storagePool vms;
  Ok (negb (negb deletable' || negb (Pool.persistent storagePool))).

End Action.
End StoragePoolDeleteMenu.

(** * The "Persistence" row of the "Add disk" dialog

    [PermanentChange] returns [null] for a machine that is not running;
    otherwise it shows the checkbox "Always attach", whose state is
    [permanent] and whose changes go to [onValueChanged('permanent', _)].
    [render] shows the row for a persistent machine only. *)

Module AddDiskPersistence.
Import AddDisk.

Section Persistence.
Context `{ext : Externals}.

(** The checkbox, where there is one: its [isChecked]. *)
Definition PermanentChange (permanent : bool) (vm : VM.t) : option bool :=
  if negb (domainIsRunning (VM.state vm)) then None else Some permanent.

(** [{vm.persistent && <PermanentChange ... />}] in [render]. *)
Definition persistenceRow (s : State.t) : option bool :=
  if VM.persistent (State.vm s)
  then PermanentChange (State.permanent s) (State.vm s)
  else None.

(** [permanent] and [hotplug] as a call of [onAddClicked] carries them. *)
Definition persistenceOf (c : ExtCall) : option (bool * bool) :=
  match c with
  | storageVolumeCreateAndAttach args =>
      Some (CreateArgs.permanent args, CreateArgs.hotplug args)
  | domainAttachDisk args =>
      Some (AttachArgs.permanent args, AttachArgs.hotplug args)
  | _ => None
  end.

End Persistence.
End AddDiskPersistence.

(** * More concrete dialogs

    A second machine, running, whose disk is the volume [a.img] of the pool
    [default]; a table in the shape of [diskBusTypes]; the boot-order
    dialog with its objects; and the deletion of the pool [default] with
    its two volumes. *)

Module MoreScenario.
Import AddDisk Scenario.
#[local] Existing Instance Sample.ext.

Definition data_disk : Disk.t :=
  Disk.mk "disk" (Some "virtio") (Some (Source.mk None (Some "a.img") (Some "default"))).

Definition vm2 : VM.t :=
  VM.mk "vm2" "/org/libvirt/domain/vm2" "system" "running" true [("vda", data_disk)].

Definition busTable (device : string) : option (list string) :=
  if bool_decide (device = "cdrom") then Some ["sata"; "scsi"; "usb"]
  else if bool_decide (device = "disk") then Some ["sata"; "scsi"; "usb"; "virtio"]
  else None.

Definition supportedBuses : list string := ["sata"; "scsi"; "virtio"].

(** The create-new dialog while its submission is in flight. *)
Definition busy : State.t :=
  State.set_addDiskInProgress true (State.set_validate false named).

(** The custom-path dialog after a submission was rejected. *)
Definition rejected_once : State.t :=
  State.set_dialogError (Some "Disk failed to be attached")
    (State.set_dialogErrorDetail (Some "no such file") custom).

(** The submission of the volume [a.img], which [vm2] uses already, and
    what its fulfilment does. *)
Definition shared_pending : Pending :=
  attachPending vm1 [vm1; vm2] (Some default_pool) (Some a_img)
    (Some (getStorageVolumesUsage [vm1; vm2] default_pool)).

Definition shared_effects : list Effect :=
  [call (domainUpdateDiskAttributes "system" "/org/libvirt/domain/vm2" false true (Some "vda"));
   closeWhenSettled;
   call (domainGet "system" "vm1" "/org/libvirt/domain/vm1")].

(** The dialog of [vm1] when the props list both machines, on the
    use-existing tab with the volume [a.img] chosen, and the arguments of
    the call its submission issues. *)
Definition props_shared : Props.t := Props.mk [images_pool; default_pool] vm1 [vm1; vm2].

Definition existing_shared : State.t :=
  State.set_format (Some "raw")
    (State.set_existingVolumeName (Some "a.img")
       (State.set_mode USE_EXISTING
          (initialState props_shared (State.set_dialogLoading false constructed)))).

Definition shared_args : AttachArgs.t :=
  {| AttachArgs.connectionName := "system";
     AttachArgs.type := "volume";
     AttachArgs.file := "";
     AttachArgs.device := "disk";
     AttachArgs.poolName := Some "default";
     AttachArgs.volumeName := Some "a.img";
     AttachArgs.format := Some "raw";
     AttachArgs.target := Some "vda";
     AttachArgs.permanent := true;
     AttachArgs.hotplug := false;
     AttachArgs.vmName := "vm1";
     AttachArgs.vmId := "/org/libvirt/domain/vm1";
     AttachArgs.cacheMode := "default";
     AttachArgs.shareable := true;
     AttachArgs.busType := "virtio" |}.

Definition boot_dialog : BootOrderRun.Dialog :=
  BootOrderRun.mkDialog boot_heap boot_order.

Definition boot_moved : BootOrderRun.Dialog :=
  BootOrderRun.mkDialog boot_heap (BootOrder.moveUp boot_order 2%positive).

Definition delete_calls : list StoragePoolDelete.ExtCall :=
  [StoragePoolDelete.storageVolumeDelete "system" "default" "b.img";
   StoragePoolDelete.storageVolumeDelete "system" "default" "a.img"].

Definition delete_run : StoragePoolDeleteRun.Run :=
  StoragePoolDeleteRun.mkRun delete_with_volumes
    (Some (StoragePoolDeleteRun.volumeDeletions 2)) delete_calls false.

End MoreScenario.

(** * Properties of the "Add disk" dialog *)

Module AddDiskFacts.
Import AddDisk.

Section Facts.
Context `{ext : Externals}.

Lemma flush_patch (d : Delta) (queue : list Update) (s : State.t) :
  flush (patch d :: queue) s = flush queue (d s).
Proof. reflexivity. Qed.

Lemma flush_app (q1 q2 : list Update) (s s1 : State.t) :
  flush q1 s = Ok s1 → flush (q1 ++ q2) s = flush q2 s1.
Proof.
  revert s. induction q1 as [|u q1 IH]; intros s H; simpl in *.
  - by inversion H.
  - destruct (u s) as [s'|e]; simpl in *; [by apply IH | discriminate].
Qed.

Lemma size_pos_non_empty (m : gmap string string) :
  bool_decide (0 < size m)%nat = bool_decide (m ≠ ∅).
Proof.
  apply bool_decide_ext. rewrite <- map_size_non_empty_iff. lia.
Qed.

(** ** Submission with invalid parameters *)

(** A submission the validation refuses: nothing is issued, nothing is
    left pending, and the two flags are set. *)
Lemma onAddClicked_refused (P : Props.t) (s : State.t) (validation : gmap string string) :
  validateParams P s = Ok validation →
  validation ≠ ∅ →
  onAddClicked P s =
    Ok {| queued := [patch (State.set_addDiskInProgress false ∘ State.set_validate true)];
          issued := [];
          pending := None |}.
Proof.
  intros Hv Hne. unfold onAddClicked. rewrite Hv. simpl.
  by rewrite size_pos_non_empty, bool_decide_true.
Qed.

(** C2. When [validateParams] returns a non-empty mapping, [onAddClicked]
    issues no external call and leaves no promise behind; the state it
    yields is the old one with [addDiskInProgress] set to [false] and
    [validate] set to [true]: every form field is as it was. *)
Theorem onAddClicked_invalid (P : Props.t) (s : State.t) (validation : gmap string string) :
  validateParams P s = Ok validation →
  validation ≠ ∅ →
  ∃ c s',
    onAddClicked P s = Ok c ∧
    issued c = [] ∧ pending c = None ∧
    flush (queued c) s = Ok s' ∧
    s' = State.set_addDiskInProgress false (State.set_validate true s) ∧
    formFields s' = formFields s ∧
    State.dialogLoading s' = State.dialogLoading s ∧
    State.dialogError s' = State.dialogError s ∧
    State.dialogErrorDetail s' = State.dialogErrorDetail s.
Proof.
  intros Hv Hne. rewrite (onAddClicked_refused P s validation Hv Hne).
  eexists _, _. repeat split; reflexivity.
Qed.

(** ** Validation *)

Lemma find_name_undefined (pools : list Pool.t) :
  List.find (λ pool, str_eq (Pool.name pool) None) pools = None.
Proof. induction pools as [|pool pools IH]; [done | simpl; by rewrite IH]. Qed.

(** C3, as the code has it in create-new mode. With no pool selected the
    lookup of line 368 finds nothing and reading [capacity] of the
    [undefined] result raises: [validateParams] returns no mapping. *)
Theorem validateParams_createNew_unset_raises (P : Props.t) (s : State.t) :
  State.mode s = CREATE_NEW →
  State.storagePoolName s = None →
  validateParams P s =
    Throw (TypeError "Cannot read properties of undefined (reading 'capacity')").
Proof.
  intros Hmode Hpool. unfold validateParams.
  rewrite (bool_decide_true (State.mode s = CREATE_NEW)) by done.
  rewrite Hpool, find_name_undefined. reflexivity.
Qed.

(** The use-existing half of the same sentence holds. *)
Lemma validateParams_useExisting_unset (P : Props.t) (s : State.t) :
  State.mode s = USE_EXISTING →
  State.storagePoolName s = None →
  ∃ validation,
    validateParams P s = Ok validation ∧
    validation !! "storagePool" = Some (gettext "Please choose a storage pool").
Proof.
  intros Hmode Hpool. unfold validateParams. rewrite Hmode, Hpool. simpl.
  destruct (truthy (State.existingVolumeName s)); simpl;
    (eexists; split; [reflexivity|]).
  - apply lookup_insert_eq.
  - rewrite lookup_insert_ne by done. apply lookup_insert_eq.
Qed.

(** C4. In create-new mode, when the size asked for exceeds the capacity
    of the selected pool converted to the selected unit, the mapping
    [validateParams] returns has a [size] entry, and [onAddClicked] issues
    no call. *)
Theorem validateParams_size_exceeds_capacity (P : Props.t) (s : State.t) (pool : Pool.t) :
  State.mode s = CREATE_NEW →
  List.find (λ pool, str_eq (Pool.name pool) (State.storagePoolName s))
    (Props.storagePools P) = Some pool →
  PrimFloat.ltb (poolCapacity pool (State.unit s)) (State.size s) = true →
  ∃ validation c,
    validateParams P s = Ok validation ∧
    validation !! "size" =
      Some (cockpit_format
              (gettext "Storage volume size must not exceed the storage pool's capacity ($0 $1)")
              [toFixed (poolCapacity pool (State.unit s)) 2; State.unit s]) ∧
    onAddClicked P s = Ok c ∧ issued c = [] ∧ pending c = None.
Proof.
  intros Hmode Hfind Hgt.
  assert (∃ validation, validateParams P s = Ok validation ∧
    validation !! "size" =
      Some (cockpit_format
              (gettext "Storage volume size must not exceed the storage pool's capacity ($0 $1)")
              [toFixed (poolCapacity pool (State.unit s)) 2; State.unit s]))
    as (validation & Hv & Hsize).
  { unfold validateParams.
    rewrite (bool_decide_true (State.mode s = CREATE_NEW)) by done.
    rewrite Hfind. simpl. rewrite Hgt.
    eexists; split; [reflexivity | apply lookup_insert_eq]. }
  eexists validation, _. split; [done|]. split; [done|].
  rewrite (onAddClicked_refused P s validation Hv); [done|].
  intros ->. by rewrite lookup_empty in Hsize.
Qed.

(** ** Rejection *)

(** C8. When the attach/create call of a submission is rejected with a
    message, the [.catch] callback yields a state whose
    [addDiskInProgress] is [false] and whose error detail is the message
    (under the title of the failed operation); it issues no call and does
    nothing else, and every form field is as it was. *)
Theorem onRejected_reenables_form (p : Pending) (exc_message : string) (s : State.t) :
  ∃ s',
    flush (onRejected p exc_message).1 s = Ok s' ∧
    (onRejected p exc_message).2 = [] ∧
    State.addDiskInProgress s' = false ∧
    State.dialogErrorDetail s' = Some exc_message ∧
    State.dialogError s' =
      Some (gettext match p with
                    | createPending _ => "Disk failed to be created"
                    | attachPending _ _ _ _ _ => "Disk failed to be attached"
                    end) ∧
    formFields s' = formFields s ∧
    State.validate s' = State.validate s ∧
    State.dialogLoading s' = State.dialogLoading s.
Proof. destruct p; eexists; repeat split; reflexivity. Qed.

(** ** Submission with valid parameters *)

(** The "Add" button of the use-existing tab is rendered enabled only
    when the selected pool is among the pools of the state and its
    volumes are known: the volume select has read them. *)
Lemma render_useExisting_pool (P : Props.t) (s : State.t) (view : View) :
  render P s = Ok view →
  addIsDisabled view = false →
  State.mode s = USE_EXISTING →
  ∃ pool volumes,
    poolNamed s (State.storagePoolName s) = Some pool ∧
    Pool.volumes pool = Some volumes.
Proof.
  unfold render. intros Hrender Hdisabled Hmode.
  destruct (if State.validate s then _ else _) as [validation|]; [simpl in Hrender | done].
  destruct (State.dialogLoading s) eqn:Hloading.
  { simpl in Hrender. inversion Hrender; subst view. simpl in Hdisabled.
    unfold addDisabled in Hdisabled. rewrite Hloading in Hdisabled.
    by rewrite orb_true_r in Hdisabled. }
  rewrite (bool_decide_true (State.mode s = USE_EXISTING)) in Hrender by done.
  destruct (bool_decide (0 < length (State.storagePools s))%nat) eqn:Hlen.
  2: { simpl in Hrender. inversion Hrender; subst view. simpl in Hdisabled.
       unfold addDisabled in Hdisabled. apply bool_decide_eq_false in Hlen.
       rewrite (bool_decide_true (length _ = 0%nat)) in Hdisabled by lia.
       rewrite Hmode in Hdisabled. simpl in Hdisabled.
       by rewrite orb_true_r in Hdisabled. }
  simpl in Hrender. unfold SelectExistingVolume, getFilteredVolumes in Hrender.
  destruct (poolNamed s _) as [pool|]; [|done].
  simpl in Hrender.
  destruct (Pool.volumes pool) as [volumes|] eqn:Hvolumes; [|done].
  by exists pool, volumes.
Qed.

(** The submission proper: in use-existing mode it reads the volumes of
    the selected pool, and raises where there are none to read. *)
Lemma onAddClicked_valid (P : Props.t) (s : State.t) :
  validateParams P s = Ok ∅ →
  (State.mode s = USE_EXISTING →
     ∃ pool volumes,
       poolNamed s (State.storagePoolName s) = Some pool ∧
       Pool.volumes pool = Some volumes) →
  ∃ c one p,
    onAddClicked P s = Ok c ∧
    issued c = [one] ∧ pending c = Some p ∧
    isAttachOrCreate one = true ∧
    (State.mode s = CREATE_NEW →
       ∃ args, one = storageVolumeCreateAndAttach args) ∧
    (State.mode s = USE_EXISTING ∨ State.mode s = CUSTOM_PATH →
       ∃ args, one = domainAttachDisk args).
Proof.
  intros Hvalid Hpool. unfold onAddClicked. rewrite Hvalid. simpl.
  destruct (bool_decide (State.mode s = CREATE_NEW)) eqn:Hcreate.
  - apply bool_decide_eq_true in Hcreate.
    eexists _, _, _. repeat split; [by eexists|].
    rewrite Hcreate. by intros [|].
  - apply bool_decide_eq_false in Hcreate.
    destruct (bool_decide (State.mode s = USE_EXISTING)) eqn:Hexisting.
    + apply bool_decide_eq_true in Hexisting.
      destruct (Hpool Hexisting) as (pool & volumes & -> & Hvolumes).
      simpl. rewrite Hvolumes. simpl.
      eexists _, _, _. repeat split; [done | by eexists].
    + simpl. eexists _, _, _. repeat split; [done | by eexists].
Qed.

(** C1. On a dialog that is rendered with the "Add" button enabled, when
    [validateParams] returns the empty mapping one invocation of
    [onAddClicked] issues exactly one call, and leaves its promise chain
    behind: [storageVolumeCreateAndAttach] in create-new mode,
    [domainAttachDisk] in use-existing and custom-path mode. *)
Theorem onAddClicked_issues_one_call (P : Props.t) (s : State.t) (view : View) :
  render P s = Ok view →
  addIsDisabled view = false →
  validateParams P s = Ok ∅ →
  ∃ c one p,
    onAddClicked P s = Ok c ∧
    issued c = [one] ∧ pending c = Some p ∧
    isAttachOrCreate one = true ∧
    (State.mode s = CREATE_NEW →
       ∃ args, one = storageVolumeCreateAndAttach args) ∧
    (State.mode s = USE_EXISTING ∨ State.mode s = CUSTOM_PATH →
       ∃ args, one = domainAttachDisk args).
Proof.
  intros Hrender Henabled Hvalid. apply onAddClicked_valid; [done|].
  by apply (render_useExisting_pool P s view).
Qed.

(** The callbacks of a settled submission issue no attach/create call:
    a fulfilled one reloads the machine and updates the disks that share
    the volume, a rejected one issues nothing. *)
Definition noAttachOrCreate (effects : list Effect) : bool :=
  forallb (λ e, match e with call c => negb (isAttachOrCreate c) | _ => true end) effects.

Lemma onFulfilled_no_attach (p : Pending) (now : State.t) (effects : list Effect) :
  onFulfilled p now = Ok effects → noAttachOrCreate effects = true.
Proof.
  destruct p as [vm | vm vms storagePool volume isVolumeUsed]; simpl.
  - by intros [= <-].
  - case_bool_decide; [|by intros [= <-]].
    destruct volume as [volume|]; [simpl | done].
    case_bool_decide; [|by intros [= <-]].
    destruct isVolumeUsed as [isVolumeUsed|]; [simpl | done].
    destruct (usage isVolumeUsed _) as [vmNames|]; [|by intros [= <-]].
    destruct (mapM _ vmNames) as [promises|] eqn:Hmap; [simpl | done].
    intros [= <-]. unfold noAttachOrCreate. rewrite forallb_app. simpl.
    rewrite andb_true_r.
    revert promises Hmap. induction vmNames as [|vmName vmNames IH]; intros promises.
    + simpl. by intros [= <-].
    + simpl. destruct (List.find _ vms) as [vm'|]; [simpl | done].
      destruct (mapM _ vmNames) as [promises'|]; [simpl | done].
      intros [= <-]. simpl. by apply IH.
Qed.

(** ** Changing the device *)

(** C5, as the code has it. From the bus [virtio], choosing the device
    [cdrom] yields the device [cdrom]; the bus becomes that of the first
    CD drive the machine already has, if that drive names one, and [scsi]
    otherwise; the target is the next free one of the new bus. *)
Theorem device_cdrom_from_virtio (P : Props.t) (s : State.t) :
  State.busType s = "virtio" →
  ∃ s',
    valueChanged P s (Key.device "cdrom") = Ok s' ∧
    State.device s' = "cdrom" ∧
    (truthy (busOfDevice P "cdrom") = false →
       State.busType s' = "scsi" ∧
       State.target s' =
         getNextAvailableTarget (getOwnPropertyNames (VM.disks (Props.vm P))) "scsi") ∧
    (∀ bus, busOfDevice P "cdrom" = Some bus → bus ≠ "" →
       State.busType s' = bus ∧
       State.target s' =
         getNextAvailableTarget (getOwnPropertyNames (VM.disks (Props.vm P))) bus).
Proof.
  intros Hbus. unfold valueChanged, onValueChanged, onDevice. simpl.
  rewrite Hbus. simpl.
  destruct (busOfDevice P "cdrom") as [bus|] eqn:Hfound; simpl.
  - destruct (bool_decide (bus = "")) eqn:Hempty; simpl;
      (eexists; split; [reflexivity|]; split; [reflexivity|]; split).
    + by intros _.
    + apply bool_decide_eq_true in Hempty. by intros ? [= <-] ?.
    + done.
    + by intros ? [= <-] ?.
  - eexists. split; [reflexivity|]. split; [reflexivity|]. split; [by intros _ | done].
Qed.

(** ** Helper lemmas on lookups and on [sort] *)

Lemma sort_insert_perm {A} (cmp : A → A → Z) (x : A) (l : list A) :
  sort_insert cmp x l ≡ₚ x :: l.
Proof.
  induction l as [|y l IH]; simpl; [done|].
  destruct (cmp x y <=? 0)%Z; [done|].
  rewrite IH. apply Permutation_swap.
Qed.

Lemma sort_perm {A} (cmp : A → A → Z) (l : list A) : sort cmp l ≡ₚ l.
Proof.
  induction l as [|x l IH]; simpl; [done|].
  unfold sort in *. simpl. by rewrite sort_insert_perm, IH.
Qed.

Lemma find_elem_of {A} (f : A → bool) (l : list A) (x : A) :
  List.find f l = Some x → x ∈ l ∧ f x = true.
Proof.
  intros H. apply List.find_some in H as [Hin Hf]. by rewrite list_elem_of_In.
Qed.

Lemma find_is_Some {A} (f : A → bool) (l : list A) (x : A) :
  x ∈ l → f x = true → is_Some (List.find f l).
Proof.
  intros Hin Hf. destruct (List.find f l) as [y|] eqn:Hfind; [by eexists|].
  apply list_elem_of_In in Hin.
  pose proof (List.find_none f l Hfind x Hin). congruence.
Qed.

(** The default pool is one of the pools of the props. *)
Lemma defaultPool_elem_of (P : Props.t) (name type : string) :
  defaultPool P = Some (name, type) →
  ∃ pool, pool ∈ Props.storagePools P ∧ Pool.name pool = name ∧ Pool.type pool = type.
Proof.
  unfold defaultPool. case_bool_decide; [|done].
  intros Hhead. apply head_Some_elem_of in Hhead.
  rewrite sort_perm in Hhead.
  apply list_elem_of_fmap in Hhead as (pool & [= -> ->] & Hin).
  by exists pool.
Qed.

(** The unused volumes of a pool whose volumes are known. *)
Lemma getFilteredVolumes_ok (pool : Pool.t) (volumes : list Volume.t)
    (disks : list (string * Disk.t)) :
  Pool.volumes pool = Some volumes →
  ∃ available,
    getFilteredVolumes (Some pool) disks = Ok available ∧
    ∀ volume, volume ∈ available → volume ∈ volumes.
Proof.
  intros Hv. unfold getFilteredVolumes. simpl. rewrite Hv. simpl.
  eexists; split; [reflexivity|].
  intros volume. rewrite sort_perm, list_elem_of_In, List.filter_In, <- list_elem_of_In.
  tauto.
Qed.

(** ** What [existingVolumeNameDelta] changes *)

Lemma existingVolumeNameDelta_found (s : State.t) (value poolName : option string)
    (pool : Pool.t) :
  poolOfVm s poolName = Some pool →
  is_Some (Pool.volumes pool) →
  ∃ delta,
    existingVolumeNameDelta s value poolName = Ok delta ∧
    ∀ x, delta x =
         State.set_format (derivedFormat pool value) (State.set_existingVolumeName value x).
Proof.
  intros Hpool [volumes Hvolumes]. unfold existingVolumeNameDelta, derivedFormat.
  rewrite Hpool, Hvolumes. simpl.
  destruct (includes _ _); simpl; [|by eexists].
  destruct (List.find _ volumes) as [volume|]; [|by eexists].
  destruct (truthy (Volume.format volume)) eqn:Htruthy; [|by eexists].
  destruct (Volume.format volume); [by eexists | done].
Qed.

Lemma existingVolumeNameDelta_frame (s : State.t) (value poolName : option string) :
  (∀ pool, pool ∈ State.storagePools s → is_Some (Pool.volumes pool)) →
  ∃ delta,
    existingVolumeNameDelta s value poolName = Ok delta ∧
    ∀ x, ∃ format,
      delta x = State.set_format format (State.set_existingVolumeName value x).
Proof.
  intros Hloaded. destruct (poolOfVm s poolName) as [pool|] eqn:Hpool.
  - destruct (existingVolumeNameDelta_found s value poolName pool Hpool) as (delta & -> & Hd).
    { apply Hloaded. unfold poolOfVm in Hpool. by apply find_elem_of in Hpool as [? _]. }
    exists delta. split; [done|]. intros x. eexists. apply Hd.
  - unfold existingVolumeNameDelta. rewrite Hpool.
    eexists; split; [reflexivity|]. intros x. by exists (State.format x).
Qed.

(** ** Changing the storage pool *)

(** C6, as the code has it. Choosing the pool [value], which the pools of
    the state hold for the connection of the machine, yields a state with
    that pool's name and type. In use-existing mode (the pool being the
    first of that name, its volumes known) [existingVolumeName] becomes
    the first of the pool's unused volumes in name order, and the format
    becomes that recorded for this volume if the pool is file based and
    the volume has one, the default format of the pool otherwise. In the
    other modes the format stays as it is when the previous pool and the
    new one are both of type [disk] or both of another type. *)
Theorem storagePoolName_changed (P : Props.t) (s : State.t) (value : string)
    (current : Pool.t) :
  poolOfVm s (Some value) = Some current →
  (State.mode s = USE_EXISTING →
     poolNamed s (Some value) = Some current ∧ is_Some (Pool.volumes current)) →
  ∃ s',
    valueChanged P s (Key.storagePoolName value) = Ok s' ∧
    State.storagePoolName s' = Some value ∧
    State.storagePoolType s' = Some (Pool.type current) ∧
    (State.mode s = USE_EXISTING →
       ∃ available,
         getFilteredVolumes (Some current) (VM.disks (State.vm s)) = Ok available ∧
         State.existingVolumeName s' = Volume.name <$> head available ∧
         State.format s' = derivedFormat current (State.existingVolumeName s')) ∧
    (State.mode s ≠ USE_EXISTING →
       (∀ prev, poolOfVm s (State.storagePoolName s) = Some prev →
                isDisk prev = isDisk current) →
       State.format s' = State.format s).
Proof.
  intros Hcurrent Hexisting.
  unfold valueChanged, onValueChanged, onStoragePoolName. rewrite Hcurrent. simpl.
  pose (q2 := match poolOfVm s (State.storagePoolName s) with
              | Some prevPool =>
                  if (isDisk current && negb (isDisk prevPool)) ||
                     (negb (isDisk current) && isDisk prevPool)
                  then [patch (State.set_format (getDefaultVolumeFormat (OfString value)))]
                  else []
              | None => []
              end : list Update).
  fold q2.
  assert (∃ reset : bool, q2 = (if reset
                         then [patch (State.set_format (getDefaultVolumeFormat (OfString value)))]
                         else []) ∧
            ((∀ prev, poolOfVm s (State.storagePoolName s) = Some prev →
                      isDisk prev = isDisk current) → reset = false))
    as (reset & -> & Hreset).
  { subst q2. destruct (poolOfVm s (State.storagePoolName s)) as [prev|].
    - eexists; split; [reflexivity|]. intros Hsame. rewrite (Hsame prev eq_refl).
      by destruct (isDisk current).
    - by exists false. }
  destruct (bool_decide (State.mode s = USE_EXISTING)) eqn:Hmode.
  - apply bool_decide_eq_true in Hmode.
    destruct (Hexisting Hmode) as [Hnamed [volumes Hvolumes]].
    destruct (getFilteredVolumes_ok current volumes (VM.disks (State.vm s)) Hvolumes)
      as (available & Havailable & _).
    unfold getDefaultVolumeName. rewrite Hnamed, Havailable. simpl.
    set (s1 := State.set_storagePoolName (Some value)
                 (State.set_storagePoolType (Some (Pool.type current)) s)).
    set (s2 := if reset
               then State.set_format (getDefaultVolumeFormat (OfString value)) s1
               else s1).
    destruct (existingVolumeNameDelta_found s (Volume.name <$> head available)
                (Some value) current Hcurrent) as (delta & Hdelta & Hd); [by eexists|].
    exists (delta s2).
    split.
    { destruct reset; simpl; subst s2; simpl; by rewrite Hdelta. }
    rewrite Hd. split; [by destruct reset|]. split; [by destruct reset|]. split.
    + intros _. exists available. by repeat split.
    + done.
  - apply bool_decide_eq_false in Hmode. simpl.
    destruct reset; simpl; (eexists; split; [reflexivity|]);
      (split; [done|]; split; [done|]; split; [done|]); intros _ Hsame; [|done].
    by specialize (Hreset Hsame).
Qed.

(** ** Changing the mode *)

(** Towards create-new or custom-path, and towards any mode when there is
    no pool, the new state is [initialState] with the mode set. *)
Lemma mode_changed_plain (P : Props.t) (s : State.t) (m : string) :
  m ≠ USE_EXISTING ∨ defaultPool P = None →
  valueChanged P s (Key.mode m) = Ok (State.set_mode m (initialState P s)).
Proof.
  intros H. unfold valueChanged. simpl.
  destruct (bool_decide (m = USE_EXISTING)) eqn:Hm; [|done].
  apply bool_decide_eq_true in Hm. destruct H as [H|H]; [done|].
  by rewrite H.
Qed.




(** Towards use-existing from a state that has the default pool
    selected: the first unused volume of that pool is preselected and the
    format is the one derived from it. *)
Lemma mode_changed_existing_format (P : Props.t) (s : State.t) (name type : string)
    (pool : Pool.t) :
  defaultPool P = Some (name, type) →
  name ≠ "" →
  State.storagePoolName s = Some name →
  poolNamed s (Some name) = Some pool →
  poolOfVm s (Some name) = Some pool →
  is_Some (Pool.volumes pool) →
  ∃ s' available,
    valueChanged P s (Key.mode USE_EXISTING) = Ok s' ∧
    getFilteredVolumes (Some pool) (VM.disks (State.vm s)) = Ok available ∧
    State.existingVolumeName s' = Volume.name <$> head available ∧
    State.format s' = derivedFormat pool (State.existingVolumeName s').
Proof.
  intros Hdefault Hname Hselected Hnamed Hvm [volumes Hvolumes].
  destruct (getFilteredVolumes_ok pool volumes (VM.disks (State.vm s)) Hvolumes)
    as (available & Havailable & _).
  unfold valueChanged. simpl. rewrite Hdefault. simpl.
  rewrite (bool_decide_false (name = "")) by done. simpl.
  unfold getDefaultVolumeName. rewrite Hnamed, Havailable. simpl.
  rewrite Hselected.
  destruct (existingVolumeNameDelta_found s (Volume.name <$> head available)
              (Some name) pool Hvm) as (delta & -> & Hdelta); [by eexists|].
  simpl. rewrite Hdelta. by eexists _, available.
Qed.

(** ** One submission at a time *)

(** An update that touches neither the mode nor the busy flag. *)
Definition keepsBusy (u : Update) : Prop :=
  ∀ x x', u x = Ok x' →
    State.mode x' = State.mode x ∧
    State.addDiskInProgress x' = State.addDiskInProgress x.

Lemma flush_keepsBusy (queue : list Update) (s s' : State.t) :
  Forall keepsBusy queue →
  flush queue s = Ok s' →
  State.mode s' = State.mode s ∧
  State.addDiskInProgress s' = State.addDiskInProgress s.
Proof.
  intros Hall. revert s. induction Hall as [|u queue Hu _ IH]; intros s; simpl.
  - by intros [= ->].
  - destruct (u s) as [s1|] eqn:Hus; [simpl | done].
    intros Hflush. destruct (IH s1 Hflush) as [-> ->]. by apply Hu.
Qed.

Lemma existingVolumeNameDelta_shape (s : State.t) (value poolName : option string)
    (delta : Delta) :
  existingVolumeNameDelta s value poolName = Ok delta →
  ∀ x, ∃ format,
    delta x = State.set_format format (State.set_existingVolumeName value x).
Proof.
  unfold existingVolumeNameDelta.
  destruct (poolOfVm s poolName) as [pool|].
  2: { intros [= <-] x. by exists (State.format x). }
  destruct (includes _ _).
  2: { intros [= <-] x. by eexists. }
  destruct (Pool.volumes pool) as [volumes|]; [simpl | done].
  destruct (List.find _ volumes) as [volume|].
  2: { intros [= <-] x. by eexists. }
  destruct (truthy (Volume.format volume)); intros [= <-] x; by eexists.
Qed.

(** Queues of [setState(object)] calls on other fields. *)
Ltac keeps_patch :=
  let H := fresh in
  intros ? ? H; unfold patch in H; simpl in H; by injection H as <-.

Ltac keeps_patches :=
  repeat first
    [ apply Forall_nil_2
    | apply Forall_cons_2; [keeps_patch|] ].

Lemma onBusType_keepsBusy (P : Props.t) (value : string) :
  Forall keepsBusy (onBusType P value).
Proof. unfold onBusType. keeps_patches. Qed.

Lemma onDevice_keepsBusy (P : Props.t) (s : State.t) (value : string) :
  Forall keepsBusy (onDevice P s value).
Proof.
  unfold onDevice. apply Forall_cons_2; [keeps_patch|].
  destruct (busOfDevice P value); repeat case_match;
    first [apply onBusType_keepsBusy | apply Forall_nil_2].
Qed.

Lemma onExistingVolumeName_keepsBusy (s : State.t) (value : option string) :
  Forall keepsBusy (onExistingVolumeName s value).
Proof.
  apply Forall_cons_2; [|apply Forall_nil_2]. intros x x'.
  destruct (existingVolumeNameDelta s value (State.storagePoolName x)) as [delta|] eqn:Hd;
    [simpl | done].
  intros [= <-].
  by destruct (existingVolumeNameDelta_shape _ _ _ _ Hd x) as [format ->].
Qed.

Lemma onValueChanged_keepsBusy (P : Props.t) (s : State.t) (key : Key.t)
    (queue : list Update) :
  (∀ value, key ≠ Key.mode value) →
  onValueChanged P s key = Ok queue →
  Forall keepsBusy queue.
Proof.
  intros Hkey. destruct key as [value|value|value|value|value|value| | | | | |]; simpl.
  7-12: intros [= <-]; by keeps_patches.
  - unfold onStoragePoolName.
    destruct (poolOfVm s (Some value)) as [current|]; [simpl | done].
    assert (Forall keepsBusy
              match poolOfVm s (State.storagePoolName s) with
              | Some prevPool =>
                  if (isDisk current && negb (isDisk prevPool)) ||
                     (negb (isDisk current) && isDisk prevPool)
                  then onDefault (Key.format (getDefaultVolumeFormat (OfString value)))
                  else []
              | None => []
              end) as Hq2.
    { repeat case_match; simpl; by keeps_patches. }
    case_bool_decide.
    + destruct (getDefaultVolumeName s value) as [name|]; [simpl | done].
      intros [= <-]. apply Forall_cons_2; [keeps_patch|].
      apply Forall_app. split; [done | apply onExistingVolumeName_keepsBusy].
    + intros [= <-]. apply Forall_cons_2; [keeps_patch | done].
  - intros [= <-]. apply onExistingVolumeName_keepsBusy.
  - by destruct (Hkey value).
  - intros [= <-]. apply onBusType_keepsBusy.
  - intros [= <-]. unfold onFile. apply Forall_app. split.
    + case_match; [apply onDevice_keepsBusy | apply Forall_nil_2].
    + by keeps_patches.
  - intros [= <-]. apply onDevice_keepsBusy.
Qed.

(** A change of a value other than the mode keeps the mode and the busy
    flag. *)
Lemma valueChanged_keepsBusy (P : Props.t) (s s' : State.t) (key : Key.t) :
  (∀ value, key ≠ Key.mode value) →
  valueChanged P s key = Ok s' →
  State.mode s' = State.mode s ∧
  State.addDiskInProgress s' = State.addDiskInProgress s.
Proof.
  intros Hkey. unfold valueChanged.
  destruct (onValueChanged P s key) as [queue|] eqn:Hqueue; [simpl | done].
  apply flush_keepsBusy. by eapply onValueChanged_keepsBusy.
Qed.

(** A create-new submission either is refused by the validation and
    leaves nothing behind, or sets the busy flag and leaves one promise. *)
Lemma onAddClicked_createNew (P : Props.t) (s s' : State.t) (c : Clicked) :
  State.mode s = CREATE_NEW →
  onAddClicked P s = Ok c →
  flush (queued c) s = Ok s' →
  State.mode s' = CREATE_NEW ∧
  ((pending c = None ∧ State.addDiskInProgress s' = false) ∨
   (pending c = Some (createPending (State.vm s)) ∧ State.addDiskInProgress s' = true)).
Proof.
  intros Hmode. unfold onAddClicked.
  destruct (validateParams P s) as [validation|]; [simpl | done].
  case_bool_decide.
  - intros [= <-] [= <-]. split; [done | by left].
  - rewrite (bool_decide_true (State.mode s = CREATE_NEW)) by done.
    intros [= <-] [= <-]. split; [done | by right].
Qed.

(** What holds of a dialog that stays in create-new mode. *)
Definition oneAtATime (d : Dialog) : Prop :=
  State.mode (state d) = CREATE_NEW ∧
  (inFlight d = [] ∨
   ∃ vm, inFlight d = [createPending vm] ∧ State.addDiskInProgress (state d) = true).

Lemma step_oneAtATime (d d' : Dialog) :
  step d d' → oneAtATime d → oneAtATime d'.
Proof.
  intros Hstep [Hmode Hflight].
  destruct Hstep as [P d key s' _ Hkey Hchanged
                    |P d view c s' _ Hrender Henabled Hclicked Hflush
                    |d before p after exc_message s' Hsplit Hflush
                    |d before p after effects Hsplit _]; unfold oneAtATime; simpl.
  - destruct (valueChanged_keepsBusy P _ _ key Hkey Hchanged) as [Hm Hb].
    split; [congruence|]. destruct Hflight as [?|(vm & ? & ?)]; [by left|].
    right. exists vm. split; [done | congruence].
  - assert (State.addDiskInProgress (state d) = false) as Hidle.
    { unfold render in Hrender.
      destruct (if State.validate (state d) then _ else _); [simpl in Hrender | done].
      destruct (if State.dialogLoading (state d) then _ else _) as [[? ?]|];
        [simpl in Hrender | done].
      injection Hrender as <-. simpl in Henabled. unfold addDisabled in Henabled.
      by destruct (State.addDiskInProgress (state d)). }
    destruct Hflight as [Hnone|(vm & _ & Hbusy)]; [|congruence].
    destruct (onAddClicked_createNew P _ _ c Hmode Hclicked Hflush)
      as [Hm [[-> Hb]|[-> Hb]]]; (split; [done|]); rewrite Hnone; simpl.
    + by left.
    + right. by eexists.
  - destruct Hflight as [Hnone|(vm & Hone & _)]; rewrite Hsplit in *.
    { by destruct before. }
    assert (before = [] ∧ after = [] ∧ p = createPending vm) as (-> & -> & ->).
    { destruct before as [|? before]; simpl in Hone.
      - by injection Hone as -> ->.
      - injection Hone as _ Hone. by destruct before. }
    simpl in Hflush. injection Hflush as <-. split; [done | by left].
  - destruct Hflight as [Hnone|(vm & Hone & _)]; rewrite Hsplit in *.
    { by destruct before. }
    assert (before = [] ∧ after = []) as (-> & ->).
    { destruct before as [|? before]; simpl in Hone.
      - by injection Hone as _ ->.
      - injection Hone as _ Hone. by destruct before. }
    split; [done | by left].
Qed.

(** C9, as the code has it for create-new submissions. On a dialog that
    starts in create-new mode with nothing pending, and as long as the
    mode is not switched, at most one submission is in flight; while one
    is, [addDiskInProgress] is set and the "Add" button is disabled. *)
Theorem createNew_one_in_flight (d0 d : Dialog) :
  State.mode (state d0) = CREATE_NEW →
  inFlight d0 = [] →
  rtc step d0 d →
  (length (inFlight d) ≤ 1)%nat ∧
  (inFlight d ≠ [] →
     State.addDiskInProgress (state d) = true ∧ addDisabled (state d) = true).
Proof.
  intros Hmode Hnone Hsteps.
  assert (oneAtATime d) as [_ Hflight].
  { assert (oneAtATime d0) as Hstart by (split; [done | by left]).
    clear Hmode Hnone. induction Hsteps as [d|d0 d1 d Hstep _ IH]; [done|].
    apply IH. by apply (step_oneAtATime d0 d1). }
  destruct Hflight as [->|(vm & -> & Hbusy)]; simpl.
  - split; [lia | done].
  - split; [lia|]. intros _. split; [done|]. unfold addDisabled. by rewrite Hbusy.
Qed.

End Facts.
End AddDiskFacts.

(** * Properties of the "Change boot order" dialog *)

Module BootOrderFacts.
Import BootOrder.

(** The devices of a list are distinct objects: [indexOf] finds a device
    where it is. *)
Lemma indexOf_lookup (ds : list loc) (device : loc) (i : nat) :
  NoDup ds → ds !! i = Some device →
  indexOf (Some <$> ds) device = Z.of_nat i.
Proof.
  intros Hnodup Hi. unfold indexOf.
  assert (list_find (λ x, x = Some device) (Some <$> ds) = Some (i, Some device)) as ->; [|done].
  apply list_find_Some. rewrite list_lookup_fmap, Hi. repeat split.
  intros j y Hj Hlt ->. rewrite list_lookup_fmap in Hj.
  destruct (ds !! j) as [x|] eqn:Hx; simplify_eq/=.
  pose proof (NoDup_lookup ds i j device Hnodup Hi Hx). lia.
Qed.

Lemma get_lookup (ds : list loc) (i : nat) :
  get (Some <$> ds) (Z.of_nat i) = ds !! i.
Proof.
  unfold get. rewrite (proj2 (Z.ltb_ge _ _)) by lia.
  rewrite Nat2Z.id, list_lookup_fmap. by destruct (ds !! i).
Qed.

Lemma set_insert (ds : list loc) (i : nat) (x : loc) :
  (i < length ds)%nat →
  set (Some <$> ds) (Z.of_nat i) (Some x) = Some <$> <[i := x]> ds.
Proof.
  intros Hi. unfold set. rewrite (proj2 (Z.ltb_ge _ _)) by lia.
  rewrite length_fmap, (proj2 (Z.ltb_lt _ _)) by lia.
  by rewrite Nat2Z.id, list_fmap_insert.
Qed.

(** [move] exchanges the device with the one [direction] places away. *)
Lemma move_insert (direction : Z) (ds : list loc) (device other : loc) (i j : nat) :
  NoDup ds → ds !! i = Some device → ds !! j = Some other →
  (Z.of_nat i + direction = Z.of_nat j)%Z →
  move direction (Some <$> ds) device = Some <$> <[i := other]> (<[j := device]> ds).
Proof.
  intros Hnodup Hi Hj Hdir. unfold move.
  rewrite (indexOf_lookup ds device i), Hdir, !get_lookup, Hi, Hj by done.
  rewrite set_insert by (by eapply lookup_lt_Some).
  rewrite set_insert; [done|]. rewrite length_insert. by eapply lookup_lt_Some.
Qed.

Lemma exchanged_lookup (ds : list loc) (device other : loc) (i j k : nat) :
  ds !! i = Some device → ds !! j = Some other → i ≠ j →
  <[i := other]> (<[j := device]> ds) !! k =
  ds !! (if decide (k = j) then i else if decide (k = i) then j else k).
Proof.
  intros Hi Hj Hne.
  pose proof (lookup_lt_Some _ _ _ Hi). pose proof (lookup_lt_Some _ _ _ Hj).
  destruct (decide (k = j)) as [->|]; [|destruct (decide (k = i)) as [->|]].
  - rewrite list_lookup_insert_ne, list_lookup_insert_eq by done. by rewrite Hi.
  - rewrite list_lookup_insert_eq by (by rewrite length_insert). by rewrite Hj.
  - by rewrite !list_lookup_insert_ne.
Qed.

(** C10. In a list of distinct devices, for the device at index [i]:
    with [0 < i], [moveUp] exchanges the entries at [i - 1] and [i] and
    leaves the others where they are, the result is a permutation of the
    list, and a [moveDown] of the same device gives the state back; with
    [i + 1 < length], [moveDown] exchanges the entries at [i] and [i + 1],
    leaves the others, and permutes the list. *)
Theorem move_exchanges_neighbours (s : State.t) (ds : list loc) (device : loc) (i : nat) :
  State.devices s = Some <$> ds →
  NoDup ds →
  ds !! i = Some device →
  ((0 < i)%nat →
     (∀ k, State.devices (moveUp s device) !! k =
           State.devices s !!
             (if decide (k = i - 1)%nat then i
              else if decide (k = i) then (i - 1)%nat else k)) ∧
     State.devices (moveUp s device) ≡ₚ State.devices s ∧
     moveDown (moveUp s device) device = s) ∧
  ((i + 1 < length ds)%nat →
     (∀ k, State.devices (moveDown s device) !! k =
           State.devices s !!
             (if decide (k = i + 1)%nat then i
              else if decide (k = i) then (i + 1)%nat else k)) ∧
     State.devices (moveDown s device) ≡ₚ State.devices s).
Proof.
  intros Hs Hnodup Hi. destruct s as [devices text detail]. simpl in Hs. subst devices.
  unfold moveUp, moveDown. simpl. split.
  - intros Hpos.
    destruct (ds !! (i - 1)%nat) as [above|] eqn:Habove.
    2: { apply lookup_ge_None in Habove. apply lookup_lt_Some in Hi. lia. }
    rewrite (move_insert (-1) ds device above i (i - 1)) by (done || lia).
    split; [|split].
    + intros k. rewrite !list_lookup_fmap. f_equal.
      apply exchanged_lookup; [done | done | lia].
    + apply fmap_Permutation. by apply Permutation_insert_swap.
    + unfold State.set_devices. simpl. f_equal.
      rewrite (move_insert 1 _ device above (i - 1) i).
      * f_equal. apply list_eq. intros k.
        pose proof (lookup_lt_Some _ _ _ Hi). pose proof (lookup_lt_Some _ _ _ Habove).
        destruct (decide (k = i)) as [->|]; [|destruct (decide (k = i - 1)%nat) as [->|]].
        -- rewrite list_lookup_insert_ne by lia.
           rewrite list_lookup_insert_eq by (by rewrite !length_insert). done.
        -- rewrite list_lookup_insert_eq by (by rewrite !length_insert). done.
        -- by rewrite !list_lookup_insert_ne by lia.
      * eapply NoDup_Permutation_proper; [|done].
        by apply Permutation_insert_swap.
      * rewrite list_lookup_insert_ne by lia.
        apply list_lookup_insert_eq. by eapply lookup_lt_Some.
      * apply list_lookup_insert_eq. rewrite length_insert. by eapply lookup_lt_Some.
      * lia.
  - intros Hlast.
    destruct (ds !! (i + 1)%nat) as [below|] eqn:Hbelow.
    2: { apply lookup_ge_None in Hbelow. lia. }
    rewrite (move_insert 1 ds device below i (i + 1)) by (done || lia).
    split.
    + intros k. rewrite !list_lookup_fmap. f_equal.
      apply exchanged_lookup; [done | done | lia].
    + apply fmap_Permutation. by apply Permutation_insert_swap.
Qed.

(** Moved, the list is again one of distinct devices. *)
Lemma move_keeps_distinct (direction : Z) (ds : list loc) (device other : loc) (i j : nat) :
  NoDup ds → ds !! i = Some device → ds !! j = Some other →
  (Z.of_nat i + direction = Z.of_nat j)%Z →
  ∃ ds', move direction (Some <$> ds) device = Some <$> ds' ∧ NoDup ds' ∧ ds' ≡ₚ ds.
Proof.
  intros Hnodup Hi Hj Hdir. eexists. split; [by eapply move_insert|].
  assert (<[i := other]> (<[j := device]> ds) ≡ₚ ds) as Hperm
    by (by apply Permutation_insert_swap).
  split; [|done]. by rewrite Hperm.
Qed.

(** What the code does where the theorem does not reach: the first device
    moved up and the last one moved down leave an [undefined] entry. *)
Example moveUp_first : move (-1) [Some 1%positive; Some 2%positive] 1%positive
                       = [None; Some 2%positive].
Proof. reflexivity. Qed.

Example moveDown_last : move 1 [Some 1%positive; Some 2%positive] 2%positive
                        = [Some 1%positive; None; Some 2%positive].
Proof. reflexivity. Qed.

(** The arrows [render] leaves enabled are those the theorem covers. *)
Lemma upDisabled_first (heap : gmap loc Device.t) (s : State.t) (index : nat) :
  upDisabled heap s index = Ok false → (0 < index)%nat.
Proof.
  unfold upDisabled. case_bool_decide; [done | lia].
Qed.

Lemma downDisabled_last (heap : gmap loc Device.t) (s : State.t) (index : nat) :
  downDisabled heap s index = Ok false → (index + 1 < length (State.devices s))%nat.
Proof.
  unfold downDisabled. case_bool_decide as Hlen; [done|].
  destruct (get _ _) as [l|] eqn:Hget; [simpl | done]. intros _.
  unfold get in Hget. rewrite (proj2 (Z.ltb_ge _ _)) in Hget by lia.
  destruct (State.devices s !! _) as [x|] eqn:Hlookup; [|done].
  apply lookup_lt_Some in Hlookup. lia.
Qed.

End BootOrderFacts.

(** * Properties of the "Delete storage pool" dialog *)

Module StoragePoolDeleteFacts.
Import StoragePoolDelete.

(** With "Delete the volumes inside this pool" ticked, [delete] issues one
    [storageVolumeDelete] for each volume before it returns. *)
Lemma delete_one_call_per_volume (P : Props.t) (s : State.t) (volumes : list Volume.t) :
  State.deleteVolumes s = true →
  Pool.volumes (Props.storagePool P) = Some volumes →
  volumes ≠ [] →
  ∃ calls,
    delete P s = Ok calls ∧
    length calls = length volumes ∧
    Forall (λ c, ∃ volume, c = storageVolumeDelete
                                 (Pool.connectionName (Props.storagePool P))
                                 (Pool.name (Props.storagePool P)) volume) calls.
Proof.
  intros Hticked Hvolumes Hsome. unfold delete. rewrite Hticked, Hvolumes. simpl.
  rewrite bool_decide_true by (destruct volumes; [done | simpl; lia]).
  eexists. split; [reflexivity|]. split; [by rewrite length_fmap|].
  apply Forall_fmap, Forall_forall. intros volume _. by eexists.
Qed.

End StoragePoolDeleteFacts.

(** * The theorems on the concrete dialogs *)

Module Runs.
Import AddDisk AddDiskFacts Scenario.
#[local] Existing Instance Sample.ext.

(** Switching the opened dialog to use-existing gives [existing]. *)
Example opened_to_existing :
  valueChanged props opened (Key.mode USE_EXISTING) = Ok existing.
Proof. vm_compute. reflexivity. Qed.

(** On the use-existing tab the click issues one [domainAttachDisk]. *)
Lemma onAddClicked_issues_one_call_existing :
  ∃ c one p,
    onAddClicked props existing = Ok c ∧
    issued c = [one] ∧ pending c = Some p ∧
    isAttachOrCreate one = true ∧
    (State.mode existing = CREATE_NEW →
       ∃ args, one = storageVolumeCreateAndAttach args) ∧
    (State.mode existing = USE_EXISTING ∨ State.mode existing = CUSTOM_PATH →
       ∃ args, one = domainAttachDisk args).
Proof.
  eapply (onAddClicked_issues_one_call props existing);
    [vm_compute; reflexivity | reflexivity | vm_compute; reflexivity].
Defined.

(** On the opened dialog no volume name has been typed yet: the click is
    refused. *)
Lemma onAddClicked_invalid_opened :
  ∃ c s',
    onAddClicked props opened = Ok c ∧
    issued c = [] ∧ pending c = None ∧
    flush (queued c) opened = Ok s' ∧
    s' = State.set_addDiskInProgress false (State.set_validate true opened) ∧
    formFields s' = formFields opened ∧
    State.dialogLoading s' = State.dialogLoading opened ∧
    State.dialogError s' = State.dialogError opened ∧
    State.dialogErrorDetail s' = State.dialogErrorDetail opened.
Proof.
  apply (onAddClicked_invalid props opened
           (<["volumeName" := "Please enter new volume name"]> ∅)).
  - vm_compute. reflexivity.
  - apply insert_non_empty.
Defined.

(** On the dialog opened without any pool the validation raises. *)
Lemma validateParams_createNew_unset_raises_no_pool :
  State.mode opened_no_pool = CREATE_NEW ∧
  State.storagePoolName opened_no_pool = None ∧
  validateParams props_no_pool opened_no_pool =
    Throw (TypeError "Cannot read properties of undefined (reading 'capacity')").
Proof.
  split; [reflexivity|]. split; [reflexivity|].
  apply (validateParams_createNew_unset_raises props_no_pool opened_no_pool); reflexivity.
Defined.

(** That state is met when the pools go away while the dialog is open:
    a refused click sets [validate], which no switch of the mode resets;
    with the props now without pools, switching to use-existing and back
    to create-new leads to a state whose [render] raises in
    [validateParams]. *)
Example render_raises_without_pools :
  ∃ c s1 s2 s3,
    onAddClicked props opened = Ok c ∧ flush (queued c) opened = Ok s1 ∧
    State.validate s1 = true ∧
    valueChanged props_no_pool s1 (Key.mode USE_EXISTING) = Ok s2 ∧
    valueChanged props_no_pool s2 (Key.mode CREATE_NEW) = Ok s3 ∧
    State.mode s3 = CREATE_NEW ∧ State.storagePoolName s3 = None ∧
    render props_no_pool s3 =
      Throw (TypeError "Cannot read properties of undefined (reading 'capacity')").
Proof.
  eexists _, _, _, _.
  split; [vm_compute; reflexivity|]. split; [reflexivity|]. split; [reflexivity|].
  split; [vm_compute; reflexivity|]. split; [vm_compute; reflexivity|].
  repeat split; reflexivity.
Qed.

(** 11 GiB asked of a pool of 10 GiB: the message shown. *)
Example too_large_message :
  ∃ validation,
    validateParams props too_large = Ok validation ∧
    validation !! "size" =
      Some "Storage volume size must not exceed the storage pool's capacity (10.00 GiB)".
Proof. eexists. split; vm_compute; reflexivity. Qed.

(** ... and the submission refused. *)
Lemma validateParams_size_exceeds_capacity_11GiB :
  ∃ validation c,
    validateParams props too_large = Ok validation ∧
    validation !! "size" =
      Some (cockpit_format
              (gettext "Storage volume size must not exceed the storage pool's capacity ($0 $1)")
              [toFixed (poolCapacity default_pool (State.unit too_large)) 2;
               State.unit too_large]) ∧
    onAddClicked props too_large = Ok c ∧ issued c = [] ∧ pending c = None.
Proof.
  apply (validateParams_size_exceeds_capacity props too_large default_pool);
    vm_compute; reflexivity.
Defined.

(** Where the machine has no CD drive yet the bus becomes [scsi]. *)
Lemma device_cdrom_from_virtio_no_drive :
  ∃ s',
    valueChanged props0 opened0 (Key.device "cdrom") = Ok s' ∧
    State.device s' = "cdrom" ∧
    (truthy (busOfDevice props0 "cdrom") = false →
       State.busType s' = "scsi" ∧
       State.target s' =
         getNextAvailableTarget (getOwnPropertyNames (VM.disks (Props.vm props0))) "scsi") ∧
    (∀ bus, busOfDevice props0 "cdrom" = Some bus → bus ≠ "" →
       State.busType s' = bus ∧
       State.target s' =
         getNextAvailableTarget (getOwnPropertyNames (VM.disks (Props.vm props0))) bus).
Proof. apply (device_cdrom_from_virtio props0 opened0). reflexivity. Defined.

(** A path that ends in [.iso] selects the device [cdrom] by itself. *)
Example file_iso_selects_cdrom :
  ∃ s',
    valueChanged props0 opened0 (Key.file "/srv/install.iso") = Ok s' ∧
    State.file s' = "/srv/install.iso" ∧
    State.device s' = "cdrom" ∧ State.busType s' = "scsi" ∧
    State.target s' = Some "sda".
Proof. eexists. split; [vm_compute; reflexivity|]. repeat split; reflexivity. Qed.

(** The bus does not always become [scsi]: the machine [vm1] has a CD
    drive on the SATA bus, and from [virtio] the bus becomes [sata]. *)
Lemma device_cdrom_takes_bus_of_drive :
  State.busType opened = "virtio" ∧
  ∃ s',
    valueChanged props opened (Key.device "cdrom") = Ok s' ∧
    State.device s' = "cdrom" ∧
    State.busType s' = "sata" ∧
    State.busType s' ≠ "scsi".
Proof.
  split; [reflexivity|]. eexists. split; [vm_compute; reflexivity|].
  split; [reflexivity|]. split; [reflexivity | discriminate].
Qed.

(** On the use-existing tab, choosing the empty pool [images]. *)
Lemma storagePoolName_changed_images :
  ∃ s',
    valueChanged props existing (Key.storagePoolName "images") = Ok s' ∧
    State.storagePoolName s' = Some "images" ∧
    State.storagePoolType s' = Some (Pool.type images_pool) ∧
    (State.mode existing = USE_EXISTING →
       ∃ available,
         getFilteredVolumes (Some images_pool) (VM.disks (State.vm existing)) = Ok available ∧
         State.existingVolumeName s' = Volume.name <$> head available ∧
         State.format s' = derivedFormat images_pool (State.existingVolumeName s')) ∧
    (State.mode existing ≠ USE_EXISTING →
       (∀ prev, poolOfVm existing (State.storagePoolName existing) = Some prev →
                isDisk prev = isDisk images_pool) →
       State.format s' = State.format existing).
Proof.
  apply (storagePoolName_changed props existing "images" images_pool).
  - vm_compute. reflexivity.
  - intros _. split; [vm_compute; reflexivity | by eexists].
Defined.

(** The format is not always the default one of the new pool: in
    create-new mode, with the format [raw] chosen, changing from the pool
    [default] to the pool [images] (both of type [dir]) keeps [raw], while
    the default format of [images] is [qcow2]. *)
Lemma storagePoolName_keeps_format :
  State.format raw_chosen = Some "raw" ∧
  getDefaultVolumeFormat (OfPool images_pool) = Some "qcow2" ∧
  ∃ s',
    valueChanged props raw_chosen (Key.storagePoolName "images") = Ok s' ∧
    State.storagePoolName s' = Some "images" ∧
    State.format s' = Some "raw".
Proof.
  split; [reflexivity|]. split; [reflexivity|].
  eexists. split; [vm_compute; reflexivity|]. split; reflexivity.
Qed.


(** Towards custom-path the format chosen before is given up. *)
Example mode_custom_resets_format :
  State.format raw_chosen = Some "raw" ∧
  ∃ s',
    valueChanged props raw_chosen (Key.mode CUSTOM_PATH) = Ok s' ∧
    State.mode s' = CUSTOM_PATH ∧ State.volumeName s' = None ∧
    State.format s' = Some "qcow2" ∧ State.target s' = Some "vda".
Proof.
  split; [reflexivity|]. eexists. split; [vm_compute; reflexivity|].
  repeat split; reflexivity.
Qed.


(** The click on "Add" of the create-new dialog. *)
Lemma ready_submitted : step ready submitted.
Proof.
  eapply (step_add props ready _ (clicked props named)
            (State.set_addDiskInProgress true (State.set_validate false named)));
    [reflexivity | vm_compute; reflexivity | reflexivity
    | vm_compute; reflexivity | reflexivity].
Defined.

(** The create-new dialog after the click: one submission in flight, the
    button disabled. *)
Lemma createNew_one_in_flight_submitted :
  (length (inFlight submitted) ≤ 1)%nat ∧
  (inFlight submitted ≠ [] →
     State.addDiskInProgress (state submitted) = true ∧
     addDisabled (state submitted) = true).
Proof.
  apply (createNew_one_in_flight ready submitted);
    [reflexivity | reflexivity | apply rtc_once, ready_submitted].
Defined.

(** Two persistence calls can be pending at once. On the custom-path tab
    a click on "Add" issues [domainAttachDisk] and sets no flag, the button
    stays enabled, and a second click leaves two submissions in flight. The
    deletion dialog issues one [storageVolumeDelete] per volume at once, and
    [save] of the boot-order dialog issues its call and leaves the state
    as it is. *)
Lemma two_in_flight :
  (rtc step custom_ready custom_twice ∧
   length (inFlight custom_twice) = 2%nat ∧
   State.addDiskInProgress (state custom_twice) = false ∧
   addDisabled (state custom_twice) = false) ∧
  StoragePoolDelete.delete delete_props delete_with_volumes =
    Ok [StoragePoolDelete.storageVolumeDelete "system" "default" "b.img";
        StoragePoolDelete.storageVolumeDelete "system" "default" "a.img"] ∧
  BootOrder.save vm1 boot_heap boot_order =
    Ok (boot_order,
        [BootOrder.domainChangeBootOrder "/org/libvirt/domain/vm1" "system"
           [1%positive; 2%positive]]).
Proof.
  split; [split; [|by repeat split] | split; vm_compute; reflexivity].
  apply rtc_l with custom_once; [|apply rtc_once].
  - eapply (step_add props custom_ready _ (clicked props custom) custom);
      [reflexivity | vm_compute; reflexivity | reflexivity
      | vm_compute; reflexivity | reflexivity].
  - eapply (step_add props custom_once _ (clicked props custom) custom);
      [reflexivity | vm_compute; reflexivity | reflexivity
      | vm_compute; reflexivity | reflexivity].
Qed.

(** On the list of three devices, the second one moved up and moved
    down. *)
Lemma move_exchanges_neighbours_second :
  (((0 < 1)%nat →
     (∀ k, BootOrder.State.devices (BootOrder.moveUp boot_order 2%positive) !! k =
           BootOrder.State.devices boot_order !!
             (if decide (k = 1 - 1)%nat then 1%nat
              else if decide (k = 1%nat) then (1 - 1)%nat else k)) ∧
     BootOrder.State.devices (BootOrder.moveUp boot_order 2%positive) ≡ₚ
       BootOrder.State.devices boot_order ∧
     BootOrder.moveDown (BootOrder.moveUp boot_order 2%positive) 2%positive = boot_order) ∧
   ((1 + 1 < length boot_devices)%nat →
     (∀ k, BootOrder.State.devices (BootOrder.moveDown boot_order 2%positive) !! k =
           BootOrder.State.devices boot_order !!
             (if decide (k = 1 + 1)%nat then 1%nat
              else if decide (k = 1%nat) then (1 + 1)%nat else k)) ∧
     BootOrder.State.devices (BootOrder.moveDown boot_order 2%positive) ≡ₚ
       BootOrder.State.devices boot_order)) ∧
  BootOrder.State.devices (BootOrder.moveUp boot_order 2%positive) =
    [Some 2%positive; Some 1%positive; Some 3%positive] ∧
  BootOrder.State.devices (BootOrder.moveDown boot_order 2%positive) =
    [Some 1%positive; Some 3%positive; Some 2%positive].
Proof.
  split; [|split; reflexivity].
  apply (BootOrderFacts.move_exchanges_neighbours boot_order boot_devices 2%positive 1).
  - reflexivity.
  - apply (bool_decide_unpack (NoDup boot_devices)). vm_compute. exact I.
  - reflexivity.
Defined.

End Runs.

(** * Further properties of the "Add disk" dialog *)

Module AddDiskMore.
Import AddDisk AddDiskFacts AddDiskRows.

Section MoreFacts.
Context `{ext : Externals}.

(** ** The volumes offered for attaching *)

(** A disk of the machine uses [path]: its source names it, as its file or,
    the file being empty or missing, as its volume. *)
Definition usedBy (disks : list (string * Disk.t)) (path : string) : Prop :=
  ∃ disk, disk ∈ values disks ∧ usedDiskPath disk = Some path ∧ path ≠ "".

Lemma includes_usedDiskPaths (disks : list (string * Disk.t)) (path : string) :
  includes
    (usedDiskPath <$> List.filter (λ disk, truthy (usedDiskPath disk)) (values disks))
    (Some path) = true ↔ usedBy disks path.
Proof.
  unfold includes, usedBy. rewrite bool_decide_eq_true, list_elem_of_fmap.
  split.
  - intros (disk & Hpath & Hin).
    apply list_elem_of_In, List.filter_In in Hin as [Hin Htruthy].
    exists disk. rewrite list_elem_of_In. split; [done|]. split; [done|].
    rewrite <- Hpath in Htruthy. simpl in Htruthy.
    intros ->. by rewrite bool_decide_true in Htruthy.
  - intros (disk & Hin & Hpath & Hne).
    exists disk. split; [done|].
    apply list_elem_of_In, List.filter_In. rewrite <- list_elem_of_In.
    split; [done|]. rewrite Hpath. simpl. by rewrite bool_decide_false.
Qed.

(** X1. [getFilteredVolumes] on a pool whose volumes are known never raises.
    It offers exactly the volumes of the pool that no disk of the machine
    uses, neither by their path nor by their name, each as often as the
    pool lists it. *)
Theorem getFilteredVolumes_available (pool : Pool.t) (volumes : list Volume.t)
    (disks : list (string * Disk.t)) :
  Pool.volumes pool = Some volumes →
  ∃ available,
    getFilteredVolumes (Some pool) disks = Ok available ∧
    (∀ volume, volume ∈ available ↔
       volume ∈ volumes ∧
       ¬ usedBy disks (Volume.path volume) ∧ ¬ usedBy disks (Volume.name volume)) ∧
    (NoDup volumes → NoDup available) ∧
    (length available ≤ length volumes)%nat.
Proof.
  intros Hv. unfold getFilteredVolumes. simpl. rewrite Hv. simpl.
  eexists. split; [reflexivity|]. split; [|split].
  - intros volume.
    rewrite sort_perm, list_elem_of_In, List.filter_In, <- list_elem_of_In.
    rewrite andb_true_iff, !negb_true_iff.
    rewrite <- !not_true_iff_false, !includes_usedDiskPaths. tauto.
  - intros Hnodup. rewrite sort_perm.
    apply NoDup_ListNoDup, List.NoDup_filter, NoDup_ListNoDup, Hnodup.
  - rewrite sort_perm. apply List.filter_length_le.
Qed.

(** ** The order of the volumes offered *)

(** The comparator on the names [names]: one of two names is not greater
    than the other, and not being greater is transitive. *)
Definition consistentOn (names : list string) : Prop :=
  (∀ a b, a ∈ names → b ∈ names →
     (0 < localeCompare a b)%Z → (localeCompare b a ≤ 0)%Z) ∧
  (∀ a b c, a ∈ names → b ∈ names → c ∈ names →
     (localeCompare a b ≤ 0)%Z → (localeCompare b c ≤ 0)%Z → (localeCompare a c ≤ 0)%Z).

(** The same, in a form that can be decided. *)
Definition consistentOnList (names : list string) : Prop :=
  Forall (λ a, Forall (λ b,
    ((0 < localeCompare a b)%Z → (localeCompare b a ≤ 0)%Z) ∧
    Forall (λ c,
      (localeCompare a b ≤ 0)%Z → (localeCompare b c ≤ 0)%Z → (localeCompare a c ≤ 0)%Z)
      names) names) names.

Lemma consistentOnList_consistentOn (names : list string) :
  consistentOnList names → consistentOn names.
Proof.
  unfold consistentOnList, consistentOn. rewrite Forall_forall. intros H. split.
  - intros a b Ha Hb. specialize (H a Ha). rewrite Forall_forall in H.
    by destruct (H b Hb) as [H1 _].
  - intros a b c Ha Hb Hc. specialize (H a Ha). rewrite Forall_forall in H.
    destruct (H b Hb) as [_ H2]. rewrite Forall_forall in H2. by apply H2.
Qed.

Section Sorting.
Context {A : Type} (key : A → string) (D : A → Prop).

Let le (a b : A) : Prop := (localeCompare (key a) (key b) ≤ 0)%Z.

Hypothesis total : ∀ a b, D a → D b →
  (0 < localeCompare (key a) (key b))%Z → le b a.
Hypothesis trans : ∀ a b c, D a → D b → D c → le a b → le b c → le a c.

Lemma sort_insert_sorted (x : A) (l : list A) :
  D x → Forall D l →
  StronglySorted le l →
  StronglySorted le (sort_insert (λ a b, localeCompare (key a) (key b)) x l).
Proof using total trans.
  intros Hx Hl Hsorted. induction Hsorted as [|y l Hsorted IH Hy]; simpl.
  - repeat constructor.
  - apply Forall_cons in Hl as [HDy Hl].
    destruct (Z.leb_spec (localeCompare (key x) (key y)) 0) as [Hle|Hgt].
    + constructor; [by constructor|].
      constructor; [done|].
      rewrite Forall_forall in Hy, Hl |- *. intros z Hz.
      apply (trans x y z); auto.
    + constructor; [by apply IH|].
      rewrite sort_insert_perm. constructor; [|done].
      by apply total.
Qed.

Lemma sort_sorted (l : list A) :
  Forall D l →
  StronglySorted le (sort (λ a b, localeCompare (key a) (key b)) l).
Proof using total trans.
  induction l as [|x l IH]; intros Hl; unfold sort; simpl.
  - constructor.
  - apply Forall_cons in Hl as [Hx Hl].
    apply sort_insert_sorted; [done | | by apply IH].
    fold (sort (λ a b, localeCompare (key a) (key b)) l).
    by rewrite sort_perm.
Qed.

End Sorting.

(** X2. Where [localeCompare] orders the names of the volumes of the pool
    consistently, [getFilteredVolumes] returns them in that order: no
    volume is followed, anywhere later in the list, by one whose name
    compares less. *)
Theorem getFilteredVolumes_sorted (pool : Pool.t) (volumes available : list Volume.t)
    (disks : list (string * Disk.t)) :
  Pool.volumes pool = Some volumes →
  consistentOn (Volume.name <$> volumes) →
  getFilteredVolumes (Some pool) disks = Ok available →
  StronglySorted
    (λ a b, (localeCompare (Volume.name a) (Volume.name b) ≤ 0)%Z) available.
Proof.
  intros Hv [Htotal Htrans]. unfold getFilteredVolumes. simpl. rewrite Hv. simpl.
  intros [= <-].
  apply (sort_sorted Volume.name (λ v, v ∈ volumes)).
  - intros a b Ha Hb. apply Htotal; by apply list_elem_of_fmap_2.
  - intros a b c Ha Hb Hc. apply Htrans; by apply list_elem_of_fmap_2.
  - apply Forall_forall. intros v.
    rewrite list_elem_of_In, List.filter_In, <- list_elem_of_In. tauto.
Qed.

End MoreFacts.
End AddDiskMore.

Module AddDiskClicks.
Import AddDisk AddDiskFacts AddDiskRows.

Section Clicks.
Context `{ext : Externals}.

(** ** The custom-path tab *)

(** X3. In custom-path mode nothing is validated. Whatever the path typed in,
    the empty one too, a click on "Add" issues one [domainAttachDisk] for a
    disk of type [file] and format [raw] that is not shareable; it looks up
    no pool and no volume, sets no state and so leaves the button enabled. *)
Theorem customPath_always_attaches (P : Props.t) (s : State.t) :
  State.mode s = CUSTOM_PATH →
  validateParams P s = Ok ∅ ∧
  ∃ args,
    onAddClicked P s =
      Ok {| queued := [];
            issued := [domainAttachDisk args];
            pending := Some (attachPending (State.vm s) (State.vms s) None None None) |} ∧
    AttachArgs.type args = "file" ∧
    AttachArgs.file args = State.file s ∧
    AttachArgs.device args = State.device s ∧
    AttachArgs.format args = Some "raw" ∧
    AttachArgs.shareable args = false.
Proof.
  intros Hmode.
  assert (validateParams P s = Ok ∅) as Hvalid.
  { unfold validateParams. by rewrite Hmode. }
  split; [done|].
  unfold onAddClicked. rewrite Hvalid, Hmode. simpl.
  eexists. split; [reflexivity|]. by repeat split.
Qed.

(** ** The create-new tab *)

(** What [validateParams] checks in create-new mode, the selected pool
    being [pool]. *)
Definition createNewAccepted (s : State.t) (pool : Pool.t) : bool :=
  truthy (State.storagePoolName s) &&
  truthy (State.volumeName s) &&
  negb (includes (Some <$> poolTypesNotSupportingVolumeCreation) (State.storagePoolType s)) &&
  negb (PrimFloat.ltb (poolCapacity pool (State.unit s)) (State.size s)).

Lemma validateParams_createNew_found (P : Props.t) (s : State.t) (pool : Pool.t) :
  State.mode s = CREATE_NEW →
  List.find (λ pool, str_eq (Pool.name pool) (State.storagePoolName s))
    (Props.storagePools P) = Some pool →
  ∃ validation,
    validateParams P s = Ok validation ∧
    (validation = ∅ ↔ createNewAccepted s pool = true) ∧
    (truthy (State.volumeName s) = false → is_Some (validation !! "volumeName")).
Proof.
  intros Hmode Hfind. unfold validateParams, createNewAccepted.
  rewrite Hmode, Hfind. simpl.
  eexists. split; [reflexivity|].
  destruct (truthy (State.storagePoolName s)), (truthy (State.volumeName s)),
    (includes _ (State.storagePoolType s)),
    (PrimFloat.ltb _ _); simpl;
    (split; [split; [intros Hempty | intros [=]] | intros [=]]);
    try done;
    try (exfalso; revert Hempty; apply insert_non_empty);
    try (rewrite lookup_insert_ne by done);
    try (rewrite lookup_insert_ne by done);
    try (rewrite lookup_insert_eq; by eexists).
Qed.

(** X4. In create-new mode, the selected pool being among the pools of the
    props, a click on "Add" never raises, and it issues
    [storageVolumeCreateAndAttach] exactly when a pool is selected, a
    volume name is entered, the type of the pool supports the creation of
    volumes and the size is not greater than the capacity of the pool.
    Otherwise it issues nothing and leaves nothing pending. *)
Theorem createNew_issues_iff_accepted (P : Props.t) (s : State.t) (pool : Pool.t) :
  State.mode s = CREATE_NEW →
  List.find (λ pool, str_eq (Pool.name pool) (State.storagePoolName s))
    (Props.storagePools P) = Some pool →
  ∃ c,
    onAddClicked P s = Ok c ∧
    if createNewAccepted s pool
    then (∃ args, issued c = [storageVolumeCreateAndAttach args] ∧
            CreateArgs.poolName args = State.storagePoolName s ∧
            CreateArgs.volumeName args = State.volumeName s) ∧
         pending c = Some (createPending (State.vm s))
    else issued c = [] ∧ pending c = None.
Proof.
  intros Hmode Hfind.
  destruct (validateParams_createNew_found P s pool Hmode Hfind)
    as (validation & Hvalid & Hempty & _).
  unfold onAddClicked. rewrite Hvalid. simpl.
  rewrite size_pos_non_empty.
  destruct (createNewAccepted s pool).
  - rewrite bool_decide_false by (intros Hne; apply Hne; by apply Hempty).
    rewrite bool_decide_true by done.
    eexists. split; [reflexivity|]. simpl. split; [|done]. by eexists.
  - rewrite bool_decide_true by (intros Hnil; by apply Hempty in Hnil).
    eexists. split; [reflexivity|]. done.
Qed.

(** ** The dialog as it opens *)

Lemma sort_length {A} (cmp : A → A → Z) (l : list A) : length (sort cmp l) = length l.
Proof. by rewrite sort_perm. Qed.

Lemma defaultPool_is_Some (P : Props.t) :
  Props.storagePools P ≠ [] → is_Some (defaultPool P).
Proof.
  intros Hne. unfold defaultPool.
  destruct (Props.storagePools P) as [|pool pools] eqn:Hpools; [done|].
  rewrite bool_decide_true by (simpl; lia).
  apply head_is_Some. intros Hnil.
  apply (f_equal length) in Hnil. rewrite sort_length in Hnil. done.
Qed.

Lemma find_defaultPool (P : Props.t) (name type : string) :
  defaultPool P = Some (name, type) →
  is_Some (List.find (λ pool, str_eq (Pool.name pool) (Some name)) (Props.storagePools P)).
Proof.
  intros Hdefault.
  destruct (defaultPool_elem_of P name type Hdefault) as (pool & Hin & Hname & _).
  apply (find_is_Some _ _ pool Hin). unfold str_eq. by rewrite Hname, bool_decide_true.
Qed.

(** X5. Opening the dialog for a machine that has storage pools preselects a
    pool of the props, with its own type. A click on "Add" on the dialog
    just opened never raises and issues no call: no volume name has been
    entered yet, so the click only turns the validation on. *)
Theorem opened_click_only_validates (P : Props.t) (constructed : State.t) :
  Props.storagePools P ≠ [] →
  let opened := initialState P (State.set_dialogLoading false constructed) in
  (∃ pool, pool ∈ Props.storagePools P ∧
     State.storagePoolName opened = Some (Pool.name pool) ∧
     State.storagePoolType opened = Some (Pool.type pool)) ∧
  State.dialogLoading opened = false ∧
  ∃ c next,
    onAddClicked P opened = Ok c ∧
    issued c = [] ∧ pending c = None ∧
    flush (queued c) opened = Ok next ∧
    State.validate next = true ∧ State.addDiskInProgress next = false ∧
    formFields next = formFields opened.
Proof.
  intros Hne opened.
  destruct (defaultPool_is_Some P Hne) as [[name type] Hdefault].
  destruct (find_defaultPool P name type Hdefault) as [pool Hfind].
  split; [|split; [done|]].
  - destruct (defaultPool_elem_of P name type Hdefault) as (pool' & Hin & <- & <-).
    exists pool'. subst opened. simpl. by rewrite Hdefault.
  - assert (State.storagePoolName opened = Some name) as Hname.
    { subst opened. simpl. by rewrite Hdefault. }
    destruct (validateParams_createNew_found P opened pool) as (validation & Hvalid & _ & Hvol).
    { done. }
    { by rewrite Hname. }
    destruct (Hvol eq_refl) as [message Hmessage].
    unfold onAddClicked. rewrite Hvalid. simpl.
    rewrite size_pos_non_empty, bool_decide_true.
    2: { intros ->. by rewrite lookup_empty in Hmessage. }
    eexists _, _. split; [reflexivity|]. simpl. by repeat split.
Qed.

(** ** A submission that is fulfilled *)

(** The call that marks a disk of a machine as shareable. *)
Definition marksShareable (e : Effect) : Prop :=
  ∃ connectionName objPath target,
    e = call (domainUpdateDiskAttributes connectionName objPath false true target).

Lemma mapM_marksShareable (vms : list VM.t) (storagePool : option Pool.t)
    (volumeName : option string) (vmNames : list string) (promises : list Effect) :
  mapM (λ vmName,
    let vm := List.find (λ vm, bool_decide (VM.name vm = vmName)) vms in
    let diskTarget := getStorageVolumeDiskTarget vm storagePool volumeName in
    vm ← deref "connectionName" vm;
    Ok (call (domainUpdateDiskAttributes (VM.connectionName vm) (VM.id vm)
                false true diskTarget))) vmNames = Ok promises →
  Forall marksShareable promises ∧ length promises = length vmNames.
Proof.
  revert promises. induction vmNames as [|vmName vmNames IH]; intros promises; simpl.
  - intros [= <-]. by split.
  - destruct (List.find _ vms) as [vm'|]; [simpl | done].
    destruct (mapM _ vmNames) as [promises'|]; [simpl | done].
    intros [= <-]. destruct (IH promises' eq_refl) as [Hall Hlen].
    split; [|simpl; by rewrite Hlen].
    apply Forall_cons_2; [|done]. by eexists _, _, _.
Qed.

(** X6. When the promise of a submission is fulfilled and its callback runs to
    its end, the last thing it does is to reload the machine with
    [domainGet]; just before, it closes the dialog, at once or when the
    updates it has issued are settled; and all it issues besides are
    [domainUpdateDiskAttributes] calls that mark disks as shareable and not
    read-only. A create-new submission issues none of these. *)
Theorem onFulfilled_reloads_and_closes (p : Pending) (now : State.t)
    (effects : list Effect) :
  onFulfilled p now = Ok effects →
  let vm := match p with createPending vm => vm | attachPending vm _ _ _ _ => vm end in
  ∃ updates closing,
    effects = updates ++
              [closing; call (domainGet (VM.connectionName vm) (VM.name vm) (VM.id vm))] ∧
    Forall marksShareable updates ∧
    (closing = close ∧ updates = [] ∨ closing = closeWhenSettled) ∧
    (∀ vm', p = createPending vm' → closing = close).
Proof.
  destruct p as [vm | vm vms storagePool volume isVolumeUsed]; simpl.
  { intros [= <-]. exists [], close. split; [done|]. split; [done|]. split; [by left | done]. }
  assert (∃ updates closing,
      [close; call (domainGet (VM.connectionName vm) (VM.name vm) (VM.id vm))] =
        updates ++ [closing; call (domainGet (VM.connectionName vm) (VM.name vm) (VM.id vm))] ∧
      Forall marksShareable updates ∧
      (closing = close ∧ updates = [] ∨ closing = closeWhenSettled) ∧
      (∀ vm', attachPending vm vms storagePool volume isVolumeUsed = createPending vm' →
         closing = close)) as Hplain.
  { exists [], close. split; [done|]. split; [done|]. split; [by left | done]. }
  case_bool_decide; [|by intros [= <-]].
  destruct volume as [volume|]; [simpl | done].
  case_bool_decide; [|by intros [= <-]].
  destruct isVolumeUsed as [isVolumeUsed|]; [simpl | done].
  destruct (usage isVolumeUsed _) as [vmNames|]; [|by intros [= <-]].
  destruct (mapM _ vmNames) as [promises|] eqn:Hmap; [simpl | done].
  intros [= <-]. apply mapM_marksShareable in Hmap as [Hall _].
  exists promises, closeWhenSettled. split; [done|]. split; [done|]. split; [by right | done].
Qed.

End Clicks.
End AddDiskClicks.

Module AddDiskChanges.
Import AddDisk AddDiskFacts AddDiskRows.

Section Changes.
Context `{ext : Externals}.

(** ** What the handlers leave alone *)

(** An update that leaves [f] of the state as it is. *)
Definition keeps {B : Type} (f : State.t → B) (u : Update) : Prop :=
  ∀ x x', u x = Ok x' → f x' = f x.

Lemma flush_keeps {B : Type} (f : State.t → B) (queue : list Update) (s s' : State.t) :
  Forall (keeps f) queue → flush queue s = Ok s' → f s' = f s.
Proof.
  intros Hall. revert s. induction Hall as [|u queue Hu _ IH]; intros s; simpl.
  - by intros [= <-].
  - destruct (u s) as [s1|] eqn:Hs1; [simpl | done].
    intros Hflush. rewrite (IH _ Hflush). by apply Hu.
Qed.

Lemma patch_keeps {B : Type} (f : State.t → B) (d : Delta) :
  (∀ x, f (d x) = f x) → keeps f (patch d).
Proof. intros Hd x x'. unfold patch. intros [= <-]. apply Hd. Qed.

Lemma keeps_existingVolumeName {B : Type} (f : State.t → B) (s : State.t)
    (value : option string) :
  (∀ format name x, f (State.set_format format (State.set_existingVolumeName name x)) = f x) →
  Forall (keeps f) (onExistingVolumeName s value).
Proof.
  intros Hf. apply Forall_cons_2; [|apply Forall_nil_2].
  intros x x'. simpl.
  destruct (existingVolumeNameDelta s value (State.storagePoolName x)) as [delta|] eqn:Hdelta;
    [simpl | done].
  intros [= <-].
  destruct (existingVolumeNameDelta_shape s value _ delta Hdelta x) as [format ->].
  apply Hf.
Qed.

(** The validation flag, the loading flag and the error shown. *)
Definition shownFlags (s : State.t) :=
  (State.validate s, State.dialogLoading s, State.dialogError s, State.dialogErrorDetail s).

Lemma onValueChanged_keeps_shownFlags (P : Props.t) (s : State.t) (key : Key.t)
    (queue : list Update) :
  onValueChanged P s key = Ok queue → Forall (keeps shownFlags) queue.
Proof.
  assert (∀ value, Forall (keeps shownFlags) (onBusType P value)) as Hbus.
  { intros value. apply Forall_cons_2; [by apply patch_keeps | apply Forall_nil_2]. }
  assert (∀ value, Forall (keeps shownFlags) (onDevice P s value)) as Hdevice.
  { intros value. unfold onDevice. apply Forall_cons_2; [by apply patch_keeps|].
    destruct (busOfDevice P value) as [bus|]; [destruct (truthy _)|];
      try apply Hbus; destruct (_ && _); try apply Hbus; apply Forall_nil_2. }
  destruct key as [value|value|value|value|value|value|value|value|value|value|value|value];
    simpl.
  - unfold onStoragePoolName.
    destruct (poolOfVm s (Some value)) as [current|]; [simpl | done].
    assert (Forall (keeps shownFlags)
              (match poolOfVm s (State.storagePoolName s) with
               | Some prevPool =>
                   if (isDisk current && negb (isDisk prevPool)) ||
                      (negb (isDisk current) && isDisk prevPool)
                   then onDefault (Key.format (getDefaultVolumeFormat (OfString value)))
                   else []
               | None => []
               end)) as Hq2.
    { destruct (poolOfVm s (State.storagePoolName s)); [|apply Forall_nil_2].
      destruct (_ || _); [|apply Forall_nil_2].
      apply Forall_cons_2; [by apply patch_keeps | apply Forall_nil_2]. }
    case_bool_decide.
    + destruct (getDefaultVolumeName s value) as [name|]; [simpl | done].
      intros [= <-]. apply Forall_cons_2; [by apply patch_keeps|]. simpl.
      apply Forall_app. split; [done|]. by apply keeps_existingVolumeName.
    + intros [= <-]. apply Forall_cons_2; [by apply patch_keeps|]. simpl.
      exact Hq2.
  - intros [= <-]. by apply keeps_existingVolumeName.
  - intros [= <-]. apply Forall_cons_2; [|apply Forall_nil_2].
    intros x x'. case_bool_decide; [|by intros [= <-]].
    destruct (fst <$> defaultPool P) as [name|] eqn:Hname; simpl; rewrite Hname;
      [|by intros [= <-]].
    destruct (truthy (Some name)); [|by intros [= <-]].
    destruct (getDefaultVolumeName s name) as [volume|]; [simpl | done].
    destruct (existingVolumeNameDelta s volume (State.storagePoolName x)) as [delta|] eqn:Hdelta;
      [simpl | done].
    intros [= <-].
    by destruct (existingVolumeNameDelta_shape s volume _ delta Hdelta
                   (State.set_mode value (initialState P x))) as [format ->].
  - intros [= <-]. apply Hbus.
  - intros [= <-]. unfold onFile. apply Forall_app. split.
    + destruct (endsWith value ".iso"); [apply Hdevice | apply Forall_nil_2].
    + apply Forall_cons_2; [by apply patch_keeps | apply Forall_nil_2].
  - intros [= <-]. apply Hdevice.
  - intros [= <-]. apply Forall_cons_2; [by apply patch_keeps | apply Forall_nil_2].
  - intros [= <-]. apply Forall_cons_2; [by apply patch_keeps | apply Forall_nil_2].
  - intros [= <-]. apply Forall_cons_2; [by apply patch_keeps | apply Forall_nil_2].
  - intros [= <-]. apply Forall_cons_2; [by apply patch_keeps | apply Forall_nil_2].
  - intros [= <-]. apply Forall_cons_2; [by apply patch_keeps | apply Forall_nil_2].
  - intros [= <-]. apply Forall_cons_2; [by apply patch_keeps | apply Forall_nil_2].
Qed.

(** X7. No change of a form control, the switch of the tab included, touches
    the validation flag, the loading flag or the error shown; and no click
    on "Add" touches the loading flag or the error. An error, once shown,
    stays for as long as the dialog is edited and submitted. *)
Theorem error_never_cleared (P : Props.t) (s s' : State.t) :
  (∀ key, valueChanged P s key = Ok s' → shownFlags s' = shownFlags s) ∧
  (∀ c, onAddClicked P s = Ok c → flush (queued c) s = Ok s' →
     State.dialogLoading s' = State.dialogLoading s ∧
     State.dialogError s' = State.dialogError s ∧
     State.dialogErrorDetail s' = State.dialogErrorDetail s).
Proof.
  split.
  - intros key. unfold valueChanged.
    destruct (onValueChanged P s key) as [queue|] eqn:Hqueue; [simpl | done].
    apply flush_keeps. by apply (onValueChanged_keeps_shownFlags P s key).
  - intros c. unfold onAddClicked.
    destruct (validateParams P s) as [validation|]; [simpl | done].
    case_bool_decide; [by intros [= <-] [= <-]|].
    case_bool_decide; [by intros [= <-] [= <-]|].
    destruct (if bool_decide (State.mode s = USE_EXISTING) then _ else _)
      as [[[storagePool volume] isVolumeUsed]|]; [simpl | done].
    by intros [= <-] [= <-].
Qed.

(** ** The target and the bus *)

(** The target of the state is the next available one for its bus, among
    the disks of the machine of the props. *)
Definition targetFollowsBus (P : Props.t) (s : State.t) : Prop :=
  State.target s =
    getNextAvailableTarget (getOwnPropertyNames (VM.disks (Props.vm P))) (State.busType s).

Lemma flush_targetFollowsBus (P : Props.t) (queue : list Update) (s s' : State.t) :
  Forall (λ u, ∀ x x', u x = Ok x' → targetFollowsBus P x → targetFollowsBus P x') queue →
  flush queue s = Ok s' → targetFollowsBus P s → targetFollowsBus P s'.
Proof.
  intros Hall. revert s. induction Hall as [|u queue Hu _ IH]; intros s; simpl.
  - by intros [= <-].
  - destruct (u s) as [s1|] eqn:Hs1; [simpl | done].
    intros Hflush Hs. apply (IH _ Hflush). by apply (Hu s).
Qed.

Lemma keeps_targetFollowsBus (P : Props.t) (u : Update) :
  keeps (λ s, (State.target s, State.busType s)) u →
  ∀ x x', u x = Ok x' → targetFollowsBus P x → targetFollowsBus P x'.
Proof.
  intros Hu x x' Hx. unfold targetFollowsBus.
  pose proof (Hu x x' Hx) as Heq. simpl in Heq.
  injection Heq as Htarget Hbus. by rewrite Htarget, Hbus.
Qed.

Lemma Forall_keeps_targetFollowsBus (P : Props.t) (queue : list Update) :
  Forall (keeps (λ s, (State.target s, State.busType s))) queue →
  Forall (λ u, ∀ x x', u x = Ok x' → targetFollowsBus P x → targetFollowsBus P x') queue.
Proof. intros Hall. eapply Forall_impl; [exact Hall|]. apply keeps_targetFollowsBus. Qed.

(** X8. The target follows the bus when the dialog opens, and every change of
    a form control, whatever the key, keeps it so: as long as the props
    show the same disks of the machine, the target the dialog submits is
    the next available one for the bus it submits. *)
Theorem target_follows_bus (P : Props.t) (s s' : State.t) (key : Key.t) :
  targetFollowsBus P (initialState P s) ∧
  (targetFollowsBus P s → valueChanged P s key = Ok s' → targetFollowsBus P s').
Proof.
  split; [done|].
  intros Hs. unfold valueChanged.
  destruct (onValueChanged P s key) as [queue|] eqn:Hqueue; [simpl | done].
  intros Hflush. apply (flush_targetFollowsBus P queue s s'); [|done..].
  clear Hflush Hs.
  assert (∀ value,
    Forall (λ u, ∀ x x', u x = Ok x' → targetFollowsBus P x → targetFollowsBus P x')
      (onBusType P value)) as Hbus.
  { intros value. apply Forall_cons_2; [|apply Forall_nil_2].
    intros x x'. unfold patch. by intros [= <-]. }
  assert (∀ value,
    Forall (λ u, ∀ x x', u x = Ok x' → targetFollowsBus P x → targetFollowsBus P x')
      (onDevice P s value)) as Hdevice.
  { intros value. unfold onDevice.
    apply Forall_cons_2; [apply keeps_targetFollowsBus; by apply patch_keeps|].
    destruct (busOfDevice P value) as [bus|]; [destruct (truthy _)|];
      try apply Hbus; destruct (_ && _); try apply Hbus; apply Forall_nil_2. }
  destruct key as [value|value|value|value|value|value|value|value|value|value|value|value];
    simpl in Hqueue.
  - apply Forall_keeps_targetFollowsBus.
    revert Hqueue. unfold onStoragePoolName.
    destruct (poolOfVm s (Some value)) as [current|]; [simpl | done].
    assert (Forall (keeps (λ s, (State.target s, State.busType s)))
              (match poolOfVm s (State.storagePoolName s) with
               | Some prevPool =>
                   if (isDisk current && negb (isDisk prevPool)) ||
                      (negb (isDisk current) && isDisk prevPool)
                   then onDefault (Key.format (getDefaultVolumeFormat (OfString value)))
                   else []
               | None => []
               end)) as Hq2.
    { destruct (poolOfVm s (State.storagePoolName s)); [|apply Forall_nil_2].
      destruct (_ || _); [|apply Forall_nil_2].
      apply Forall_cons_2; [by apply patch_keeps | apply Forall_nil_2]. }
    case_bool_decide.
    + destruct (getDefaultVolumeName s value) as [name|]; [simpl | done].
      intros [= <-]. apply Forall_cons_2; [by apply patch_keeps|]. simpl.
      apply Forall_app. split; [done|]. by apply keeps_existingVolumeName.
    + intros [= <-]. apply Forall_cons_2; [by apply patch_keeps|]. simpl.
      exact Hq2.
  - injection Hqueue as <-. apply Forall_keeps_targetFollowsBus.
    by apply keeps_existingVolumeName.
  - injection Hqueue as <-. apply Forall_cons_2; [|apply Forall_nil_2].
    intros x x' Hx _. revert Hx.
    case_bool_decide; [|by intros [= <-]].
    destruct (fst <$> defaultPool P) as [name|] eqn:Hname; simpl; rewrite Hname;
      [|by intros [= <-]].
    destruct (truthy (Some name)); [|by intros [= <-]].
    destruct (getDefaultVolumeName s name) as [volume|]; [simpl | done].
    destruct (existingVolumeNameDelta s volume (State.storagePoolName x)) as [delta|] eqn:Hdelta;
      [simpl | done].
    intros [= <-].
    by destruct (existingVolumeNameDelta_shape s volume _ delta Hdelta
                   (State.set_mode value (initialState P x))) as [format ->].
  - injection Hqueue as <-. apply Hbus.
  - injection Hqueue as <-. unfold onFile. apply Forall_app. split.
    + destruct (endsWith value ".iso"); [apply Hdevice | apply Forall_nil_2].
    + apply Forall_cons_2; [|apply Forall_nil_2].
      apply keeps_targetFollowsBus. by apply patch_keeps.
  - injection Hqueue as <-. apply Hdevice.
  - injection Hqueue as <-. apply Forall_keeps_targetFollowsBus.
    apply Forall_cons_2; [by apply patch_keeps | apply Forall_nil_2].
  - injection Hqueue as <-. apply Forall_keeps_targetFollowsBus.
    apply Forall_cons_2; [by apply patch_keeps | apply Forall_nil_2].
  - injection Hqueue as <-. apply Forall_keeps_targetFollowsBus.
    apply Forall_cons_2; [by apply patch_keeps | apply Forall_nil_2].
  - injection Hqueue as <-. apply Forall_keeps_targetFollowsBus.
    apply Forall_cons_2; [by apply patch_keeps | apply Forall_nil_2].
  - injection Hqueue as <-. apply Forall_keeps_targetFollowsBus.
    apply Forall_cons_2; [by apply patch_keeps | apply Forall_nil_2].
  - injection Hqueue as <-. apply Forall_keeps_targetFollowsBus.
    apply Forall_cons_2; [by apply patch_keeps | apply Forall_nil_2].
Qed.

(** ** Switching the tab *)

Lemma mode_changed_shape (P : Props.t) (s s' : State.t) (m : string) :
  valueChanged P s (Key.mode m) = Ok s' →
  ∃ format name,
    s' = State.set_format format
           (State.set_existingVolumeName name (State.set_mode m (initialState P s))).
Proof.
  unfold valueChanged. simpl.
  assert (∃ format name,
    State.set_mode m (initialState P s) =
    State.set_format format
      (State.set_existingVolumeName name (State.set_mode m (initialState P s)))) as Hplain.
  { by exists (initialFormat P), None. }
  case_bool_decide; [|by intros [= <-]].
  destruct (fst <$> defaultPool P) as [name|]; [|by intros [= <-]].
  destruct (truthy (Some name)); [|by intros [= <-]].
  destruct (getDefaultVolumeName s name) as [volume|]; [simpl | done].
  destruct (existingVolumeNameDelta s volume _) as [delta|] eqn:Hdelta; [simpl | done].
  destruct (existingVolumeNameDelta_shape s volume _ delta Hdelta
              (State.set_mode m (initialState P s))) as [format Hshape].
  intros [= <-]. by eexists _, _.
Qed.

(** X9. A switch of the tab, to whatever mode, forgets what was entered: file,
    device, bus, size, unit, cache mode and volume name are those of a
    dialog just opened, the pools and the machine are read from the props
    again. It also clears [addDiskInProgress]: where the dialog has pools
    to offer or the new tab is custom-path, the "Add" button is enabled
    after the switch, also while a submission is still pending. *)
Theorem mode_switch_forgets (P : Props.t) (s s' : State.t) (m : string) :
  valueChanged P s (Key.mode m) = Ok s' →
  (State.storagePools s', State.vm s', State.vms s', State.file s', State.device s',
   State.storagePoolName s', State.storagePoolType s', State.volumeName s',
   State.size s', State.unit s', State.target s', State.permanent s', State.hotplug s',
   State.cacheMode s', State.busType s', State.updateDisks s') =
  (let i := initialState P s in
   (State.storagePools i, State.vm i, State.vms i, State.file i, State.device i,
    State.storagePoolName i, State.storagePoolType i, State.volumeName i,
    State.size i, State.unit i, State.target i, State.permanent i, State.hotplug i,
    State.cacheMode i, State.busType i, State.updateDisks i)) ∧
  State.mode s' = m ∧
  State.addDiskInProgress s' = false ∧
  (State.dialogLoading s = false →
   Props.storagePools P ≠ [] ∨ m = CUSTOM_PATH →
   addDisabled s' = false).
Proof.
  intros Hchanged.
  destruct (mode_changed_shape P s s' m Hchanged) as (format & name & ->).
  split; [done|]. split; [done|]. split; [done|].
  intros Hloading Hpools. unfold addDisabled. simpl.
  rewrite Hloading. simpl. destruct Hpools as [Hpools | ->].
  - rewrite bool_decide_false; [done|].
    by destruct (Props.storagePools P).
  - rewrite (bool_decide_false (CUSTOM_PATH ≠ CUSTOM_PATH)) by (by intros H).
    apply andb_false_r.
Qed.

(** ** Choosing a file *)

Lemma device_changed (P : Props.t) (s : State.t) (value : string) :
  ∃ s', flush (onDevice P s value) s = Ok s' ∧ State.device s' = value ∧
        State.file s' = State.file s.
Proof.
  unfold onDevice. rewrite flush_patch.
  destruct (busOfDevice P value) as [bus|]; [destruct (truthy _)|];
    try (by eexists); destruct (_ && _); by eexists.
Qed.

(** X10. Entering a path never raises. A path that ends in [.iso] also selects
    the device [cdrom], with all that choosing this device on the form
    does to bus and target; any other path changes the field [file] and
    nothing else. *)
Theorem file_changed (P : Props.t) (s : State.t) (value : string) :
  ∃ s',
    valueChanged P s (Key.file value) = Ok s' ∧
    State.file s' = value ∧
    if endsWith value ".iso"
    then State.device s' = "cdrom" ∧
         ∃ s1, valueChanged P s (Key.device "cdrom") = Ok s1 ∧ s' = State.set_file value s1
    else s' = State.set_file value s.
Proof.
  unfold valueChanged. simpl. unfold onFile.
  destruct (endsWith value ".iso").
  - destruct (device_changed P s "cdrom") as (s1 & Hs1 & Hdevice & _).
    exists (State.set_file value s1).
    rewrite (flush_app _ _ s s1 Hs1). simpl.
    split; [done|]. split; [done|]. split; [done|]. by exists s1.
  - simpl. by eexists.
Qed.

(** ** Choosing a volume and attaching it *)

(** X11. In use-existing mode, the selected pool being on the connection of the
    machine with its volumes known: choosing the volume [volume] of the
    pool and then clicking "Add" issues one [domainAttachDisk] of type
    [volume] for this pool and this volume. The format sent is the one
    recorded for the volume if the pool is file based and the volume has
    one, the default format of the pool otherwise; the disk is marked
    shareable exactly when the volume is raw and the usage table has an
    entry for its name. *)
Theorem chosen_volume_is_attached (P : Props.t) (s : State.t) (pool : Pool.t)
    (volumes : list Volume.t) (volume : Volume.t) :
  State.mode s = USE_EXISTING →
  poolNamed s (State.storagePoolName s) = Some pool →
  Pool.connectionName pool = VM.connectionName (State.vm s) →
  Pool.name pool ≠ "" →
  Pool.volumes pool = Some volumes →
  List.find (λ vol, str_eq (Volume.name vol) (Some (Volume.name volume))) volumes
    = Some volume →
  Volume.name volume ≠ "" →
  ∃ s' args,
    valueChanged P s (Key.existingVolumeName (Some (Volume.name volume))) = Ok s' ∧
    onAddClicked P s' =
      Ok {| queued := [];
            issued := [domainAttachDisk args];
            pending := Some (attachPending (State.vm s) (State.vms s) (Some pool)
                               (Some volume)
                               (Some (getStorageVolumesUsage (State.vms s) pool))) |} ∧
    AttachArgs.type args = "volume" ∧
    AttachArgs.poolName args = Some (Pool.name pool) ∧
    AttachArgs.volumeName args = Some (Volume.name volume) ∧
    AttachArgs.format args =
      (if includes (Some <$> fileBasedTypes) (Some (Pool.type pool)) &&
          truthy (Volume.format volume)
       then Volume.format volume
       else getDefaultVolumeFormat (OfPool pool)) ∧
    AttachArgs.shareable args =
      (bool_decide (Volume.format volume = Some "raw") &&
       bool_decide (is_Some (getStorageVolumesUsage (State.vms s) pool
                               !! Volume.name volume))).
Proof.
  intros Hmode Hnamed Hconn Hpool Hvolumes Hfind Hvolume.
  assert (State.storagePoolName s = Some (Pool.name pool)) as Hname.
  { unfold poolNamed in Hnamed. apply find_elem_of in Hnamed as [_ Heq].
    unfold str_eq in Heq. by apply bool_decide_eq_true in Heq. }
  assert (poolOfVm s (State.storagePoolName s) = Some pool) as HofVm.
  { revert Hnamed. unfold poolNamed, poolOfVm.
    induction (State.storagePools s) as [|pool' pools IH]; simpl; [done|].
    destruct (str_eq (Pool.name pool') (State.storagePoolName s)); simpl; [|done].
    intros [= ->]. by rewrite bool_decide_true. }
  destruct (existingVolumeNameDelta_found s (Some (Volume.name volume))
              (State.storagePoolName s) pool HofVm) as (delta & Hdelta & Hshape);
    [by eexists|].
  eexists _, _. split.
  { unfold valueChanged. simpl. rewrite Hdelta. simpl. by rewrite Hshape. }
  assert (∀ format,
    validateParams P (State.set_format format
       (State.set_existingVolumeName (Some (Volume.name volume)) s)) = Ok ∅) as Hvalid.
  { intros format. unfold validateParams. simpl. rewrite Hmode, Hname. simpl.
    by rewrite !bool_decide_false. }
  split.
  { unfold onAddClicked. rewrite Hvalid. simpl. rewrite Hmode. simpl.
    unfold poolNamed in *. simpl. rewrite Hnamed. simpl. rewrite Hvolumes. simpl.
    rewrite Hfind. reflexivity. }
  simpl. rewrite Hname. split; [done|]. split; [done|]. split; [done|].
  split; [|done].
  unfold derivedFormat. rewrite Hvolumes. simpl. rewrite Hfind.
  destruct (includes _ _); simpl; [|done].
  destruct (truthy (Volume.format volume)) eqn:Htruthy; [|done].
  by destruct (Volume.format volume).
Qed.

End Changes.
End AddDiskChanges.

Module AddDiskRowFacts.
Import AddDisk AddDiskFacts AddDiskRows.

(** ** The bus select *)

(** X12. For a device the table [diskBusTypes] lists, the options of the bus
    select are, enabled, the buses of the table the hypervisor supports,
    and the current bus of the dialog is always among the options: where
    it is none of these buses it is added as the one disabled option. *)
Theorem displayBusTypes_offers_current (diskBusTypes : string → option (list string))
    (supportedDiskBusTypes : list string) (device busType : string) (types : list string) :
  diskBusTypes device = Some types →
  ∃ options,
    displayBusTypes diskBusTypes supportedDiskBusTypes device busType = Ok options ∧
    busType ∈ options.*1 ∧
    (∀ value, (value, false) ∈ options ↔ value ∈ types ∧ value ∈ supportedDiskBusTypes) ∧
    (∀ value, (value, true) ∈ options ↔
       value = busType ∧ ¬ (busType ∈ types ∧ busType ∈ supportedDiskBusTypes)).
Proof.
  intros Htypes. unfold displayBusTypes. rewrite Htypes. simpl.
  set (enabled := (λ type : string, (type, false)) <$>
         List.filter (λ bus, bool_decide (bus ∈ supportedDiskBusTypes)) types).
  assert (∀ value disabled, (value, disabled) ∈ enabled ↔
            disabled = false ∧ value ∈ types ∧ value ∈ supportedDiskBusTypes) as Henabled.
  { intros value disabled. subst enabled. rewrite list_elem_of_fmap. split.
    - intros (type & [= -> ->] & Hin).
      apply list_elem_of_In, List.filter_In in Hin as [Hin Hsup].
      apply bool_decide_eq_true in Hsup. by rewrite list_elem_of_In.
    - intros (-> & Hin & Hsup). exists value. split; [done|].
      apply list_elem_of_In, List.filter_In. rewrite <- list_elem_of_In.
      split; [done|]. by apply bool_decide_eq_true. }
  destruct (List.find _ enabled) as [[value disabled]|] eqn:Hfind.
  - apply find_elem_of in Hfind as [Hin Heq]. simpl in Heq.
    apply bool_decide_eq_true in Heq. subst value.
    pose proof (proj1 (Henabled _ _) Hin) as (-> & Htype & Hsup).
    eexists. split; [reflexivity|]. split; [|split].
    + apply list_elem_of_fmap. by exists (busType, false).
    + intros value. rewrite Henabled. tauto.
    + intros value. rewrite Henabled. split; [by intros [[=] _] | tauto].
  - assert (¬ (busType ∈ types ∧ busType ∈ supportedDiskBusTypes)) as Hnot.
    { intros [Htype Hsup].
      assert ((busType, false) ∈ enabled) as Hin by (by apply Henabled).
      apply list_elem_of_In in Hin.
      pose proof (List.find_none _ _ Hfind _ Hin) as Hne. simpl in Hne.
      by rewrite bool_decide_true in Hne. }
    eexists. split; [reflexivity|]. split; [|split].
    + rewrite fmap_app. apply elem_of_app. right. simpl. apply list_elem_of_singleton. done.
    + intros value. rewrite elem_of_app, list_elem_of_singleton, Henabled.
      split; [intros [H|[=]]; tauto | tauto].
    + intros value. rewrite elem_of_app, list_elem_of_singleton, Henabled.
      split.
      * intros [[[=] _]|[= ->]]. done.
      * intros [-> _]. by right.
Qed.

Section RowFacts.
Context `{ext : Externals}.

(** ** The pool select *)

Lemma includes_Some (l : list string) (x : string) :
  includes (Some <$> l) (Some x) = bool_decide (x ∈ l).
Proof.
  unfold includes. apply bool_decide_ext. rewrite list_elem_of_fmap. split.
  - by intros (y & [= <-] & Hy).
  - intros Hx. by exists x.
Qed.

Lemma sort_insert_fmap {A B : Type} (f : A → B) (cmp : B → B → Z) (x : A) (l : list A) :
  f <$> sort_insert (λ a b, cmp (f a) (f b)) x l = sort_insert cmp (f x) (f <$> l).
Proof.
  induction l as [|y l IH]; simpl; [done|].
  destruct (cmp (f x) (f y) <=? 0)%Z; simpl; [done|]. f_equal. apply IH.
Qed.

Lemma sort_fmap {A B : Type} (f : A → B) (cmp : B → B → Z) (l : list A) :
  f <$> sort (λ a b, cmp (f a) (f b)) l = sort cmp (f <$> l).
Proof.
  induction l as [|x l IH]; [done|].
  change (sort (λ a b, cmp (f a) (f b)) (x :: l))
    with (sort_insert (λ a b, cmp (f a) (f b)) x (sort (λ a b, cmp (f a) (f b)) l)).
  by rewrite sort_insert_fmap, IH.
Qed.

Lemma sorted_names_of_marked {B : Type} (mark : Pool.t → B) (pools : list Pool.t) :
  (λ pool : Pool.t * B, Pool.name pool.1) <$>
    sort (λ a b, localeCompare (Pool.name a.1) (Pool.name b.1))
      ((λ pool, (pool, mark pool)) <$> pools) =
  sort localeCompare (Pool.name <$> pools).
Proof.
  rewrite (sort_fmap (λ pool : Pool.t * B, Pool.name pool.1) localeCompare).
  by rewrite <- list_fmap_compose.
Qed.

Lemma options_names {B : Type} (mark : Pool.t → B) (pools : list Pool.t) :
  ((λ pool : Pool.t * B, (Pool.name pool.1, pool.2)) <$>
     sort (λ a b, localeCompare (Pool.name a.1) (Pool.name b.1))
       ((λ pool, (pool, mark pool)) <$> pools)).*1 =
  sort localeCompare (Pool.name <$> pools).
Proof. rewrite <- list_fmap_compose. exact (sorted_names_of_marked mark pools). Qed.

Lemma head_fmap {A B : Type} (f : A → B) (l : list A) : head (f <$> l) = f <$> head l.
Proof. by destruct l. Qed.

Lemma defaultPool_names (P : Props.t) :
  fst <$> defaultPool P =
  if bool_decide (0 < length (Props.storagePools P))%nat
  then head (sort localeCompare (Pool.name <$> Props.storagePools P))
  else None.
Proof.
  unfold defaultPool. case_bool_decide; [|done].
  rewrite <- head_fmap. f_equal.
  rewrite (sort_fmap (fst : string * string → string) localeCompare). f_equal.
  by rewrite <- list_fmap_compose.
Qed.

(** X13. The pool select of the create-new tab, for a machine that has pools,
    lists every pool of the state once, by its name; the option of a pool
    is disabled exactly when the type of the pool is one of those that do
    not support the creation of volumes. On the use-existing tab the same
    names are listed in the same order and no option is disabled. *)
Theorem poolRow_options (storagePoolName : option string)
    (validationFailed : gmap string string) (vmStoragePools : list Pool.t) :
  vmStoragePools ≠ [] →
  let creating := PoolRow storagePoolName validationFailed (createNewPools vmStoragePools) in
  let existing := PoolRow storagePoolName validationFailed (useExistingPools vmStoragePools) in
  (options creating).*1 ≡ₚ Pool.name <$> vmStoragePools ∧
  (∀ name disabled, (name, disabled) ∈ options creating ↔
     ∃ pool, pool ∈ vmStoragePools ∧ name = Pool.name pool ∧
             disabled = bool_decide (Pool.type pool ∈ poolTypesNotSupportingVolumeCreation)) ∧
  (options existing).*1 = (options creating).*1 ∧
  Forall (λ option, option.2 = false) (options existing).
Proof.
  intros Hne creating existing.
  assert (0 < length vmStoragePools)%nat as Hlen.
  { destruct vmStoragePools; [done | simpl; lia]. }
  assert ((options creating).*1 = sort localeCompare (Pool.name <$> vmStoragePools)) as Hcreating.
  { subst creating. unfold PoolRow, createNewPools. simpl.
    rewrite length_fmap, bool_decide_true by done.
    exact (options_names _ _). }
  assert ((options existing).*1 = sort localeCompare (Pool.name <$> vmStoragePools)) as Hexisting.
  { subst existing. unfold PoolRow, useExistingPools. simpl.
    rewrite length_fmap, bool_decide_true by done.
    exact (options_names _ _). }
  split; [|split; [|split]].
  - rewrite Hcreating. apply sort_perm.
  - intros name disabled. subst creating. unfold PoolRow, createNewPools. simpl.
    rewrite length_fmap, bool_decide_true by done.
    rewrite list_elem_of_fmap. split.
    + intros ([pool mark] & [= -> ->] & Hin). rewrite sort_perm in Hin.
      apply list_elem_of_fmap in Hin as (pool' & [= -> ->] & Hin).
      exists pool'. split; [done|]. split; [done|].
      exact (includes_Some poolTypesNotSupportingVolumeCreation (Pool.type pool')).
    + intros (pool & Hin & -> & ->).
      exists (pool, includes (Some <$> poolTypesNotSupportingVolumeCreation)
                      (Some (Pool.type pool))).
      split.
      * simpl. f_equal.
        symmetry. exact (includes_Some poolTypesNotSupportingVolumeCreation (Pool.type pool)).
      * rewrite sort_perm. apply list_elem_of_fmap. by exists pool.
  - by rewrite Hcreating, Hexisting.
  - subst existing. unfold PoolRow, useExistingPools. simpl.
    rewrite length_fmap, bool_decide_true by done.
    apply Forall_fmap, Forall_forall. intros [pool mark]. rewrite sort_perm.
    intros Hin. apply list_elem_of_fmap in Hin as (pool' & [= -> ->] & _). done.
Qed.

(** X14. The pool the dialog preselects when it opens is the one the pool
    select lists first; where its name is not empty it is the value of the
    select. For a machine without pools the select shows the one option
    [no-resource] and is disabled. *)
Theorem preselected_pool_is_first_option (P : Props.t) (constructed : State.t)
    (validationFailed : gmap string string) :
  let opened := initialState P constructed in
  let select :=
    PoolRow (State.storagePoolName opened) validationFailed
      (createNewPools (State.storagePools opened)) in
  if bool_decide (Props.storagePools P = [])
  then State.storagePoolName opened = None ∧
       options select = [("no-resource", false)] ∧
       value select = "no-resource" ∧ isDisabled select = true
  else fst <$> head (options select) = State.storagePoolName opened ∧
       (truthy (State.storagePoolName opened) = true →
        Some (value select) = State.storagePoolName opened).
Proof.
  intros opened select. case_bool_decide as Hpools.
  - assert (defaultPool P = None) as Hdefault.
    { unfold defaultPool. by rewrite Hpools. }
    subst select opened. unfold PoolRow, createNewPools. simpl.
    by rewrite Hpools, Hdefault.
  - assert (0 < length (Props.storagePools P))%nat as Hlen.
    { destruct (Props.storagePools P); [done | simpl; lia]. }
    split.
    + rewrite <- head_fmap.
      subst select opened. unfold PoolRow, createNewPools. simpl.
      rewrite length_fmap, bool_decide_true by done.
      rewrite defaultPool_names, bool_decide_true by done.
      f_equal. exact (options_names _ _).
    + subst select. unfold PoolRow. simpl. unfold js_or.
      destruct (fst <$> defaultPool P) as [name|]; [|done].
      by intros ->.
Qed.

(** ** The volume select *)

(** X15. The volume select and [getDefaultVolumeName] read the same list: both
    raise, with the same error, where the pool or its volumes are missing;
    otherwise the name [getDefaultVolumeName] returns is the first option
    of the select, and it returns [undefined] exactly when the select is
    disabled and shows the one option [empty]. *)
Theorem default_volume_is_first_option (s : State.t) (poolName : string)
    (existingVolumeName : option string) :
  match selectExistingVolume (Some poolName) existingVolumeName
          (State.storagePools s) (VM.disks (State.vm s)),
        getDefaultVolumeName s poolName with
  | Ok select, Ok (Some name) =>
      head (volumeOptions select) = Some name ∧
      volumeIsDisabled select = false ∧
      volumeValue select = existingVolumeName
  | Ok select, Ok None =>
      volumeOptions select = ["empty"] ∧
      volumeIsDisabled select = true ∧
      volumeValue select = Some "empty"
  | Throw e, Throw e' => e = e'
  | _, _ => False
  end.
Proof.
  unfold selectExistingVolume, getDefaultVolumeName, poolNamed.
  destruct (getFilteredVolumes _ _) as [[|volume filteredVolumes]|]; by simpl.
Qed.

End RowFacts.
End AddDiskRowFacts.

(** * Further properties of the "Change boot order" dialog *)

Module BootOrderMore.
Import BootOrder BootOrderFacts BootOrderRun.

(** ** Toggling a device *)

Lemma get_indexOf (devices : DeviceArray) (device l : loc) :
  get devices (indexOf devices device) = Some l →
  l = device ∧ Some device ∈ devices.
Proof.
  unfold indexOf.
  destruct (list_find _ devices) as [[i x]|] eqn:Hfind; [|done].
  apply list_find_Some in Hfind as (Hi & -> & _).
  unfold get. rewrite (proj2 (Z.ltb_ge _ _)) by lia.
  rewrite Nat2Z.id, Hi. simpl. intros [= <-].
  split; [done|]. by eapply list_elem_of_lookup_2.
Qed.

Lemma indexOf_elem_of (devices : DeviceArray) (device : loc) :
  Some device ∈ devices → get devices (indexOf devices device) = Some device.
Proof.
  intros Hin. unfold indexOf.
  destruct (list_find (λ x, x = Some device) devices) as [[i x]|] eqn:Hfind.
  - apply list_find_Some in Hfind as (Hi & -> & _).
    unfold get. rewrite (proj2 (Z.ltb_ge _ _)) by lia.
    by rewrite Nat2Z.id, Hi.
  - apply list_find_None in Hfind. rewrite Forall_forall in Hfind.
    by destruct (Hfind _ Hin).
Qed.

Lemma onToggleDevice_ok (heap heap' : gmap loc Device.t) (s s' : State.t) (device : loc) :
  onToggleDevice heap s device = Ok (heap', s') →
  s' = s ∧ Some device ∈ State.devices s ∧
  ∃ d, heap !! device = Some d ∧
       heap' = <[device := Device.mk (Device.type d) (Device.bootOrder d)
                             (negb (Device.checked d))]> heap.
Proof.
  unfold onToggleDevice.
  destruct (get _ _) as [l|] eqn:Hget; [simpl | done].
  apply get_indexOf in Hget as [-> Hin].
  destruct (heap !! device) as [d|] eqn:Hd; [simpl | done].
  intros [= <- <-]. split; [by destruct s|]. split; [done|]. by exists d.
Qed.

(** X16. A click on a row writes into the object of its device and into nothing
    else: the flag [checked] of the device is inverted, the other devices
    and the order of the list stay as they are, and a second click on the
    row gives back the objects and the state as they were. *)
Theorem onToggleDevice_twice (heap heap' : gmap loc Device.t) (s s' : State.t)
    (device : loc) :
  onToggleDevice heap s device = Ok (heap', s') →
  s' = s ∧
  (∃ d, heap !! device = Some d ∧
        heap' !! device = Some (Device.mk (Device.type d) (Device.bootOrder d)
                                  (negb (Device.checked d)))) ∧
  (∀ l, l ≠ device → heap' !! l = heap !! l) ∧
  onToggleDevice heap' s' device = Ok (heap, s).
Proof.
  intros Htoggle.
  destruct (onToggleDevice_ok _ _ _ _ _ Htoggle) as (-> & Hin & d & Hd & ->).
  split; [done|]. split; [|split].
  - exists d. split; [done|]. by rewrite lookup_insert_eq.
  - intros l Hl. by rewrite lookup_insert_ne.
  - unfold onToggleDevice. rewrite (indexOf_elem_of _ _ Hin). simpl.
    rewrite lookup_insert_eq. simpl.
    assert (State.set_devices (State.devices s) s = s) as -> by (by destruct s).
    do 2 f_equal.
    rewrite insert_insert_eq. apply insert_id.
    rewrite Hd. f_equal. destruct d as [type bootOrder checked]. simpl.
    unfold Device.set_checked. simpl. by rewrite negb_involutive.
Qed.

(** ** Saving *)

(** The devices of [ds] that are ticked. *)
Definition ticked (heap : gmap loc Device.t) (ds : list loc) : list loc :=
  List.filter (λ l, match heap !! l with
                    | Some d => Device.checked d
                    | None => false
                    end) ds.

Lemma save_devices (heap : gmap loc Device.t) (ds : list loc) :
  (∀ l, l ∈ ds → is_Some (heap !! l)) →
  ∃ checked,
    mapM (λ device : option loc,
      l ← deref "checked" device;
      d ← deref "checked" (heap !! l);
      Ok (l, Device.checked d)) (Some <$> ds) = Ok checked ∧
    fst <$> List.filter snd checked = ticked heap ds.
Proof.
  induction ds as [|l ds IH]; intros Hheap.
  - by exists [].
  - destruct IH as (checked & Hchecked & Hticked).
    { intros l' Hl'. apply Hheap. by right. }
    destruct (Hheap l) as [d Hd]; [by left|].
    exists ((l, Device.checked d) :: checked). split.
    + change (Some <$> l :: ds) with (Some l :: (Some <$> ds)).
      remember (Some <$> ds) as tail. simpl. rewrite Hd. simpl. by rewrite Hchecked.
    + unfold ticked in *. simpl. rewrite Hd.
      destruct (Device.checked d); simpl; [f_equal|]; exact Hticked.
Qed.

Lemma save_hole (heap : gmap loc Device.t) (devices : DeviceArray) :
  None ∈ devices →
  is_ok (mapM (λ device : option loc,
      l ← deref "checked" device;
      d ← deref "checked" (heap !! l);
      Ok (l, Device.checked d)) devices) = false.
Proof.
  induction devices as [|x devices IH]; intros Hin.
  - by apply elem_of_nil in Hin.
  - simpl. destruct x as [l|]; [simpl | done].
    destruct (heap !! l) as [d|]; [simpl | done].
    apply elem_of_cons in Hin as [|Hin]; [done|].
    specialize (IH Hin). by destruct (mapM _ devices).
Qed.

Lemma save_ticked (vm : VM.t) (heap : gmap loc Device.t) (s : State.t) (ds : list loc) :
  State.devices s = Some <$> ds →
  (∀ l, l ∈ ds → is_Some (heap !! l)) →
  save vm heap s =
    Ok (s, [domainChangeBootOrder (VM.id vm) (VM.connectionName vm) (ticked heap ds)]).
Proof.
  intros Hs Hheap. unfold save. rewrite Hs.
  destruct (save_devices heap ds Hheap) as (checked & -> & <-). done.
Qed.

(** ** The moves the arrows do not offer *)

Lemma set_in_range (devices : DeviceArray) (i : nat) (v : option loc) :
  (i < length devices)%nat → set devices (Z.of_nat i) v = <[i := v]> devices.
Proof.
  intros Hi. unfold set. rewrite (proj2 (Z.ltb_ge _ _)) by lia.
  rewrite (proj2 (Z.ltb_lt _ _)) by lia. by rewrite Nat2Z.id.
Qed.

Lemma set_extend (devices : DeviceArray) (n : nat) (v : option loc) :
  set devices (Z.of_nat (length devices + n)) v = devices ++ replicate n None ++ [v].
Proof.
  unfold set. rewrite !(proj2 (Z.ltb_ge _ _)) by lia.
  rewrite Nat2Z.id. do 2 f_equal. f_equal. lia.
Qed.

(** X17. Moving the first device of the list up, or the last one down, does
    not leave the list as it is: the first device is lost, with [undefined]
    in its place; the last one moves one place beyond the end and leaves
    [undefined] where it was. "Save" on either list raises. *)
Theorem move_past_the_ends (vm : VM.t) (heap : gmap loc Device.t) (s : State.t)
    (ds : list loc) (device : loc) :
  device ∉ ds →
  (State.devices s = Some <$> device :: ds →
     State.devices (moveUp s device) = None :: (Some <$> ds) ∧
     is_ok (save vm heap (moveUp s device)) = false) ∧
  (State.devices s = Some <$> ds ++ [device] →
     State.devices (moveDown s device) = (Some <$> ds) ++ [None; Some device] ∧
     is_ok (save vm heap (moveDown s device)) = false).
Proof.
  intros Hnotin. split; intros Hs.
  - assert (State.devices (moveUp s device) = None :: (Some <$> ds)) as Hmoved.
    { unfold moveUp, move. simpl. rewrite Hs. unfold indexOf. simpl.
      rewrite decide_True by done. reflexivity. }
    split; [done|]. unfold save. rewrite Hmoved. reflexivity.
  - assert (indexOf (Some <$> ds ++ [device]) device = Z.of_nat (length ds)) as Hindex.
    { unfold indexOf.
      assert (list_find (λ x, x = Some device) (Some <$> ds ++ [device])
              = Some (length ds, Some device)) as ->; [|done].
      apply list_find_Some. rewrite fmap_app. split; [|split; [done|]].
      - rewrite lookup_app_r by (by rewrite length_fmap).
        by rewrite length_fmap, Nat.sub_diag.
      - intros j y Hj Hlt ->.
        rewrite lookup_app_l in Hj by (by rewrite length_fmap).
        rewrite list_lookup_fmap in Hj.
        destruct (ds !! j) as [x|] eqn:Hx; simplify_eq/=.
        apply Hnotin. by eapply list_elem_of_lookup_2. }
    assert (State.devices (moveDown s device) = (Some <$> ds) ++ [None; Some device])
      as Hmoved.
    { unfold moveDown, move. simpl. rewrite Hs, Hindex.
      assert (length (Some <$> ds ++ [device]) = length ds + 1)%nat as Hlen.
      { by rewrite length_fmap, length_app. }
      assert (get (Some <$> ds ++ [device]) (Z.of_nat (length ds)) = Some device) as ->.
      { rewrite get_lookup. rewrite lookup_app_r by done. by rewrite Nat.sub_diag. }
      assert (get (Some <$> ds ++ [device]) (Z.of_nat (length ds) + 1) = None) as ->.
      { replace (Z.of_nat (length ds) + 1)%Z with (Z.of_nat (length ds + 1)) by lia.
        rewrite get_lookup. apply lookup_ge_None. rewrite length_app. simpl. lia. }
      replace (Z.of_nat (length ds) + 1)%Z
        with (Z.of_nat (length (Some <$> ds ++ [device]) + 0)) by lia.
      rewrite set_extend. simpl.
      rewrite set_in_range by (rewrite length_app, Hlen; simpl; lia).
      rewrite fmap_app. simpl. rewrite <- app_assoc. simpl.
      rewrite insert_app_r_alt by (by rewrite length_fmap).
      by rewrite length_fmap, Nat.sub_diag. }
    split; [done|]. unfold save. rewrite Hmoved.
    assert (is_ok (mapM (λ device0 : option loc,
        l ← deref "checked" device0;
        d ← deref "checked" (heap !! l);
        Ok (l, Device.checked d)) ((Some <$> ds) ++ [None; Some device])) = false) as Hhole.
    { apply save_hole. apply elem_of_app. right. by left. }
    by destruct (mapM _ _).
Qed.

(** ** The dialog over time *)

(** The list is a rearrangement of the distinct devices [ds], and each
    of them has its object. *)
Definition wellFormed (ds : list loc) (d : Dialog) : Prop :=
  ∃ ds', State.devices (state d) = Some <$> ds' ∧ ds' ≡ₚ ds ∧
         ∀ l, l ∈ ds → is_Some (heap d !! l).

Lemma get_Some_lookup (ds : list loc) (index : nat) (device : loc) :
  get (Some <$> ds) (Z.of_nat index) = Some device → ds !! index = Some device.
Proof. by rewrite get_lookup. Qed.

Lemma step_wellFormed (ds : list loc) (d d' : Dialog) :
  NoDup ds → wellFormed ds d → step d d' → wellFormed ds d'.
Proof.
  intros Hnodup (ds' & Hdevices & Hperm & Hheap) Hstep.
  assert (NoDup ds') as Hnodup' by (by rewrite Hperm).
  destruct Hstep as [d index device heap' s' Hrow Htoggle
                    | d index device Hrow Hup
                    | d index device Hrow Hdown]; simpl.
  - destruct (onToggleDevice_ok _ _ _ _ _ Htoggle) as (-> & _ & x & Hx & ->).
    exists ds'. split; [done|]. split; [done|].
    intros l Hl. simpl. destruct (decide (l = device)) as [->|Hne].
    + rewrite lookup_insert_eq. by eexists.
    + rewrite lookup_insert_ne by done. by apply Hheap.
  - rewrite Hdevices in Hrow. apply get_Some_lookup in Hrow.
    apply upDisabled_first in Hup.
    destruct (ds' !! (index - 1)%nat) as [above|] eqn:Habove.
    2: { apply lookup_ge_None in Habove. apply lookup_lt_Some in Hrow. lia. }
    destruct (move_keeps_distinct (-1) ds' device above index (index - 1))
      as (ds'' & Hmoved & _ & Hperm''); [done | done | done | lia |].
    exists ds''. unfold moveUp. simpl. rewrite Hdevices, Hmoved.
    split; [done|]. split; [by rewrite Hperm'' | done].
  - rewrite Hdevices in Hrow. apply get_Some_lookup in Hrow.
    apply downDisabled_last in Hdown. rewrite Hdevices, length_fmap in Hdown.
    destruct (ds' !! (index + 1)%nat) as [below|] eqn:Hbelow.
    2: { apply lookup_ge_None in Hbelow. lia. }
    destruct (move_keeps_distinct 1 ds' device below index (index + 1))
      as (ds'' & Hmoved & _ & Hperm''); [done | done | done | lia |].
    exists ds''. unfold moveDown. simpl. rewrite Hdevices, Hmoved.
    split; [done|]. split; [by rewrite Hperm'' | done].
Qed.

Lemma steps_wellFormed (ds : list loc) (d0 d : Dialog) :
  NoDup ds → rtc step d0 d → wellFormed ds d0 → wellFormed ds d.
Proof.
  intros Hnodup Hsteps. induction Hsteps as [d|d1 d2 d3 Hstep _ IH]; [done|].
  intros H1. apply IH. by apply (step_wellFormed ds d1 d2).
Qed.

(** X18. A dialog opened on distinct devices that all have their object stays
    so, whatever rows are clicked and whatever enabled arrows are used:
    the list is always a rearrangement of the devices it was opened with,
    without [undefined] entries. "Save" therefore never raises: it sets no
    state and issues one [domainChangeBootOrder] for the machine, with
    exactly the ticked devices of the list in the order of the list, none
    of them twice. *)
Theorem save_never_raises (vm : VM.t) (ds : list loc) (d0 d : Dialog) :
  NoDup ds →
  State.devices (state d0) = Some <$> ds →
  (∀ l, l ∈ ds → is_Some (heap d0 !! l)) →
  rtc step d0 d →
  ∃ ds',
    State.devices (state d) = Some <$> ds' ∧ ds' ≡ₚ ds ∧
    save vm (heap d) (state d) =
      Ok (state d, [domainChangeBootOrder (VM.id vm) (VM.connectionName vm)
                      (ticked (heap d) ds')]) ∧
    NoDup (ticked (heap d) ds') ∧ ticked (heap d) ds' ⊆ ds.
Proof.
  intros Hnodup Hdevices Hheap Hsteps.
  destruct (steps_wellFormed ds d0 d Hnodup Hsteps) as (ds' & Hdevices' & Hperm & Hheap').
  { by exists ds. }
  exists ds'. split; [done|]. split; [done|]. split; [|split].
  - apply save_ticked; [done|]. intros l Hl. apply Hheap'. by rewrite <- Hperm.
  - unfold ticked. apply NoDup_ListNoDup, List.NoDup_filter, NoDup_ListNoDup.
    by rewrite Hperm.
  - intros l. unfold ticked. rewrite list_elem_of_In, List.filter_In, <- list_elem_of_In.
    intros [Hl _]. by rewrite <- Hperm.
Qed.

End BootOrderMore.

(** * Further properties of the "Delete storage pool" dialog *)

Module StoragePoolDeleteMore.
Import StoragePoolDelete StoragePoolDeleteRun StoragePoolDeleteMenu.

(** ** The calls of a deletion *)

(** The deletions of the volumes of the pool. *)
Definition volumeCalls (storagePool : Pool.t) : list ExtCall :=
  (λ volume, storageVolumeDelete (Pool.connectionName storagePool)
               (Pool.name storagePool) (Volume.name volume))
    <$> default [] (Pool.volumes storagePool).

(** The calls that remove the pool itself. *)
Definition poolCalls (storagePool : Pool.t) : list ExtCall :=
  if Pool.active storagePool
  then [storagePoolDeactivate (Pool.connectionName storagePool) (Pool.id storagePool);
        storagePoolUndefine (Pool.connectionName storagePool) (Pool.id storagePool)]
  else [storagePoolUndefine (Pool.connectionName storagePool) (Pool.id storagePool)].

(** The deletions that go first: those of the volumes, when "Delete the
    volumes inside this pool" is ticked. *)
Definition firstCalls (P : Props.t) (s : State.t) : list ExtCall :=
  if State.deleteVolumes s then volumeCalls (Props.storagePool P) else [].

(** All the calls of a deletion, in their order. *)
Definition allCalls (P : Props.t) (s : State.t) : list ExtCall :=
  firstCalls P s ++ poolCalls (Props.storagePool P).

(** Where the chain stands when [k] calls have been fulfilled. *)
Definition stage (P : Props.t) (s : State.t) (k : nat) : option Pending :=
  if bool_decide (length (allCalls P s) ≤ k)%nat then None
  else if bool_decide (k < length (firstCalls P s))%nat
       then Some (volumeDeletions (length (firstCalls P s) - k))
  else if Pool.active (Props.storagePool P) && bool_decide (k = length (firstCalls P s))
       then Some deactivation
  else Some undefinition.

(** The calls issued by then. *)
Definition issuedAfter (P : Props.t) (s : State.t) (k : nat) : list ExtCall :=
  take (Nat.max (k + 1) (length (firstCalls P s))) (allCalls P s).

Section Chain.
Context `{ext : Externals}.

Definition failed (exc_message : string) (s : State.t) : State.t :=
  dialogErrorSet (gettext "The storage pool could not be deleted") exc_message s.

Lemma settleAll_snoc (P : Props.t) (r : Run) (outcomes : list Outcome) (o : Outcome) :
  settleAll P r (outcomes ++ [o]) = settle P (settleAll P r outcomes) o.
Proof. unfold settleAll. by rewrite foldl_app. Qed.

Lemma settleAll_app (P : Props.t) (r : Run) (outcomes rest : list Outcome) :
  settleAll P r (outcomes ++ rest) = settleAll P (settleAll P r outcomes) rest.
Proof. unfold settleAll. by rewrite foldl_app. Qed.

Lemma settleAll_settled (P : Props.t) (r : Run) (outcomes : list Outcome) :
  pending r = None → settleAll P r outcomes = r.
Proof.
  intros Hnone. induction outcomes as [|o outcomes IH]; [done|].
  unfold settleAll in *. simpl. unfold settle at 2. rewrite Hnone. exact IH.
Qed.

Lemma poolCalls_length (storagePool : Pool.t) :
  length (poolCalls storagePool) = if Pool.active storagePool then 2%nat else 1%nat.
Proof. unfold poolCalls. by destruct (Pool.active storagePool). Qed.

Lemma start_run (P : Props.t) (s : State.t) (r : Run) :
  start P s = Ok r →
  r = {| state := s; pending := stage P s 0; issued := issuedAfter P s 0; closed := false |}.
Proof.
  unfold start, delete, stage, issuedAfter, allCalls, firstCalls, volumeCalls.
  pose proof (poolCalls_length (Props.storagePool P)) as Hlen.
  destruct (State.deleteVolumes s) eqn:Hticked; simpl.
  - destruct (Pool.volumes (Props.storagePool P)) as [volumes|] eqn:Hvolumes; [simpl | done].
    rewrite length_app, length_fmap.
    rewrite (bool_decide_false (_ ≤ 0)%nat)
      by (destruct (Pool.active _); lia).
    case_bool_decide as Hsome; intros [= <-]; f_equal.
    + by rewrite Nat.sub_0_r.
    + rewrite Nat.max_r by lia. rewrite <- (length_fmap
        (λ volume, storageVolumeDelete (Pool.connectionName (Props.storagePool P))
                     (Pool.name (Props.storagePool P)) (Volume.name volume)) volumes) at 1.
      by rewrite take_app_length.
    + assert (volumes = []) as -> by (destruct volumes; [done | simpl in Hsome; lia]).
      simpl. unfold afterFirstCall. by destruct (Pool.active _).
    + assert (volumes = []) as -> by (destruct volumes; [done | simpl in Hsome; lia]).
      simpl. unfold poolCalls, storagePoolDeactivateAndUndefine.
      by destruct (Pool.active _).
  - rewrite (bool_decide_false (_ ≤ 0)%nat) by (destruct (Pool.active _); lia).
    intros [= <-]. f_equal.
    + unfold afterFirstCall. by destruct (Pool.active _).
    + unfold poolCalls, storagePoolDeactivateAndUndefine. by destruct (Pool.active _).
Qed.

Lemma settle_fulfilled (P : Props.t) (s : State.t) (k : nat) :
  (k < length (allCalls P s))%nat →
  settle P {| state := s; pending := stage P s k; issued := issuedAfter P s k;
              closed := false |} fulfilled =
  {| state := s; pending := stage P s (k + 1); issued := issuedAfter P s (k + 1);
     closed := false |}.
Proof.
  intros Hk. unfold stage, issuedAfter, allCalls in *.
  pose proof (poolCalls_length (Props.storagePool P)) as Hlen.
  rewrite length_app in *.
  set (first := firstCalls P s) in *.
  rewrite (bool_decide_false (_ ≤ k)%nat) by lia.
  destruct (decide (k < length first)%nat) as [Hfirst|Hfirst].
  - rewrite (bool_decide_true (k < _)%nat) by done.
    rewrite Nat.max_r by lia.
    rewrite (bool_decide_false (_ ≤ k + 1)%nat) by (destruct (Pool.active _); lia).
    rewrite take_app_length. unfold settle. simpl.
    destruct (decide (length first - k ≤ 1)%nat) as [Hlast|Hmore].
    + rewrite (bool_decide_true (_ ≤ 1)%nat) by done.
      rewrite (bool_decide_false (k + 1 < _)%nat) by lia.
      rewrite (bool_decide_true (k + 1 = _)%nat) by lia.
      rewrite Nat.max_l by lia.
      replace (k + 1 + 1)%nat with (length first + 1)%nat by lia.
      rewrite take_app_add'; [|done].
      unfold afterFirstCall, poolCalls, storagePoolDeactivateAndUndefine.
      by destruct (Pool.active _).
    + rewrite (bool_decide_false (_ ≤ 1)%nat) by done.
      rewrite (bool_decide_true (k + 1 < _)%nat) by lia.
      rewrite Nat.max_r by lia. rewrite take_app_length.
      do 3 f_equal. lia.
  - rewrite (bool_decide_false (k < _)%nat) by done.
    rewrite !Nat.max_l by lia.
    rewrite (bool_decide_false (k + 1 < _)%nat) by lia.
    rewrite (bool_decide_false (k + 1 = _)%nat) by lia.
    rewrite andb_false_r.
    unfold poolCalls in *.
    destruct (Pool.active (Props.storagePool P)) eqn:Hactive; simpl in *.
    + destruct (decide (k = length first)) as [->|Hne].
      * rewrite bool_decide_true by done.
        rewrite (bool_decide_false (_ ≤ _)%nat) by lia.
        unfold settle. simpl.
        rewrite !take_app.
        rewrite (take_ge first (length first + 1)) by lia.
        rewrite (take_ge first (length first + 1 + 1)) by lia.
        replace (length first + 1 - length first)%nat with 1%nat by lia.
        replace (length first + 1 + 1 - length first)%nat with 2%nat by lia.
        simpl. by rewrite <- app_assoc.
      * rewrite bool_decide_false by done.
        rewrite (bool_decide_true (_ ≤ _)%nat) by lia.
        unfold settle. simpl.
        rewrite !take_ge; [done | rewrite length_app; simpl; lia..].
    + rewrite (bool_decide_true (_ ≤ _)%nat) by lia.
      unfold settle. simpl.
      rewrite !take_ge; [done | rewrite length_app; simpl; lia..].
Qed.

Lemma run_fulfilled (P : Props.t) (s : State.t) (r : Run) (k : nat) :
  start P s = Ok r →
  (k ≤ length (allCalls P s))%nat →
  settleAll P r (replicate k fulfilled) =
  {| state := s; pending := stage P s k; issued := issuedAfter P s k; closed := false |}.
Proof.
  intros Hstart. apply start_run in Hstart as ->.
  induction k as [|k IH]; intros Hk; [done|].
  rewrite replicate_S_end, settleAll_snoc, IH by lia.
  rewrite settle_fulfilled by lia. by rewrite Nat.add_1_r.
Qed.

Lemma stage_is_Some (P : Props.t) (s : State.t) (k : nat) :
  (k < length (allCalls P s))%nat → is_Some (stage P s k).
Proof.
  intros Hk. unfold stage. rewrite bool_decide_false by lia.
  case_bool_decide; [by eexists|]. destruct (_ && _); by eexists.
Qed.

Lemma run_rejected (P : Props.t) (s : State.t) (r : Run) (k : nat)
    (exc_message : string) (rest : list Outcome) :
  start P s = Ok r →
  (k < length (allCalls P s))%nat →
  settleAll P r (replicate k fulfilled ++ rejected exc_message :: rest) =
  {| state := failed exc_message s; pending := None; issued := issuedAfter P s k;
     closed := false |}.
Proof.
  intros Hstart Hk.
  rewrite settleAll_app, (run_fulfilled P s r k Hstart) by lia.
  change (rejected exc_message :: rest) with ([rejected exc_message] ++ rest).
  rewrite settleAll_app.
  destruct (stage_is_Some P s k Hk) as [p Hp].
  rewrite settleAll_settled; unfold settleAll; simpl; unfold settle; simpl;
    rewrite Hp; by destruct p.
Qed.

Lemma run_completed (P : Props.t) (s : State.t) (r : Run) (later : list Outcome) :
  start P s = Ok r →
  settleAll P r (replicate (length (allCalls P s)) fulfilled ++ later) =
  {| state := s; pending := None; issued := allCalls P s; closed := false |}.
Proof.
  intros Hstart.
  rewrite settleAll_app, (run_fulfilled P s r _ Hstart) by lia.
  rewrite settleAll_settled.
  - unfold stage, issuedAfter. rewrite bool_decide_true by lia.
    by rewrite take_ge by lia.
  - simpl. unfold stage. by rewrite bool_decide_true by lia.
Qed.

(** X19. A deletion all of whose calls are fulfilled has issued, in this order:
    the deletions of the volumes of the pool, if "Delete the volumes inside
    this pool" is ticked, then [storagePoolDeactivate], if the pool is
    active, then [storagePoolUndefine]. Nothing is left pending, the state
    is as it was, and [close] has not been called: the callback of the
    fulfilled chain returns [this.props.close] and does not call it. *)
Theorem delete_fulfilled_leaves_dialog_open (P : Props.t) (s : State.t) (r : Run)
    (later : list Outcome) :
  start P s = Ok r →
  let r' := settleAll P r (replicate (length (allCalls P s)) fulfilled ++ later) in
  issued r' =
    (if State.deleteVolumes s then volumeCalls (Props.storagePool P) else []) ++
    (if Pool.active (Props.storagePool P)
     then [storagePoolDeactivate (Pool.connectionName (Props.storagePool P))
             (Pool.id (Props.storagePool P))]
     else []) ++
    [storagePoolUndefine (Pool.connectionName (Props.storagePool P))
       (Pool.id (Props.storagePool P))] ∧
  pending r' = None ∧ state r' = s ∧ closed r' = false.
Proof.
  intros Hstart r'. subst r'. rewrite (run_completed P s r later Hstart). simpl.
  split; [|done]. unfold allCalls, firstCalls, poolCalls.
  by destruct (Pool.active _).
Qed.

(** X20. A rejection before all the calls are fulfilled ends the deletion: the
    error is shown with the message of the rejection, no further call is
    issued, neither then nor when the calls still in flight are settled,
    and nothing is left pending. After [k] fulfilments the calls issued are
    the first [k + 1] of the deletion, or all the deletions of the volumes
    if these are more. *)
Theorem delete_rejected_stops (P : Props.t) (s : State.t) (r : Run) (k : nat)
    (exc_message : string) (later : list Outcome) :
  start P s = Ok r →
  (k < length (allCalls P s))%nat →
  let r' := settleAll P r (replicate k fulfilled ++ rejected exc_message :: later) in
  State.dialogError (state r') =
    Some (gettext "The storage pool could not be deleted") ∧
  State.dialogErrorDetail (state r') = Some exc_message ∧
  State.deleteVolumes (state r') = State.deleteVolumes s ∧
  pending r' = None ∧
  issued r' = take (Nat.max (k + 1) (length (firstCalls P s))) (allCalls P s) ∧
  issued r' = issued (settleAll P r (replicate k fulfilled)).
Proof.
  intros Hstart Hk r'. subst r'.
  rewrite (run_rejected P s r k exc_message later Hstart Hk).
  rewrite (run_fulfilled P s r k Hstart) by lia. done.
Qed.

Lemma outcomes_split (outcomes : list Outcome) :
  (∃ k, outcomes = replicate k fulfilled) ∨
  (∃ k exc_message rest, outcomes = replicate k fulfilled ++ rejected exc_message :: rest).
Proof.
  induction outcomes as [|o outcomes IH]; [left; by exists 0%nat|].
  destruct o as [|exc_message].
  - destruct IH as [[k ->] | (k & m & rest & ->)].
    + left. by exists (S k).
    + right. by exists (S k), m, rest.
  - right. by exists 0%nat, exc_message, outcomes.
Qed.

Lemma undefine_last (P : Props.t) (s : State.t) (n : nat) :
  storagePoolUndefine (Pool.connectionName (Props.storagePool P))
    (Pool.id (Props.storagePool P)) ∈ take n (allCalls P s) →
  (length (allCalls P s) ≤ n)%nat.
Proof.
  unfold allCalls. rewrite length_app.
  pose proof (poolCalls_length (Props.storagePool P)) as Hlen.
  destruct (decide (length (firstCalls P s) + length (poolCalls (Props.storagePool P)) ≤ n)%nat)
    as [|Hn]; [done|].
  intros Hin. exfalso.
  assert (∀ l, storagePoolUndefine (Pool.connectionName (Props.storagePool P))
                 (Pool.id (Props.storagePool P)) ∈ take l (firstCalls P s) → False) as Hfirst.
  { intros l Hl. apply elem_of_take in Hl as (i & Hi & _).
    unfold firstCalls, volumeCalls in Hi. destruct (State.deleteVolumes s); [|done].
    rewrite list_lookup_fmap in Hi.
    by destruct (default [] (Pool.volumes (Props.storagePool P)) !! i). }
  rewrite take_app in Hin. apply elem_of_app in Hin as [Hin|Hin]; [by eapply Hfirst|].
  unfold poolCalls in *. destruct (Pool.active (Props.storagePool P)).
  - destruct (n - length (firstCalls P s))%nat as [|[|m]] eqn:Hm; simpl in *.
    + by apply elem_of_nil in Hin.
    + apply list_elem_of_singleton in Hin. done.
    + lia.
  - destruct (n - length (firstCalls P s))%nat as [|m] eqn:Hm; simpl in *.
    + by apply elem_of_nil in Hin.
    + lia.
Qed.

(** X21. However the calls of a deletion are settled, the calls issued are an
    initial part of the calls of the deletion in their order, and
    [storagePoolUndefine] is issued only when all the calls before it, the
    deletions of the volumes and the deactivation, have been fulfilled. *)
Theorem undefine_only_after_all_fulfilled (P : Props.t) (s : State.t) (r : Run)
    (outcomes : list Outcome) :
  start P s = Ok r →
  issued (settleAll P r outcomes) `prefix_of` allCalls P s ∧
  (storagePoolUndefine (Pool.connectionName (Props.storagePool P))
     (Pool.id (Props.storagePool P)) ∈ issued (settleAll P r outcomes) →
   replicate (length (allCalls P s) - 1) fulfilled `prefix_of` outcomes).
Proof.
  intros Hstart.
  assert (length (firstCalls P s) < length (allCalls P s))%nat as Hfirst.
  { unfold allCalls. rewrite length_app, poolCalls_length.
    destruct (Pool.active _); lia. }
  destruct (outcomes_split outcomes) as [[k ->] | (k & m & rest & ->)].
  - destruct (decide (k ≤ length (allCalls P s))%nat) as [Hk|Hk].
    + rewrite (run_fulfilled P s r k Hstart Hk). simpl. unfold issuedAfter.
      split; [apply prefix_take|].
      intros Hin. apply undefine_last in Hin.
      exists (replicate (k - (length (allCalls P s) - 1)) fulfilled).
      rewrite <- replicate_add. f_equal. lia.
    + replace k with (length (allCalls P s) + (k - length (allCalls P s)))%nat by lia.
      rewrite replicate_add.
      rewrite (run_completed P s r _ Hstart). simpl.
      split; [done|]. intros _.
      exists (replicate (k - length (allCalls P s) + 1) fulfilled).
      rewrite <- !replicate_add. f_equal. lia.
  - destruct (decide (k < length (allCalls P s))%nat) as [Hk|Hk].
    + rewrite (run_rejected P s r k m rest Hstart Hk). simpl. unfold issuedAfter.
      split; [apply prefix_take|].
      intros Hin. apply undefine_last in Hin.
      exists (replicate (k - (length (allCalls P s) - 1)) fulfilled ++ rejected m :: rest).
      rewrite app_assoc, <- replicate_add. do 2 f_equal. lia.
    + replace k with (length (allCalls P s) + (k - length (allCalls P s)))%nat by lia.
      rewrite replicate_add, <- app_assoc.
      rewrite (run_completed P s r _ Hstart). simpl.
      split; [done|]. intros _.
      exists (replicate (k - length (allCalls P s) + 1) fulfilled ++ rejected m :: rest).
      rewrite !app_assoc, <- !replicate_add. do 2 f_equal. lia.
Qed.

End Chain.

Section Guards.
Context `{ext : Externals}.

(** ** When the deletion is offered *)

(** No disk of the machines names the pool as the pool of its source. *)
Definition unusedPool (pool : Pool.t) (vms : list VM.t) : Prop :=
  ∀ vm disk source,
    vm ∈ vms → disk ∈ values (VM.disks vm) → Disk.source disk = Some source →
    Source.pool source ≠ Some (Pool.name pool).

Lemma someUsesPool_spec (pool : Pool.t) (disks : list Disk.t) :
  (∀ disk, disk ∈ disks → is_Some (Disk.source disk)) →
  ∃ used,
    someUsesPool pool disks = Ok used ∧
    (used = false ↔
       ∀ disk source, disk ∈ disks → Disk.source disk = Some source →
         Source.pool source ≠ Some (Pool.name pool)).
Proof.
  induction disks as [|disk disks IH]; intros Hsources; simpl.
  - exists false. split; [done|]. split; [|done].
    intros _ disk source Hin. by apply elem_of_nil in Hin.
  - destruct (Hsources disk) as [source Hsource]; [by left|].
    rewrite Hsource. simpl. unfold str_eq. case_bool_decide as Hpool.
    + exists true. split; [done|]. split; [done|].
      intros Hnone. exfalso. by apply (Hnone disk source); [left | |].
    + destruct IH as (used & -> & Hused).
      { intros disk' Hin. apply Hsources. by right. }
      exists used. split; [done|]. rewrite Hused. split.
      * intros Hnone disk' source' Hin Hsource'.
        apply elem_of_cons in Hin as [->|Hin]; [|by eapply Hnone].
        rewrite Hsource in Hsource'. injection Hsource' as <-.
        intros Heq. by rewrite Heq in Hpool.
      * intros Hnone disk' source' Hin. apply Hnone. by right.
Qed.

Lemma canDelete_spec (pool : Pool.t) (vms : list VM.t) :
  (∀ vm disk, vm ∈ vms → disk ∈ values (VM.disks vm) → is_Some (Disk.source disk)) →
  ∃ deletable,
    canDelete pool vms = Ok deletable ∧ (deletable = true ↔ unusedPool pool vms).
Proof.
  unfold unusedPool.
  induction vms as [|vm vms IH]; intros Hsources; simpl.
  - exists true. split; [done|]. split; [|done].
    intros _ vm disk source Hin. by apply elem_of_nil in Hin.
  - destruct (someUsesPool_spec pool (values (VM.disks vm))) as (used & -> & Hused).
    { intros disk Hin. apply (Hsources vm); [by left | done]. }
    destruct used.
    + exists false. split; [done|]. split; [done|].
      intros Hnone. exfalso.
      assert (true = false) as Habs; [|done].
      apply Hused. intros disk source Hin. apply (Hnone vm); [by left | done].
    + destruct IH as (deletable & -> & Hdeletable).
      { intros vm' disk Hin. apply Hsources. by right. }
      exists deletable. split; [done|]. rewrite Hdeletable. split.
      * intros Hnone vm' disk source Hin.
        apply elem_of_cons in Hin as [->|Hin]; [|by apply Hnone].
        by apply Hused.
      * intros Hnone vm' disk source Hin. apply Hnone. by right.
Qed.

(** X22. Where every disk of every machine has a source, the "Delete" action of
    a pool never raises, and it is offered exactly when the pool is
    persistent and no disk of any machine names the pool as the pool of
    its source. *)
Theorem delete_offered_iff_unused (storagePool : Pool.t) (vms : list VM.t) :
  (∀ vm disk, vm ∈ vms → disk ∈ values (VM.disks vm) → is_Some (Disk.source disk)) →
  ∃ offered,
    StoragePoolDeleteAction storagePool vms = Ok offered ∧
    (offered = true ↔ Pool.persistent storagePool = true ∧ unusedPool storagePool vms).
Proof.
  intros Hsources.
  destruct (canDelete_spec storagePool vms Hsources) as (deletable & Hdeletable & Hiff).
  unfold StoragePoolDeleteAction. rewrite Hdeletable. simpl.
  eexists. split; [reflexivity|]. rewrite <- Hiff.
  destruct deletable, (Pool.persistent storagePool); simpl; split; (done || by intros [? ?]).
Qed.

(** ** What the button lets through *)

(** X23. The dialog of a pool that may be deleted, with the "Delete" button
    rendered enabled: the click deletes no volume that the usage table
    lists as used by a machine. With the box unticked it deletes no volume
    at all. *)
Theorem used_volumes_are_not_deleted (P : Props.t) (s : State.t) (calls : list ExtCall) :
  canDelete (Props.storagePool P) (Props.vms P) = Ok true →
  deleteDisabled P s = Ok false →
  delete P s = Ok calls →
  ∀ connectionName poolName volName,
    storageVolumeDelete connectionName poolName volName ∈ calls →
    State.deleteVolumes s = true ∧
    ∀ vmNames,
      getStorageVolumesUsage (Props.vms P) (Props.storagePool P) !! volName = Some vmNames →
      vmNames = [].
Proof.
  intros Hdeletable Hdisabled Hdelete connectionName poolName volName Hin.
  assert (State.deleteVolumes s = true) as Hticked.
  { revert Hdelete Hin. unfold delete.
    destruct (State.deleteVolumes s); [done|].
    intros [= <-]. unfold storagePoolDeactivateAndUndefine.
    destruct (Pool.active _); intros Hin; by apply list_elem_of_singleton in Hin. }
  split; [done|].
  intros vmNames Hused.
  revert Hdisabled. unfold deleteDisabled, canDeleteOnlyWithoutVolumes.
  rewrite Hdeletable, Hticked. simpl. rewrite andb_true_r. intros [= Hnone].
  destruct vmNames as [|vmName vmNames]; [done|]. exfalso.
  assert (existsb (λ kv : string * list string, bool_decide (0 < length kv.2)%nat)
            (map_to_list (getStorageVolumesUsage (Props.vms P) (Props.storagePool P)))
          = true) as Hsome; [|by rewrite Hsome in Hnone].
  apply existsb_exists. exists (volName, vmName :: vmNames). split.
  - apply list_elem_of_In. by apply elem_of_map_to_list.
  - done.
Qed.

End Guards.
End StoragePoolDeleteMore.

(** * Persistence and sharing of the disk that is added *)

Module AddDiskSubmitted.
Import AddDisk AddDiskFacts AddDiskChanges AddDiskPersistence.

Section Submitted.
Context `{ext : Externals}.

(** ** A machine that is not running *)

(** The state holds the machine of the props; [hotplug] says whether it is
    running; and for a machine that is not running [permanent] is set. *)
Definition persistenceDefault (P : Props.t) (s : State.t) : Prop :=
  State.vm s = Props.vm P ∧
  State.hotplug s = domainIsRunning (VM.state (Props.vm P)) ∧
  (domainIsRunning (VM.state (Props.vm P)) = false → State.permanent s = true).

Lemma keeps_persistenceDefault (P : Props.t) (u : Update) :
  keeps (λ s, (State.vm s, State.hotplug s, State.permanent s)) u →
  ∀ x x', u x = Ok x' → persistenceDefault P x → persistenceDefault P x'.
Proof.
  intros Hu x x' Hx. unfold persistenceDefault.
  pose proof (Hu x x' Hx) as Heq. simpl in Heq.
  injection Heq as Hvm Hhotplug Hpermanent. by rewrite Hvm, Hhotplug, Hpermanent.
Qed.

Lemma flush_persistenceDefault (P : Props.t) (queue : list Update) (s s' : State.t) :
  Forall (λ u, ∀ x x', u x = Ok x' → persistenceDefault P x → persistenceDefault P x') queue →
  flush queue s = Ok s' → persistenceDefault P s → persistenceDefault P s'.
Proof.
  intros Hall. revert s. induction Hall as [|u queue Hu _ IH]; intros s; simpl.
  - by intros [= <-].
  - destruct (u s) as [s1|] eqn:Hs1; [simpl | done].
    intros Hflush Hs. apply (IH _ Hflush). by apply (Hu s).
Qed.

Lemma onValueChanged_persistenceDefault (P : Props.t) (s : State.t) (key : Key.t)
    (queue : list Update) :
  (∀ value, key = Key.permanent value → is_Some (persistenceRow s)) →
  persistenceDefault P s →
  onValueChanged P s key = Ok queue →
  Forall (λ u, ∀ x x', u x = Ok x' → persistenceDefault P x → persistenceDefault P x') queue.
Proof.
  intros Hrow Hs.
  assert (∀ queue',
    Forall (keeps (λ s, (State.vm s, State.hotplug s, State.permanent s))) queue' →
    Forall (λ u, ∀ x x', u x = Ok x' → persistenceDefault P x → persistenceDefault P x') queue')
    as Hkeeps.
  { intros queue' Hall. eapply Forall_impl; [exact Hall|]. apply keeps_persistenceDefault. }
  assert (∀ value,
    Forall (keeps (λ s, (State.vm s, State.hotplug s, State.permanent s)))
      (onBusType P value)) as Hbus.
  { intros value. apply Forall_cons_2; [by apply patch_keeps | apply Forall_nil_2]. }
  assert (∀ value,
    Forall (keeps (λ s, (State.vm s, State.hotplug s, State.permanent s)))
      (onDevice P s value)) as Hdevice.
  { intros value. unfold onDevice. apply Forall_cons_2; [by apply patch_keeps|].
    destruct (busOfDevice P value) as [bus|]; [destruct (truthy _)|];
      try apply Hbus; destruct (_ && _); try apply Hbus; apply Forall_nil_2. }
  destruct key as [value|value|value|value|value|value|value|value|value|value|value|value];
    simpl.
  - intros Hqueue. apply Hkeeps. revert Hqueue. unfold onStoragePoolName.
    destruct (poolOfVm s (Some value)) as [current|]; [simpl | done].
    assert (Forall (keeps (λ s, (State.vm s, State.hotplug s, State.permanent s)))
              (match poolOfVm s (State.storagePoolName s) with
               | Some prevPool =>
                   if (isDisk current && negb (isDisk prevPool)) ||
                      (negb (isDisk current) && isDisk prevPool)
                   then onDefault (Key.format (getDefaultVolumeFormat (OfString value)))
                   else []
               | None => []
               end)) as Hq2.
    { destruct (poolOfVm s (State.storagePoolName s)); [|apply Forall_nil_2].
      destruct (_ || _); [|apply Forall_nil_2].
      apply Forall_cons_2; [by apply patch_keeps | apply Forall_nil_2]. }
    case_bool_decide.
    + destruct (getDefaultVolumeName s value) as [name|]; [simpl | done].
      intros [= <-]. apply Forall_cons_2; [by apply patch_keeps|]. simpl.
      apply Forall_app. split; [done|]. by apply keeps_existingVolumeName.
    + intros [= <-]. apply Forall_cons_2; [by apply patch_keeps|]. simpl.
      exact Hq2.
  - intros [= <-]. apply Hkeeps. by apply keeps_existingVolumeName.
  - intros [= <-]. apply Forall_cons_2; [|apply Forall_nil_2].
    intros x x' Hx _.
    assert (∃ format name,
      x' = State.set_format format
             (State.set_existingVolumeName name (State.set_mode value (initialState P x))))
      as (format & name & ->);
      [|split; [done|]; split; [done|]; simpl; by intros ->].
    revert Hx.
    assert (∃ format name,
      State.set_mode value (initialState P x) =
      State.set_format format
        (State.set_existingVolumeName name (State.set_mode value (initialState P x))))
      as Hplain.
    { by exists (initialFormat P), None. }
    case_bool_decide; [|by intros [= <-]]. simpl.
    destruct (fst <$> defaultPool P) as [name|]; [|by intros [= <-]].
    destruct (truthy (Some name)); [|by intros [= <-]].
    destruct (getDefaultVolumeName s name) as [volume|]; [simpl | done].
    destruct (existingVolumeNameDelta s volume _) as [delta|] eqn:Hdelta; [simpl | done].
    destruct (existingVolumeNameDelta_shape s volume _ delta Hdelta
                (State.set_mode value (initialState P x))) as [format Hshape].
    intros [= <-]. by eexists _, _.
  - intros [= <-]. apply Hkeeps, Hbus.
  - intros [= <-]. apply Hkeeps. unfold onFile. apply Forall_app. split.
    + destruct (endsWith value ".iso"); [apply Hdevice | apply Forall_nil_2].
    + apply Forall_cons_2; [by apply patch_keeps | apply Forall_nil_2].
  - intros [= <-]. apply Hkeeps, Hdevice.
  - intros [= <-]. apply Hkeeps.
    apply Forall_cons_2; [by apply patch_keeps | apply Forall_nil_2].
  - intros [= <-]. apply Hkeeps.
    apply Forall_cons_2; [by apply patch_keeps | apply Forall_nil_2].
  - intros [= <-]. apply Hkeeps.
    apply Forall_cons_2; [by apply patch_keeps | apply Forall_nil_2].
  - intros [= <-]. apply Hkeeps.
    apply Forall_cons_2; [by apply patch_keeps | apply Forall_nil_2].
  - intros [= <-]. apply Forall_cons_2; [|apply Forall_nil_2].
    intros x x'. unfold patch. intros [= <-] (Hvm & Hhotplug & Hpermanent).
    split; [done|]. split; [done|]. intros Hrunning. exfalso.
    destruct (Hrow value eq_refl) as [checked Hchecked].
    destruct Hs as (Hvm' & _ & _).
    revert Hchecked. unfold persistenceRow, PermanentChange. rewrite Hvm', Hrunning.
    by destruct (VM.persistent _).
  - intros [= <-]. apply Hkeeps.
    apply Forall_cons_2; [by apply patch_keeps | apply Forall_nil_2].
Qed.

(** X24. For a machine that is not running the checkbox "Always attach" is not
    rendered, and whatever is done on the form, the disk is submitted to
    be attached permanently and not hot-plugged. In full: the state of a
    dialog just opened holds the machine of the props, its [hotplug] says
    whether the machine is running, and [permanent] is set if it is not;
    every change of a form control keeps this, a change of [permanent]
    being one the rendered checkbox sends; and a click on "Add" issues a
    call with these values of [permanent] and [hotplug]. *)
Theorem shut_off_machine_attaches_permanently (P : Props.t) (s s' : State.t) :
  persistenceDefault P (initialState P s) ∧
  (domainIsRunning (VM.state (State.vm s)) = false → persistenceRow s = None) ∧
  (∀ key,
     (∀ value, key = Key.permanent value → is_Some (persistenceRow s)) →
     persistenceDefault P s → valueChanged P s key = Ok s' → persistenceDefault P s') ∧
  (∀ c one permanent hotplug,
     persistenceDefault P s → onAddClicked P s = Ok c → one ∈ issued c →
     persistenceOf one = Some (permanent, hotplug) →
     hotplug = domainIsRunning (VM.state (Props.vm P)) ∧
     (domainIsRunning (VM.state (Props.vm P)) = false → permanent = true)).
Proof.
  split; [|split; [|split]].
  - split; [done|]. split; [done|]. simpl. by intros ->.
  - intros Hrunning. unfold persistenceRow, PermanentChange. rewrite Hrunning.
    by destruct (VM.persistent _).
  - intros key Hrow Hs. unfold valueChanged.
    destruct (onValueChanged P s key) as [queue|] eqn:Hqueue; [simpl | done].
    intros Hflush. apply (flush_persistenceDefault P queue s s'); [|done..].
    by apply (onValueChanged_persistenceDefault P s key).
  - intros c one permanent hotplug (Hvm & Hhotplug & Hpermanent). unfold onAddClicked.
    destruct (validateParams P s) as [validation|]; [simpl | done].
    case_bool_decide; [intros [= <-] Hin; by apply elem_of_nil in Hin|].
    case_bool_decide.
    + intros [= <-] Hin. apply list_elem_of_singleton in Hin as ->. simpl.
      intros [= <- <-]. done.
    + destruct (if bool_decide (State.mode s = USE_EXISTING) then _ else _)
        as [[[storagePool volume] isVolumeUsed]|]; [simpl | done].
      intros [= <-] Hin. apply list_elem_of_singleton in Hin as ->. simpl.
      intros [= <- <-]. done.
Qed.

(** ** A volume that is used already *)

(** X25. On the use-existing tab, when [ChangeShareable] shows its warning
    (the volume chosen is used by some machine), a click on "Add" that
    issues [domainAttachDisk] marks the disk as shareable exactly when the
    format of the chosen volume is [raw]: the case in which the warning
    says so. *)
Theorem warned_volume_shareable_iff_raw (P : Props.t) (s : State.t) (warning : string)
    (c : Clicked) (args : AttachArgs.t) :
  State.mode s = USE_EXISTING →
  ChangeShareable s = Ok (Some warning) →
  onAddClicked P s = Ok c →
  domainAttachDisk args ∈ issued c →
  ∃ pool volumes volume,
    poolNamed s (State.storagePoolName s) = Some pool ∧
    Pool.volumes pool = Some volumes ∧
    List.find (λ vol, str_eq (Volume.name vol) (State.existingVolumeName s)) volumes
      = Some volume ∧
    AttachArgs.shareable args = bool_decide (Volume.format volume = Some "raw") ∧
    warning =
      (let text :=
         gettext "This volume is already used by: " +:+
         (joinNames (default [] (usage (getStorageVolumesUsage (State.vms s) pool)
                                   (State.existingVolumeName s))) +:+ ".") in
       if AttachArgs.shareable args
       then text +:+ gettext "Attaching it will make this disk shareable for every VM using it."
       else text).
Proof.
  intros Hmode. unfold ChangeShareable, onAddClicked.
  destruct (poolNamed s (State.storagePoolName s)) as [pool|] eqn:Hpool; [simpl | done].
  destruct (Pool.volumes pool) as [volumes|] eqn:Hvolumes; [simpl | done].
  destruct (usage _ _) as [[|vmName vmNames]|] eqn:Husage; [done | | done].
  destruct (List.find _ volumes) as [volume|] eqn:Hvolume; [simpl | done].
  intros [= <-].
  destruct (validateParams P s) as [validation|]; [simpl | done].
  case_bool_decide; [intros [= <-] Hin; by apply elem_of_nil in Hin|].
  rewrite Hmode. simpl.
  intros [= <-] Hin. apply list_elem_of_singleton in Hin. injection Hin as ->. simpl.
  exists pool, volumes, volume. rewrite Husage.
  rewrite (bool_decide_true (is_Some _)) by (by eexists). rewrite andb_true_r.
  split; [done|]. split; [done|]. split; [done|]. split; [done|].
  by case_bool_decide.
Qed.

End Submitted.
End AddDiskSubmitted.

(** * The further properties on the concrete dialogs *)

Module MoreRuns.
Import AddDisk AddDiskFacts AddDiskRows Scenario MoreScenario.
Import AddDiskMore AddDiskClicks AddDiskChanges AddDiskRowFacts.
#[local] Existing Instance Sample.ext.

(** Of the two volumes of the pool [default], the machine [vm2] is offered
    [b.img] only: its disk is the volume [a.img]. *)
Lemma getFilteredVolumes_available_vm2 :
  getFilteredVolumes (Some default_pool) (VM.disks vm2) = Ok [b_img] ∧
  ∃ available,
    getFilteredVolumes (Some default_pool) (VM.disks vm2) = Ok available ∧
    (∀ volume, volume ∈ available ↔
       volume ∈ [b_img; a_img] ∧
       ¬ usedBy (VM.disks vm2) (Volume.path volume) ∧
       ¬ usedBy (VM.disks vm2) (Volume.name volume)) ∧
    (NoDup [b_img; a_img] → NoDup available) ∧
    (length available ≤ length [b_img; a_img])%nat.
Proof.
  split; [vm_compute; reflexivity|].
  apply (getFilteredVolumes_available default_pool [b_img; a_img] (VM.disks vm2)).
  reflexivity.
Defined.

(** The machine [vm1] is offered both volumes, [a.img] first. *)
Lemma getFilteredVolumes_sorted_vm1 :
  getFilteredVolumes (Some default_pool) (VM.disks vm1) = Ok [a_img; b_img] ∧
  StronglySorted
    (λ a b, (localeCompare (Volume.name a) (Volume.name b) ≤ 0)%Z) [a_img; b_img].
Proof.
  split; [vm_compute; reflexivity|].
  apply (getFilteredVolumes_sorted default_pool [b_img; a_img] [a_img; b_img] (VM.disks vm1)).
  - reflexivity.
  - apply consistentOnList_consistentOn. unfold consistentOnList.
    apply (bool_decide_unpack _). vm_compute. exact I.
  - vm_compute. reflexivity.
Defined.

(** The custom-path tab with a path typed in. *)
Lemma customPath_always_attaches_custom :
  validateParams props custom = Ok ∅ ∧
  ∃ args,
    onAddClicked props custom =
      Ok {| queued := [];
            issued := [domainAttachDisk args];
            pending := Some (attachPending (State.vm custom) (State.vms custom)
                               None None None) |} ∧
    AttachArgs.type args = "file" ∧
    AttachArgs.file args = State.file custom ∧
    AttachArgs.device args = State.device custom ∧
    AttachArgs.format args = Some "raw" ∧
    AttachArgs.shareable args = false.
Proof. apply (customPath_always_attaches props custom). reflexivity. Defined.

(** The create-new tab with a volume name typed in: the submission is
    accepted. With 11 GiB asked of a pool of 10 GiB it is not. *)
Lemma createNew_issues_iff_accepted_named :
  (createNewAccepted named default_pool = true ∧
   createNewAccepted too_large default_pool = false) ∧
  ∃ c,
    onAddClicked props named = Ok c ∧
    if createNewAccepted named default_pool
    then (∃ args, issued c = [storageVolumeCreateAndAttach args] ∧
            CreateArgs.poolName args = State.storagePoolName named ∧
            CreateArgs.volumeName args = State.volumeName named) ∧
         pending c = Some (createPending (State.vm named))
    else issued c = [] ∧ pending c = None.
Proof.
  split; [split; vm_compute; reflexivity|].
  apply (createNew_issues_iff_accepted props named default_pool);
    vm_compute; reflexivity.
Defined.

(** The dialog of the machine [vm1] as it opens. *)
Lemma opened_click_only_validates_vm1 :
  (∃ pool, pool ∈ Props.storagePools props ∧
     State.storagePoolName opened = Some (Pool.name pool) ∧
     State.storagePoolType opened = Some (Pool.type pool)) ∧
  State.dialogLoading opened = false ∧
  ∃ c next,
    onAddClicked props opened = Ok c ∧
    issued c = [] ∧ pending c = None ∧
    flush (queued c) opened = Ok next ∧
    State.validate next = true ∧ State.addDiskInProgress next = false ∧
    formFields next = formFields opened.
Proof. apply (opened_click_only_validates props constructed). discriminate. Defined.

(** The volume [a.img] is raw and [vm2] uses it: when its attachment to
    [vm1] is fulfilled, the disk of [vm2] is marked shareable, the dialog
    closes when that is settled, and [vm1] is reloaded. *)
Lemma onFulfilled_reloads_and_closes_shared :
  onFulfilled shared_pending existing = Ok shared_effects ∧
  ∃ updates closing,
    shared_effects =
      updates ++ [closing; call (domainGet (VM.connectionName vm1) (VM.name vm1) (VM.id vm1))] ∧
    Forall marksShareable updates ∧
    (closing = close ∧ updates = [] ∨ closing = closeWhenSettled) ∧
    (∀ vm', shared_pending = createPending vm' → closing = close).
Proof.
  split; [vm_compute; reflexivity|].
  apply (onFulfilled_reloads_and_closes shared_pending existing shared_effects).
  vm_compute. reflexivity.
Defined.

(** The error of a rejected submission stays when the tab is switched. *)
Lemma error_never_cleared_rejected_once :
  ∃ s',
    valueChanged props rejected_once (Key.mode CREATE_NEW) = Ok s' ∧
    shownFlags s' = shownFlags rejected_once ∧
    State.dialogError s' = Some "Disk failed to be attached".
Proof.
  eexists. split; [vm_compute; reflexivity|]. split; [|reflexivity].
  apply (proj1 (error_never_cleared props rejected_once _) (Key.mode CREATE_NEW)).
  vm_compute. reflexivity.
Defined.

(** On the opened dialog, choosing the device [cdrom] moves the bus to
    [sata], that of the CD drive of the machine, and the target to [sdb]. *)
Lemma target_follows_bus_cdrom :
  targetFollowsBus props opened ∧
  ∃ s',
    valueChanged props opened (Key.device "cdrom") = Ok s' ∧
    State.busType s' = "sata" ∧ State.target s' = Some "sdb" ∧
    targetFollowsBus props s'.
Proof.
  split; [apply (proj1 (target_follows_bus props constructed constructed (Key.device "cdrom")))|].
  eexists. split; [vm_compute; reflexivity|]. split; [reflexivity|]. split; [reflexivity|].
  apply (proj2 (target_follows_bus props opened _ (Key.device "cdrom"))).
  - apply (proj1 (target_follows_bus props constructed constructed (Key.device "cdrom"))).
  - vm_compute. reflexivity.
Defined.

(** While the submission of the create-new tab is in flight, the switch to
    the custom-path tab clears the flag and enables the button. *)
Lemma mode_switch_forgets_busy :
  State.addDiskInProgress busy = true ∧ addDisabled busy = true ∧
  ∃ s',
    valueChanged props busy (Key.mode CUSTOM_PATH) = Ok s' ∧
    State.mode s' = CUSTOM_PATH ∧
    State.volumeName s' = None ∧
    State.addDiskInProgress s' = false ∧
    addDisabled s' = false.
Proof.
  split; [reflexivity|]. split; [reflexivity|].
  eexists. split; [vm_compute; reflexivity|].
  match goal with
  | |- State.mode ?s' = _ ∧ _ =>
      destruct (mode_switch_forgets props busy s' CUSTOM_PATH) as (_ & Hmode & Hbusy & Henabled);
        [vm_compute; reflexivity|]
  end.
  split; [exact Hmode|]. split; [reflexivity|]. split; [exact Hbusy|].
  apply Henabled; [reflexivity | by right].
Defined.

(** On the use-existing tab, choosing [b.img] and clicking "Add". *)
Lemma chosen_volume_is_attached_b_img :
  ∃ s' args,
    valueChanged props existing (Key.existingVolumeName (Some (Volume.name b_img))) = Ok s' ∧
    onAddClicked props s' =
      Ok {| queued := [];
            issued := [domainAttachDisk args];
            pending := Some (attachPending (State.vm existing) (State.vms existing)
                               (Some default_pool) (Some b_img)
                               (Some (getStorageVolumesUsage (State.vms existing)
                                        default_pool))) |} ∧
    AttachArgs.type args = "volume" ∧
    AttachArgs.poolName args = Some (Pool.name default_pool) ∧
    AttachArgs.volumeName args = Some (Volume.name b_img) ∧
    AttachArgs.format args =
      (if includes (Some <$> fileBasedTypes) (Some (Pool.type default_pool)) &&
          truthy (Volume.format b_img)
       then Volume.format b_img
       else getDefaultVolumeFormat (OfPool default_pool)) ∧
    AttachArgs.shareable args =
      (bool_decide (Volume.format b_img = Some "raw") &&
       bool_decide (is_Some (getStorageVolumesUsage (State.vms existing) default_pool
                               !! Volume.name b_img))).
Proof.
  apply (chosen_volume_is_attached props existing default_pool [b_img; a_img] b_img);
    try reflexivity; discriminate.
Defined.

(** A CD drive on the bus [virtio]: the table has no such bus for the
    device, and the select shows it as a disabled option. *)
Lemma displayBusTypes_offers_current_cdrom :
  displayBusTypes busTable supportedBuses "cdrom" "virtio" =
    Ok [("sata", false); ("scsi", false); ("virtio", true)] ∧
  ∃ options,
    displayBusTypes busTable supportedBuses "cdrom" "virtio" = Ok options ∧
    "virtio" ∈ options.*1 ∧
    (∀ value, (value, false) ∈ options ↔
       value ∈ ["sata"; "scsi"; "usb"] ∧ value ∈ supportedBuses) ∧
    (∀ value, (value, true) ∈ options ↔
       value = "virtio" ∧
       ¬ ("virtio" ∈ ["sata"; "scsi"; "usb"] ∧ "virtio" ∈ supportedBuses)).
Proof.
  split; [vm_compute; reflexivity|].
  apply (displayBusTypes_offers_current busTable supportedBuses "cdrom" "virtio").
  reflexivity.
Defined.

(** The pool select of the two pools of the scenario. *)
Lemma poolRow_options_two_pools :
  options (PoolRow (Some "default") ∅ (createNewPools [images_pool; default_pool])) =
    [("default", false); ("images", false)] ∧
  ((options (PoolRow (Some "default") ∅ (createNewPools [images_pool; default_pool]))).*1
     ≡ₚ Pool.name <$> [images_pool; default_pool] ∧
   (∀ name disabled,
      (name, disabled) ∈
        options (PoolRow (Some "default") ∅ (createNewPools [images_pool; default_pool])) ↔
      ∃ pool, pool ∈ [images_pool; default_pool] ∧ name = Pool.name pool ∧
              disabled = bool_decide (Pool.type pool ∈ poolTypesNotSupportingVolumeCreation)) ∧
   (options (PoolRow (Some "default") ∅ (useExistingPools [images_pool; default_pool]))).*1 =
   (options (PoolRow (Some "default") ∅ (createNewPools [images_pool; default_pool]))).*1 ∧
   Forall (λ option, option.2 = false)
     (options (PoolRow (Some "default") ∅ (useExistingPools [images_pool; default_pool])))).
Proof.
  split; [vm_compute; reflexivity|].
  apply (poolRow_options (Some "default") ∅ [images_pool; default_pool]).
  discriminate.
Defined.

End MoreRuns.

Module MoreBootRuns.
Import BootOrder BootOrderFacts BootOrderRun BootOrderMore Scenario MoreScenario.

(** The third device of the list, not ticked, is ticked by a click on its
    row. *)
Lemma onToggleDevice_twice_third :
  State.mk (State.devices boot_order) None None = boot_order ∧
  (∃ d, boot_heap !! 3%positive = Some d ∧
        <[3%positive := Device.mk "disk" None true]> boot_heap !! 3%positive =
          Some (Device.mk (Device.type d) (Device.bootOrder d) (negb (Device.checked d)))) ∧
  (∀ l, l ≠ 3%positive →
     <[3%positive := Device.mk "disk" None true]> boot_heap !! l = boot_heap !! l) ∧
  onToggleDevice (<[3%positive := Device.mk "disk" None true]> boot_heap)
    (State.mk (State.devices boot_order) None None) 3%positive = Ok (boot_heap, boot_order).
Proof.
  apply (onToggleDevice_twice boot_heap _ boot_order _ 3%positive).
  vm_compute. reflexivity.
Defined.

(** The first of the three devices moved up. *)
Lemma move_past_the_ends_first :
  State.devices (moveUp boot_order 1%positive) = [None; Some 2%positive; Some 3%positive] ∧
  is_ok (save Scenario.vm1 boot_heap (moveUp boot_order 1%positive)) = false.
Proof.
  assert (1%positive ∉ [2%positive; 3%positive]) as Hnotin.
  { apply (bool_decide_unpack _). vm_compute. exact I. }
  destruct (move_past_the_ends Scenario.vm1 boot_heap boot_order
              [2%positive; 3%positive] 1%positive Hnotin) as [Hup _].
  apply Hup. reflexivity.
Defined.

Lemma boot_dialog_moved : step boot_dialog boot_moved.
Proof.
  apply (step_up boot_dialog 1 2%positive); vm_compute; reflexivity.
Qed.

(** The second device moved up with its arrow, then "Save": the two ticked
    devices are sent, the second one first. *)
Lemma save_never_raises_moved :
  ticked (heap boot_moved) [2%positive; 1%positive; 3%positive] = [2%positive; 1%positive] ∧
  ∃ ds',
    State.devices (state boot_moved) = Some <$> ds' ∧ ds' ≡ₚ boot_devices ∧
    save Scenario.vm1 (heap boot_moved) (state boot_moved) =
      Ok (state boot_moved,
          [domainChangeBootOrder (VM.id Scenario.vm1) (VM.connectionName Scenario.vm1)
             (ticked (heap boot_moved) ds')]) ∧
    NoDup (ticked (heap boot_moved) ds') ∧ ticked (heap boot_moved) ds' ⊆ boot_devices.
Proof.
  split; [vm_compute; reflexivity|].
  apply (save_never_raises Scenario.vm1 boot_devices boot_dialog boot_moved).
  - apply (bool_decide_unpack (NoDup boot_devices)). vm_compute. exact I.
  - reflexivity.
  - intros l Hl. apply (bool_decide_unpack (is_Some (boot_heap !! l))).
    repeat (apply elem_of_cons in Hl as [->|Hl]; [vm_compute; exact I|]).
    by apply elem_of_nil in Hl.
  - apply rtc_once, boot_dialog_moved.
Defined.

End MoreBootRuns.

Module MoreDeleteRuns.
Import StoragePoolDelete StoragePoolDeleteRun StoragePoolDeleteMenu StoragePoolDeleteMore.
Import Scenario MoreScenario.
#[local] Existing Instance Sample.ext.

Lemma delete_started : start delete_props delete_with_volumes = Ok delete_run.
Proof. vm_compute. reflexivity. Qed.

(** The pool [default], active, deleted with its two volumes: four calls,
    all fulfilled. *)
Lemma delete_fulfilled_leaves_dialog_open_default :
  let r' := settleAll delete_props delete_run (replicate 4 fulfilled ++ []) in
  issued r' =
    (if State.deleteVolumes delete_with_volumes
     then volumeCalls (Props.storagePool delete_props) else []) ++
    (if Pool.active (Props.storagePool delete_props)
     then [storagePoolDeactivate (Pool.connectionName (Props.storagePool delete_props))
             (Pool.id (Props.storagePool delete_props))]
     else []) ++
    [storagePoolUndefine (Pool.connectionName (Props.storagePool delete_props))
       (Pool.id (Props.storagePool delete_props))] ∧
  pending r' = None ∧ state r' = delete_with_volumes ∧ closed r' = false.
Proof.
  apply (delete_fulfilled_leaves_dialog_open delete_props delete_with_volumes delete_run []).
  apply delete_started.
Defined.

(** The deletion of the first volume fulfilled, that of the second one
    rejected: the pool is neither deactivated nor undefined. *)
Lemma delete_rejected_stops_second_volume :
  let r' := settleAll delete_props delete_run
              (replicate 1 fulfilled ++ rejected "volume is in use" :: [fulfilled]) in
  State.dialogError (state r') =
    Some (gettext "The storage pool could not be deleted") ∧
  State.dialogErrorDetail (state r') = Some "volume is in use" ∧
  State.deleteVolumes (state r') = State.deleteVolumes delete_with_volumes ∧
  pending r' = None ∧
  issued r' = take (Nat.max (1 + 1) (length (firstCalls delete_props delete_with_volumes)))
                (allCalls delete_props delete_with_volumes) ∧
  issued r' = issued (settleAll delete_props delete_run (replicate 1 fulfilled)).
Proof.
  apply (delete_rejected_stops delete_props delete_with_volumes delete_run 1
           "volume is in use" [fulfilled]).
  - apply delete_started.
  - vm_compute. lia.
Defined.

(** After three fulfilments the pool is being undefined. *)
Lemma undefine_only_after_all_fulfilled_default :
  issued (settleAll delete_props delete_run [fulfilled; fulfilled; fulfilled])
    `prefix_of` allCalls delete_props delete_with_volumes ∧
  (storagePoolUndefine (Pool.connectionName (Props.storagePool delete_props))
     (Pool.id (Props.storagePool delete_props))
     ∈ issued (settleAll delete_props delete_run [fulfilled; fulfilled; fulfilled]) →
   replicate (length (allCalls delete_props delete_with_volumes) - 1) fulfilled
     `prefix_of` [fulfilled; fulfilled; fulfilled]).
Proof.
  apply (undefine_only_after_all_fulfilled delete_props delete_with_volumes delete_run
           [fulfilled; fulfilled; fulfilled]).
  apply delete_started.
Defined.

(** No disk of [vm1] names the pool [default]: its deletion is offered.
    The disk of [vm2] does, and with [vm2] it is not. *)
Lemma delete_offered_iff_unused_default :
  StoragePoolDeleteAction default_pool [vm1] = Ok true ∧
  StoragePoolDeleteAction default_pool [vm1; vm2] = Ok false ∧
  ∃ offered,
    StoragePoolDeleteAction default_pool [vm1] = Ok offered ∧
    (offered = true ↔ Pool.persistent default_pool = true ∧ unusedPool default_pool [vm1]).
Proof.
  split; [vm_compute; reflexivity|]. split; [vm_compute; reflexivity|].
  apply (delete_offered_iff_unused default_pool [vm1]).
  intros vm disk Hvm Hdisk.
  apply list_elem_of_singleton in Hvm as ->. simpl in Hdisk.
  apply list_elem_of_singleton in Hdisk as ->. by eexists.
Defined.

(** The volumes of the pool [default] are deleted with it: no machine of
    the props uses them. *)
Lemma used_volumes_are_not_deleted_default :
  State.deleteVolumes delete_with_volumes = true ∧
  ∀ vmNames,
    getStorageVolumesUsage (Props.vms delete_props) (Props.storagePool delete_props)
      !! "a.img" = Some vmNames →
    vmNames = [].
Proof.
  apply (used_volumes_are_not_deleted delete_props delete_with_volumes delete_calls
           ltac:(vm_compute; reflexivity) ltac:(vm_compute; reflexivity)
           ltac:(vm_compute; reflexivity) "system" "default" "a.img").
  right. left.
Defined.

End MoreDeleteRuns.

Module MoreSubmittedRuns.
Import AddDisk AddDiskFacts AddDiskPersistence AddDiskSubmitted Scenario MoreScenario.
#[local] Existing Instance Sample.ext.

(** The machine [vm1] is shut off: its dialog shows no "Always attach",
    and after a volume name is typed in the disk is still to be attached
    permanently. *)
Lemma shut_off_machine_attaches_permanently_vm1 :
  persistenceDefault props opened ∧
  persistenceRow opened = None ∧
  persistenceDefault props named ∧
  State.permanent named = true ∧ State.hotplug named = false.
Proof.
  assert (persistenceDefault props opened) as Hopened.
  { apply (proj1 (shut_off_machine_attaches_permanently props
                    (State.set_dialogLoading false constructed) opened)). }
  split; [exact Hopened|]. split; [|split; [|split; reflexivity]].
  - apply (proj1 (proj2 (shut_off_machine_attaches_permanently props opened opened))).
    reflexivity.
  - apply (proj1 (proj2 (proj2 (shut_off_machine_attaches_permanently props opened named)))
             (Key.volumeName (Some "data"))).
    + intros value. discriminate.
    + exact Hopened.
    + vm_compute. reflexivity.
Defined.

Lemma existing_shared_clicked :
  onAddClicked props_shared existing_shared =
    Ok (mkClicked [] [domainAttachDisk shared_args]
          (Some (attachPending vm1 [vm1; vm2] (Some default_pool) (Some a_img)
                   (Some (getStorageVolumesUsage [vm1; vm2] default_pool))))).
Proof. vm_compute. reflexivity. Qed.

(** The volume [a.img], raw and used by [vm2], chosen for [vm1]. *)
Lemma warned_volume_shareable_iff_raw_a_img :
  AttachArgs.shareable shared_args = true ∧
  ∃ pool volumes volume,
    poolNamed existing_shared (State.storagePoolName existing_shared) = Some pool ∧
    Pool.volumes pool = Some volumes ∧
    List.find (λ vol, str_eq (Volume.name vol) (State.existingVolumeName existing_shared))
      volumes = Some volume ∧
    AttachArgs.shareable shared_args = bool_decide (Volume.format volume = Some "raw") ∧
    "This volume is already used by: vm2.Attaching it will make this disk shareable for every VM using it." =
      (let text :=
         gettext "This volume is already used by: " +:+
         (joinNames (default [] (usage (getStorageVolumesUsage (State.vms existing_shared) pool)
                                   (State.existingVolumeName existing_shared))) +:+ ".") in
       if AttachArgs.shareable shared_args
       then text +:+ gettext "Attaching it will make this disk shareable for every VM using it."
       else text).
Proof.
  split; [reflexivity|].
  eapply (warned_volume_shareable_iff_raw props_shared existing_shared _ _ shared_args).
  - reflexivity.
  - vm_compute. reflexivity.
  - apply existing_shared_clicked.
  - left.
Defined.

End MoreSubmittedRuns.
